(** * A basis-trading backtester: synchronizer, funding index, signals, ledger

    Shallow embedding of the Python sources
      market_data_provider.py, fee_rate_provider.py, trading_signals.py,
      trading_strategies.py and backtester.py.

    Conventions of the embedding:
    - Python floats (timestamps, prices, capital, rates) are exact
      rationals [Q]; numeric equality of the source ([==]) is [Qeq].
    - Python ints that are counters or dictionary keys are [Z].
    - [None] is [option]'s [None]; Python truthiness of a number is
      "present and non-zero".
    - An exception aborts the computation: fallible functions return
      [result], whose errors name the Python exception raised.
    - The prices of a frame are numpy floats, and numpy divides by zero
      without an exception.  A quotient that is only compared (the ratio
      of the signals, the annual return) is a [Float64], which has the
      infinities and nan.  Where such a quotient would enter the ledger
      the embedding ends with [NonFinite]: the ledger is kept in exact
      rationals and what the source computes from there on is not followed.
    - [while True] loops carry a fuel argument computed from the number of
      records left to read; a separate lemma shows the fuel never runs out. *)

From Stdlib Require Import ZArith QArith Qround Qminmax Qabs List Bool Lia Lqa Sorting.Sorted.
Import ListNotations.
Open Scope Q_scope.

(** ** Comparisons on floats, as booleans *)

Definition Qgtb (a b : Q) : bool := negb (Qle_bool a b).
Definition Qltb (a b : Q) : bool := negb (Qle_bool b a).
Definition Qgeb (a b : Q) : bool := Qle_bool b a.
Definition Qleb (a b : Q) : bool := Qle_bool a b.

(** Python's [x % m] on floats, for a positive modulus. *)
Definition Qmod (x m : Q) : Q := x - m * inject_Z (Qfloor (x / m)).

(** ** Exceptions *)

Inductive error : Type :=
| ZeroDivisionError   (* a division of Python numbers whose divisor is zero *)
| TypeError           (* an ordering comparison with None *)
| ValueError          (* wrong data type of the provider *)
| IndexError          (* [iloc[-1]] on an empty frame *)
| NonFinite.          (* no exception of the source: inf or nan enters the
                         ledger, where the exact rationals end *)

Inductive result (A : Type) : Type :=
| Ok (a : A)
| Raise (e : error).
Arguments Ok {A} a.
Arguments Raise {A} e.

Definition bind {A B : Type} (r : result A) (k : A -> result B) : result B :=
  match r with
  | Ok a => k a
  | Raise e => Raise e
  end.

Notation "x <- c ;; k" := (bind c (fun x => k))
  (at level 61, c at next level, right associativity).
Notation "' p <- c ;; k" := (bind c (fun x => let 'p := x in k))
  (at level 61, p pattern, c at next level, right associativity).

(** [a / b] where both operands are Python numbers (int or float): a zero
    divisor raises ZeroDivisionError. *)
Definition checked_div (a b : Q) : result Q :=
  if Qeq_bool b 0 then Raise ZeroDivisionError else Ok (a / b).

(** ** numpy floats *)

(** A value of type [numpy.float64] that is compared or reported but never
    fed back into the ledger. *)
Inductive Float64 : Type :=
| Finite (q : Q)
| PosInf
| NegInf
| NaN.

(** [a / b] where an operand is a [numpy.float64]: a zero divisor gives
    inf, -inf or nan by the sign of the dividend, with a RuntimeWarning and
    no exception.  (The exact rationals have one zero: a divisor [-0.0] is
    not told apart.) *)
Definition np_div (a b : Q) : Float64 :=
  if Qeq_bool b 0 then
    if Qgtb a 0 then PosInf
    else if Qltb a 0 then NegInf
    else NaN
  else Finite (a / b).

(** [x > y] and [x < y] for a finite [y]: every comparison with nan is
    False. *)
Definition f64_gt (x : Float64) (y : Q) : bool :=
  match x with
  | Finite q => Qgtb q y
  | PosInf => true
  | NegInf | NaN => false
  end.
Definition f64_lt (x : Float64) (y : Q) : bool :=
  match x with
  | Finite q => Qltb q y
  | NegInf => true
  | PosInf | NaN => false
  end.

(** [x * k] for a finite [k]. *)
Definition f64_scale (x : Float64) (k : Q) : Float64 :=
  match x with
  | Finite q => Finite (q * k)
  | NaN => NaN
  | PosInf =>
      if Qgtb k 0 then PosInf else if Qltb k 0 then NegInf else NaN
  | NegInf =>
      if Qgtb k 0 then NegInf else if Qltb k 0 then PosInf else NaN
  end.

(** [a / b] where [b] is a [numpy.float64] and the quotient is stored in
    the ledger: with a zero divisor the source stores inf or nan and goes
    on; the embedding ends there. *)
Definition ledger_div (a b : Q) : result Q :=
  if Qeq_bool b 0 then Raise NonFinite else Ok (a / b).

(** * market_data_provider.py *)

Module MarketData.

(** A record of a tick file.  Only the fields the synchronizer and the
    resampler read are kept: the timestamp and the best bid and ask. *)
Record Tick : Type := mkTick {
  timestamp : Q;
  bid1 : Q;
  ask1 : Q
}.

(** [reader.read()] yields an instance of [Depth] or of [Fast]. *)
Inductive MarketRecord : Type :=
| DepthRec (t : Tick)
| FastRec (t : Tick).

Inductive DataType : Type := Depth | Fast.

(** [self.data_type == "Depth" and isinstance(data, Depth)], and the same
    for "Fast". *)
Definition is_instance (dt : DataType) (r : MarketRecord) : option Tick :=
  match dt, r with
  | Depth, DepthRec t => Some t
  | Fast, FastRec t => Some t
  | _, _ => None
  end.

(** One side (swap or spot): the records left in the current reader
    ([self.swap_readers[self.current_swap_reader_idx]]), and the readers
    after it.  [peek() == inf] is "the current reader is empty". *)
Record Side : Type := mkSide {
  reader : list MarketRecord;
  next_readers : list (list MarketRecord)
}.

Record Provider : Type := mkProvider {
  data_type : DataType;
  start_ts : Z;                  (* int(self.start_datetime.timestamp()) *)
  end_ts : Z;                    (* int(self.end_datetime.timestamp()) *)
  swap : Side;
  spot : Side;
  current_swap : option Tick;
  last_timestamp : option Q
}.

Definition set_swap (s : Side) (P : Provider) : Provider :=
  mkProvider (data_type P) (start_ts P) (end_ts P) s (spot P)
             (current_swap P) (last_timestamp P).
Definition set_spot (s : Side) (P : Provider) : Provider :=
  mkProvider (data_type P) (start_ts P) (end_ts P) (swap P) s
             (current_swap P) (last_timestamp P).
Definition set_current_swap (c : option Tick) (P : Provider) : Provider :=
  mkProvider (data_type P) (start_ts P) (end_ts P) (swap P) (spot P)
             c (last_timestamp P).
Definition set_last_timestamp (l : option Q) (P : Provider) : Provider :=
  mkProvider (data_type P) (start_ts P) (end_ts P) (swap P) (spot P)
             (current_swap P) l.

Definition record_timestamp (r : MarketRecord) : Q :=
  match r with DepthRec t | FastRec t => timestamp t end.

(** [_seek_to_start_time], one side:
    [while reader.peek() < target_ts and reader.peek() != inf: reader.read()].
    Only the current reader is advanced. *)
Fixpoint seek_reader (target : Z) (cur : list MarketRecord) : list MarketRecord :=
  match cur with
  | [] => []
  | r :: cur' =>
      if Qltb (record_timestamp r) (inject_Z target)
      then seek_reader target cur'
      else cur
  end.

Definition _seek_to_start_time (P : Provider) : Provider :=
  let sw := mkSide (seek_reader (start_ts P) (reader (swap P))) (next_readers (swap P)) in
  let sp := mkSide (seek_reader (start_ts P) (reader (spot P))) (next_readers (spot P)) in
  set_spot sp (set_swap sw P).

(** The body of [_read_next_valid_swap] / [_read_next_valid_spot] while the
    current reader has records: read one; if it has the provider's type,
    return it (or None when it is past the end instant); otherwise go on.
    The result is None when the reader runs empty without a return. *)
Fixpoint scan_reader (dt : DataType) (end_t : Z) (cur : list MarketRecord)
  : option (option Tick * list MarketRecord) :=
  match cur with
  | [] => None
  | r :: cur' =>
      match is_instance dt r with
      | Some t =>
          if Qgtb (timestamp t) (inject_Z end_t)
          then Some (None, cur')
          else Some (Some t, cur')
      | None => scan_reader dt end_t cur'
      end
  end.

(** The whole loop: when the current reader is empty,
    [_switch_to_next_reader_if_needed] moves to the next reader if there is
    one, else the function returns None.  (A reader that is empty right
    after the switch yields no record and the loop comes back to the
    switch.) *)
Fixpoint read_next_valid (dt : DataType) (end_t : Z)
    (cur : list MarketRecord) (nexts : list (list MarketRecord))
  : option Tick * Side :=
  match scan_reader dt end_t cur with
  | Some (r, cur') => (r, mkSide cur' nexts)
  | None =>
      match nexts with
      | [] => (None, mkSide [] [])
      | nxt :: nexts' => read_next_valid dt end_t nxt nexts'
      end
  end.

Definition _read_next_valid_swap (P : Provider) : option Tick * Provider :=
  let '(r, s) := read_next_valid (data_type P) (end_ts P)
                   (reader (swap P)) (next_readers (swap P)) in
  (r, set_swap s P).

Definition _read_next_valid_spot (P : Provider) : option Tick * Provider :=
  let '(r, s) := read_next_valid (data_type P) (end_ts P)
                   (reader (spot P)) (next_readers (spot P)) in
  (r, set_spot s P).

(** Number of records a side can still deliver: the measure of every loop. *)
Definition records (s : Side) : nat :=
  length (reader s) + length (concat (next_readers s)).

(** The ticks of the provider's type a side still holds, in reading order. *)
Fixpoint valid_of (dt : DataType) (l : list MarketRecord) : list Tick :=
  match l with
  | [] => []
  | r :: l' =>
      match is_instance dt r with
      | Some t => t :: valid_of dt l'
      | None => valid_of dt l'
      end
  end.

Definition valid_ticks (dt : DataType) (s : Side) : list Tick :=
  valid_of dt (reader s ++ concat (next_readers s)).

(** The inner loop of [read_next]:
    [while self.current_swap is not None
           and self.current_swap.timestamp <= spot.timestamp:
         best_swap = self.current_swap.clone()
         self.current_swap = self._read_next_valid_swap()] *)
Fixpoint advance_swap (fuel : nat) (spot_ts : Q) (best : option Tick)
    (P : Provider) : option (option Tick * Provider) :=
  match current_swap P with
  | None => Some (best, P)
  | Some cs =>
      if Qleb (timestamp cs) spot_ts then
        match fuel with
        | O => None
        | S f =>
            let '(nxt, P') := _read_next_valid_swap P in
            advance_swap f spot_ts (Some cs) (set_current_swap nxt P')
        end
      else Some (best, P)
  end.

Definition swap_fuel (P : Provider) : nat := S (records (swap P)).
Definition spot_fuel (P : Provider) : nat := S (records (spot P)).

(** [read_next]: the result is [Some (swap, spot)] for a pair and [None]
    for the source's [(None, None)]. *)
Fixpoint read_next_loop (fuel : nat) (P : Provider)
  : option (option (Tick * Tick) * Provider) :=
  match fuel with
  | O => None
  | S f =>
      let '(spot_tick, P1) := _read_next_valid_spot P in
      match spot_tick with
      | None => Some (None, P1)
      | Some sp =>
          let skip :=
            match current_swap P1 with
            | None => true
            | Some cs => Qgtb (timestamp cs) (timestamp sp)
            end in
          if skip then read_next_loop f P1
          else
            match advance_swap (swap_fuel P1) (timestamp sp) None P1 with
            | None => None
            | Some (Some best_swap, P2) => Some (Some (best_swap, sp), P2)
            | Some (None, P2) => read_next_loop f P2
            end
      end
  end.

Definition read_next (P : Provider) : option (option (Tick * Tick) * Provider) :=
  read_next_loop (spot_fuel P) P.

(** The scanning loop of [read_next_depth_by_interval] (lines 176-186). *)
Fixpoint interval_loop (fuel : nat) (target_timestamp : Q) (P : Provider)
  : option (option (Tick * Tick) * Provider) :=
  match fuel with
  | O => None
  | S f =>
      match read_next P with
      | None => None
      | Some (None, P1) => Some (None, P1)
      | Some (Some (sw, sp), P1) =>
          if Qgeb (timestamp sw) target_timestamp
          then Some (Some (sw, sp), set_last_timestamp (Some (timestamp sw)) P1)
          else interval_loop f target_timestamp P1
      end
  end.

(** [read_next_depth_by_interval(interval_ms)], after its data-type check. *)
Definition next_by_interval (interval_ms : Z) (P : Provider)
  : option (option (Tick * Tick) * Provider) :=
  match last_timestamp P with
  | None =>
      match read_next P with
      | None => None
      | Some (Some (sw, sp), P1) =>
          Some (Some (sw, sp), set_last_timestamp (Some (timestamp sw)) P1)
      | Some (None, P1) => Some (None, P1)
      end
  | Some last =>
      let target_timestamp := last + inject_Z interval_ms / 1000 in
      interval_loop (spot_fuel P) target_timestamp P
  end.

Definition read_next_depth_by_interval (interval_ms : Z) (P : Provider)
  : result (option (option (Tick * Tick) * Provider)) :=
  match data_type P with
  | Depth => Ok (next_by_interval interval_ms P)
  | Fast => Raise ValueError
  end.

(** The draining loop of [read_all_depth_by_interval] (lines 218-221 and
    265): the bars collected until the resampler reports the end. *)
Fixpoint drain_by_interval (fuel : nat) (interval_ms : Z) (P : Provider)
  : option (list (Tick * Tick)) :=
  match fuel with
  | O => None
  | S f =>
      match next_by_interval interval_ms P with
      | None => None
      | Some (None, _) => Some []
      | Some (Some bar, P1) =>
          match drain_by_interval f interval_ms P1 with
          | None => None
          | Some bars => Some (bar :: bars)
          end
      end
  end.

(** The draining loop of [read_all_depth_data] / [read_all_fast_data]:
    every aligned pair of [read_next]. *)
Fixpoint drain_pairs (fuel : nat) (P : Provider) : option (list (Tick * Tick)) :=
  match fuel with
  | O => None
  | S f =>
      match read_next P with
      | None => None
      | Some (None, _) => Some []
      | Some (Some pr, P1) =>
          match drain_pairs f P1 with
          | None => None
          | Some pairs => Some (pr :: pairs)
          end
      end
  end.

(** "Reset" at the head of the [read_all_*] functions. *)
Definition reset_for_read_all (P : Provider) : Provider :=
  let P1 := _seek_to_start_time P in
  let '(cs, P2) := _read_next_valid_swap P1 in
  set_last_timestamp None (set_current_swap cs P2).

(** [read_all_depth_by_interval]: the (swap, spot) bars behind the rows of
    the returned frame; each row's "timestamp" is [swap.timestamp]. *)
Definition read_all_depth_by_interval (interval_ms : Z) (P : Provider)
  : result (option (list (Tick * Tick))) :=
  match data_type P with
  | Fast => Raise ValueError
  | Depth =>
      let P0 := reset_for_read_all P in
      Ok (drain_by_interval (spot_fuel P0) interval_ms P0)
  end.

(** The timestamp column the source writes for a bar, and the timestamp of
    its spot tick. *)
Definition row_timestamp (bar : Tick * Tick) : Q := timestamp (fst bar).
Definition spot_timestamp (bar : Tick * Tick) : Q := timestamp (snd bar).

(** The swap ticks still to come, the buffered one first. *)
Definition swap_stream (P : Provider) : list Tick :=
  match current_swap P with
  | Some c => c :: valid_ticks (data_type P) (swap P)
  | None => valid_ticks (data_type P) (swap P)
  end.

Definition spot_stream (P : Provider) : list Tick :=
  valid_ticks (data_type P) (spot P).

Definition ts_le (a b : Tick) : Prop := timestamp a <= timestamp b.

(** [__init__] after the readers are opened (lines 30-44). *)
Definition init (dt : DataType) (start_t end_t : Z)
    (swap_readers spot_readers : list (list MarketRecord)) : option Provider :=
  match swap_readers, spot_readers with
  | sw :: sws, sp :: sps =>
      let P := mkProvider dt start_t end_t (mkSide sw sws) (mkSide sp sps) None None in
      let P := _seek_to_start_time P in
      let '(cs, P) := _read_next_valid_swap P in
      Some (set_last_timestamp None (set_current_swap cs P))
  | _, _ => None
  end.

(** *** Predicates of the statements below *)

(** What one read of a side does, on the side's stream of valid ticks:
    it takes the head; a head past the end instant is taken and lost. *)
Definition read_outcome (dt : DataType) (end_t : Z) (before : list Tick)
    (r : option Tick) (after : list Tick) : Prop :=
  (before = [] /\ r = None /\ after = [])
  \/ (exists t, before = t :: after
                /\ r = if Qgtb (timestamp t) (inject_Z end_t) then None else Some t).

(** The fields a read of one side leaves alone. *)
Definition same_frame (P P' : Provider) : Prop :=
  data_type P' = data_type P /\ start_ts P' = start_ts P
  /\ end_ts P' = end_ts P /\ last_timestamp P' = last_timestamp P.

(** The three parts of hold-last-value for a pair produced from state [P]:
    the swap tick is not after the spot tick; the swap tick that follows it
    in the stream, if any, is after the spot tick (and so is every later
    one when the stream is ordered); the spot ticks read before the
    produced one are older than the buffered swap tick (and so than every
    swap tick at hand when the stream is ordered). *)
Definition hold_last_value (P : Provider) (b sp : Tick) : Prop :=
  timestamp b <= timestamp sp
  /\ (exists pre post,
         swap_stream P = pre ++ b :: post
         /\ match post with
            | [] => True
            | w :: _ => timestamp sp < timestamp w
            end
         /\ (StronglySorted ts_le (swap_stream P) ->
             forall w, In w post -> timestamp sp < timestamp w))
  /\ (exists skipped rest,
         spot_stream P = skipped ++ sp :: rest
         /\ (forall y, In y skipped ->
               exists cs, hd_error (swap_stream P) = Some cs
                          /\ timestamp y < timestamp cs)
         /\ (StronglySorted ts_le (swap_stream P) ->
             forall y w, In y skipped -> In w (swap_stream P) ->
                         timestamp y < timestamp w)).

(** Consecutive bars are at least the interval apart, for a given reading
    of "the timestamp of a bar". *)
Definition spaced (interval_ms : Z) (ts_of : Tick * Tick -> Q)
    (bars : list (Tick * Tick)) : Prop :=
  forall i b1 b2,
    nth_error bars i = Some b1 ->
    nth_error bars (S i) = Some b2 ->
    ts_of b1 + inject_Z interval_ms / 1000 <= ts_of b2.

(** The same, starting from the baseline the provider holds. *)
Fixpoint chained (interval_ms : Z) (last : option Q) (bars : list (Tick * Tick))
  : Prop :=
  match bars with
  | [] => True
  | b :: bars' =>
      match last with
      | None => True
      | Some l => l + inject_Z interval_ms / 1000 <= row_timestamp b
      end
      /\ chained interval_ms (Some (row_timestamp b)) bars'
  end.

(** Putting back the resampler's baseline after a read. *)
Definition with_last {A} (l : option Q) (x : option (A * Provider))
  : option (A * Provider) :=
  match x with
  | Some (r, P') => Some (r, set_last_timestamp l P')
  | None => None
  end.

(** Every aligned pair the provider still produces. *)
Definition all_pairs (P : Provider) : option (list (Tick * Tick)) :=
  drain_pairs (spot_fuel P) P.

(** Resampling a list of aligned pairs against a baseline: a pair is kept
    when there is no baseline yet or when its row timestamp has reached
    baseline + interval, and then becomes the baseline; the others are
    dropped. *)
Fixpoint resample (interval_ms : Z) (last : option Q) (pairs : list (Tick * Tick))
  : list (Tick * Tick) :=
  match pairs with
  | [] => []
  | pr :: pairs' =>
      match last with
      | None => pr :: resample interval_ms (Some (row_timestamp pr)) pairs'
      | Some l =>
          if Qgeb (row_timestamp pr) (l + inject_Z interval_ms / 1000)
          then pr :: resample interval_ms (Some (row_timestamp pr)) pairs'
          else resample interval_ms last pairs'
      end
  end.

(** *** The synchronizer on plain streams *)

(** The inner loop of [read_next] on the stream of valid swap ticks: [cs]
    is the buffered tick, not after the spot timestamp [ts].  The result is
    the best tick, the tick buffered next and the ticks left. *)
Fixpoint advance_list (end_t : Z) (ts : Q) (cs : Tick) (swaps : list Tick)
  : Tick * option Tick * list Tick :=
  match swaps with
  | [] => (cs, None, [])
  | t :: rest =>
      if Qgtb (timestamp t) (inject_Z end_t) then (cs, None, rest)
      else if Qleb (timestamp t) ts then advance_list end_t ts t rest
      else (cs, Some t, rest)
  end.

(** The pairs of repeated [read_next] on the streams of valid ticks. *)
Fixpoint merge (end_t : Z) (cur : option Tick) (swaps spots : list Tick)
  : list (Tick * Tick) :=
  match spots with
  | [] => []
  | y :: spots' =>
      if Qgtb (timestamp y) (inject_Z end_t) then []
      else
        match cur with
        | None => merge end_t None swaps spots'
        | Some cs =>
            if Qgtb (timestamp cs) (timestamp y)
            then merge end_t cur swaps spots'
            else
              let '(best, cur', swaps') :=
                advance_list end_t (timestamp y) cs swaps in
              (best, y) :: merge end_t cur' swaps' spots'
        end
  end.

Definition merge_of (P : Provider) : list (Tick * Tick) :=
  merge (end_ts P) (current_swap P) (valid_ticks (data_type P) (swap P))
        (spot_stream P).

(** The swap stream from its buffered tick and the ticks behind it. *)
Definition stream_of (cur : option Tick) (swaps : list Tick) : list Tick :=
  match cur with
  | Some c => c :: swaps
  | None => swaps
  end.

(** [l1] is [l2] with some elements left out. *)
Inductive subseq {A : Type} : list A -> list A -> Prop :=
| subseq_nil : forall l, subseq [] l
| subseq_take : forall x l1 l2, subseq l1 l2 -> subseq (x :: l1) (x :: l2)
| subseq_skip : forall x l1 l2, subseq l1 l2 -> subseq l1 (x :: l2).

(** [read_all_depth_data] and [read_all_fast_data]: the reset of the
    reading position (which leaves [last_timestamp] alone) and every
    aligned pair; the data type is checked first. *)
Definition reset_position (P : Provider) : Provider :=
  let P1 := _seek_to_start_time P in
  let '(cs, P2) := _read_next_valid_swap P1 in
  set_current_swap cs P2.

Definition read_all_depth_data (P : Provider)
  : result (option (list (Tick * Tick))) :=
  match data_type P with
  | Fast => Raise ValueError
  | Depth => Ok (all_pairs (reset_position P))
  end.

Definition read_all_fast_data (P : Provider)
  : result (option (list (Tick * Tick))) :=
  match data_type P with
  | Depth => Raise ValueError
  | Fast => Ok (all_pairs (reset_position P))
  end.

End MarketData.

(** * fee_rate_provider.py *)

Module FeeRate.

(** A day's funding rates: the items of the dict
    [{timestamp in seconds: rate}] in iteration order. *)
Definition DailyRates : Type := list (Z * Q).

(** What [get_daily_funding_rates(date_str)] returns for each date, from
    the cache file or from the exchange; the exchange client is not part of
    the repository.  Dates are day numbers (days since 1970-01-01 in the
    provider's time zone). *)
Definition Table : Type := Z -> DailyRates.

Record FeeRateProvider : Type := mkFeeRateProvider {
  daily : Table
}.

Definition get_daily_funding_rates (prov : FeeRateProvider) (date : Z) : DailyRates :=
  daily prov date.

(** [if timestamp > 1e12: timestamp = int(timestamp / 1000)] *)
Definition to_seconds (timestamp : Q) : Q :=
  if Qgtb timestamp 1000000000000
  then inject_Z (Qfloor (timestamp / 1000))
  else timestamp.

(** [datetime.fromtimestamp(timestamp, self.tz).strftime('%Y-%m-%d')] with
    [self.tz] = Asia/Shanghai, eight hours ahead of UTC. *)
Definition date_of (timestamp : Q) : Z :=
  Qfloor ((timestamp + 28800) / 86400).

(** The tuple a lookup returns: [(ts, rate)] or [(None, None)]. *)
Inductive FundingTuple : Type :=
| Found (ts : Z) (rate : Q)
| NoneNone.

Definition tuple_ts (t : FundingTuple) : option Z :=
  match t with Found ts _ => Some ts | NoneNone => None end.
Definition tuple_rate (t : FundingTuple) : option Q :=
  match t with Found _ rate => Some rate | NoneNone => None end.

(** A tuple of two components is truthy whatever it holds. *)
Definition tuple_truthy (t : FundingTuple) : bool := true.

(** First loop of [get_next_funding_rate] (lines 201-204). *)
Fixpoint scan_next (timestamp : Q) (items : DailyRates) (next : FundingTuple)
  : FundingTuple :=
  match items with
  | [] => next
  | (ts, rate) :: items' =>
      let smaller :=
        match next with
        | NoneNone => true
        | Found next_ts _ => (ts <? next_ts)%Z
        end in
      if Qgtb (inject_Z ts) timestamp && smaller
      then scan_next timestamp items' (Found ts rate)
      else scan_next timestamp items' next
  end.

(** Second loop (lines 212-215): the minimum of the following date, with
    no comparison against the query. *)
Fixpoint scan_min (items : DailyRates) (next : FundingTuple) : FundingTuple :=
  match items with
  | [] => next
  | (ts, rate) :: items' =>
      let smaller :=
        match next with
        | NoneNone => true
        | Found next_ts _ => (ts <? next_ts)%Z
        end in
      if smaller
      then scan_min items' (Found ts rate)
      else scan_min items' next
  end.

Definition get_next_funding_rate (prov : FeeRateProvider) (timestamp : Q)
  : FundingTuple :=
  let timestamp := to_seconds timestamp in
  let date := date_of timestamp in
  let funding_rates := get_daily_funding_rates prov date in
  match scan_next timestamp funding_rates NoneNone with
  | Found next_ts next_rate => Found next_ts next_rate
  | NoneNone =>
      let next_funding_rates := get_daily_funding_rates prov (date + 1)%Z in
      scan_min next_funding_rates NoneNone
  end.

(** The loops of [get_prev_funding_rate] (lines 247-250 and 258-261). *)
Fixpoint scan_prev (timestamp : Q) (items : DailyRates) (prev : FundingTuple)
  : FundingTuple :=
  match items with
  | [] => prev
  | (ts, rate) :: items' =>
      let larger :=
        match prev with
        | NoneNone => true
        | Found prev_ts _ => (ts >? prev_ts)%Z
        end in
      if Qltb (inject_Z ts) timestamp && larger
      then scan_prev timestamp items' (Found ts rate)
      else scan_prev timestamp items' prev
  end.

Fixpoint scan_max (items : DailyRates) (prev : FundingTuple) : FundingTuple :=
  match items with
  | [] => prev
  | (ts, rate) :: items' =>
      let larger :=
        match prev with
        | NoneNone => true
        | Found prev_ts _ => (ts >? prev_ts)%Z
        end in
      if larger
      then scan_max items' (Found ts rate)
      else scan_max items' prev
  end.

Definition get_prev_funding_rate (prov : FeeRateProvider) (timestamp : Q)
  : FundingTuple :=
  let timestamp := to_seconds timestamp in
  let date := date_of timestamp in
  let funding_rates := get_daily_funding_rates prov date in
  match scan_prev timestamp funding_rates NoneNone with
  | Found prev_ts prev_rate => Found prev_ts prev_rate
  | NoneNone =>
      let prev_funding_rates := get_daily_funding_rates prov (date - 1)%Z in
      scan_max prev_funding_rates NoneNone
  end.

(** *** Predicates of the statements below *)

(** [r] is an event of [items] that passes [keep] with the least timestamp
    among those that do, or [(None, None)] when none passes. *)
Definition minimal_among (keep : Z -> Prop) (items : DailyRates)
    (r : FundingTuple) : Prop :=
  match r with
  | Found ts rate =>
      In (ts, rate) items /\ keep ts
      /\ forall ts' rate', In (ts', rate') items -> keep ts' -> (ts <= ts')%Z
  | NoneNone =>
      forall ts' rate', In (ts', rate') items -> ~ keep ts'
  end.

Definition after (timestamp : Q) (ts : Z) : Prop := timestamp < inject_Z ts.
Definition any (ts : Z) : Prop := True.

Definition before (timestamp : Q) (ts : Z) : Prop := inject_Z ts < timestamp.

(** [r] is an event of [items] that passes [keep] with the greatest
    timestamp among those that do, or [(None, None)] when none passes. *)
Definition maximal_among (keep : Z -> Prop) (items : DailyRates)
    (r : FundingTuple) : Prop :=
  match r with
  | Found ts rate =>
      In (ts, rate) items /\ keep ts
      /\ forall ts' rate', In (ts', rate') items -> keep ts' -> (ts' <= ts)%Z
  | NoneNone =>
      forall ts' rate', In (ts', rate') items -> ~ keep ts'
  end.

End FeeRate.

(** ** The cache behind [get_daily_funding_rates] *)

Module FeeCache.

Import FeeRate.

(** [d[k] = v] on a dict: an existing key keeps its place. *)
Fixpoint dict_set (k : Z) (v : Q) (d : DailyRates) : DailyRates :=
  match d with
  | [] => [(k, v)]
  | (k', v') :: d' =>
      if (k' =? k)%Z then (k, v) :: d' else (k', v') :: dict_set k v d'
  end.

(** [d.get(k)] *)
Fixpoint dict_get (k : Z) (d : DailyRates) : option Q :=
  match d with
  | [] => None
  | (k', v') :: d' => if (k' =? k)%Z then Some v' else dict_get k d'
  end.

(** [d.update(other)] *)
Definition dict_update (d other : DailyRates) : DailyRates :=
  fold_left (fun acc kv => dict_set (fst kv) (snd kv) acc) other d.

(** A cache file [<cache_dir>/<exchange>/<date>.json]: missing, present
    but not loadable, or holding a dict (its string keys are the decimal
    timestamps, read back with [int]). *)
Inductive CacheFile : Type :=
| Missing
| Unloadable
| Holds (d : DailyRates).

(** The world around the provider: the cache files by date; whether a
    write to a date's file goes through, and what the file is left as when
    it does not; and the requests made to the exchange so far, as
    [(after, before)] in milliseconds. *)
Record World : Type := mkWorld {
  files : Z -> CacheFile;
  write_ok : Z -> bool;
  after_failed_write : Z -> CacheFile;
  requests : list (Z * Z)
}.

(** The exchange client, which is not part of the repository: the items
    [(fundingTime in ms, fundingRate)] of the answer to a request. *)
Definition Api : Type := Z -> Z -> list (Z * Q).

(** [_load_from_cache]: None unless the file exists and loads. *)
Definition _load_from_cache (w : World) (date : Z) : option DailyRates :=
  match files w date with
  | Holds d => Some d
  | Missing | Unloadable => None
  end.

(** [_save_to_cache]: a failure is logged and swallowed. *)
Definition _save_to_cache (w : World) (date : Z) (data : DailyRates) : World :=
  let content := if write_ok w date then Holds data else after_failed_write w date in
  mkWorld (fun d => if (d =? date)%Z then content else files w d)
          (write_ok w) (after_failed_write w) (requests w).

(** The loop of [_fetch_funding_rates] (lines 116-120):
    [result[int(int(item['fundingTime']) / 1000)] = float(item['fundingRate'])]. *)
Definition collect (items : list (Z * Q)) : DailyRates :=
  fold_left (fun acc item => dict_set (Z.quot (fst item) 1000) (snd item) acc)
            items [].

(** [_fetch_funding_rates(start_time, end_time)], the times in seconds. *)
Definition _fetch_funding_rates (api : Api) (w : World) (start_time end_time : Z)
  : DailyRates * World :=
  let start_timestamp := (start_time * 1000)%Z in
  let end_timestamp := (end_time * 1000)%Z in
  (collect (api end_timestamp start_timestamp),
   mkWorld (files w) (write_ok w) (after_failed_write w)
           (requests w ++ [(end_timestamp, start_timestamp)])).

(** Midnight of a date in the provider's time zone, in seconds. *)
Definition day_start (date : Z) : Z := (date * 86400 - 28800)%Z.

(** [get_daily_funding_rates] *)
Definition get_daily_funding_rates (api : Api) (w : World) (date : Z)
  : DailyRates * World :=
  match _load_from_cache w date with
  | Some result => (result, w)
  | None =>
      let start_time := day_start date in
      let end_time := (start_time + 86399)%Z in
      let next_day_start := (start_time + 86400)%Z in
      let '(result, w) := _fetch_funding_rates api w start_time end_time in
      let '(next_day_result, w) :=
        _fetch_funding_rates api w end_time (next_day_start + 1)%Z in
      let result := dict_update result next_day_result in
      let w := _save_to_cache w date result in
      (result, w)
  end.

(** The last rate an answer gives for a timestamp in seconds. *)
Fixpoint last_rate (k : Z) (items : list (Z * Q)) (found : option Q) : option Q :=
  match items with
  | [] => found
  | item :: items' =>
      last_rate k items'
        (if (Z.quot (fst item) 1000 =? k)%Z then Some (snd item) else found)
  end.

(** No key occurs twice in a dict. *)
Definition keys_distinct (d : DailyRates) : Prop := NoDup (map fst d).

End FeeCache.

(** * trading_signals.py *)

Inductive PositionType : Type := long | short.

Definition PositionType_eqb (a b : PositionType) : bool :=
  match a, b with
  | long, long | short, short => true
  | _, _ => false
  end.

(** A row of the frame handed to the strategy. *)
Record Bar : Type := mkBar {
  exchange_timestamp : Q;
  bar_swap_price : Q;
  bar_spot_price : Q
}.

(** [data.iloc[-1]]: the last row of the frame. *)
Definition iloc_last (data : list Bar) : result Bar :=
  match rev data with
  | [] => Raise IndexError
  | b :: _ => Ok b
  end.

Module Signals.

Import FeeRate.

Record TradingSignalFirst : Type := mkSignal {
  short_in_threshold : Q;
  short_out_threshold : Q;
  long_in_threshold : Q;
  long_out_threshold : Q;
  short_in_threshold_near_positive_fee : Q;
  short_out_threshold_near_positive_fee : Q;
  long_in_threshold_near_positive_fee : Q;
  long_out_threshold_near_positive_fee : Q;
  short_in_threshold_near_negative_fee : Q;
  short_out_threshold_near_negative_fee : Q;
  long_in_threshold_near_negative_fee : Q;
  long_out_threshold_near_negative_fee : Q;
  fee_provider : FeeRateProvider
}.

(** [TradingSignalFirst.__init__] *)
Definition init (prov : FeeRateProvider) : TradingSignalFirst :=
  {| short_in_threshold := 1.000758;
     short_out_threshold := 0.999999;
     long_in_threshold := 0.999000;
     long_out_threshold := 1.000001;
     short_in_threshold_near_positive_fee := 1.000500;
     short_out_threshold_near_positive_fee := 0.999750;
     long_in_threshold_near_positive_fee := 0.998750;
     long_out_threshold_near_positive_fee := 0.999750;
     short_in_threshold_near_negative_fee := 1.001000;
     short_out_threshold_near_negative_fee := 1.000250;
     long_in_threshold_near_negative_fee := 0.999250;
     long_out_threshold_near_negative_fee := 1.000250;
     fee_provider := prov |}.

Definition _is_near_settlement (timestamp : Q) : bool :=
  Qgtb (Qmod timestamp 28800) 28000.

Definition _get_next_funding (sig : TradingSignalFirst) (timestamp : Q)
  : FundingTuple :=
  get_next_funding_rate (fee_provider sig) timestamp.

(** [x > y] and [x < y] where [x] may be None: Python 3 raises TypeError. *)
Definition gt_or_TypeError (x : option Q) (y : Q) : result bool :=
  match x with
  | Some v => Ok (Qgtb v y)
  | None => Raise TypeError
  end.
Definition lt_or_TypeError (x : option Q) (y : Q) : result bool :=
  match x with
  | Some v => Ok (Qltb v y)
  | None => Raise TypeError
  end.

Definition get_entry_signal (sig : TradingSignalFirst) (data : list Bar)
  : result Z :=
  latest_data <- iloc_last data ;;
  let timestamp := exchange_timestamp latest_data in
  let swap_price := bar_swap_price latest_data in
  let spot_price := bar_spot_price latest_data in
  let ratio_short := np_div swap_price spot_price in
  let ratio_long := np_div swap_price spot_price in
  let is_near_settlement := _is_near_settlement timestamp in
  let next_funding := _get_next_funding sig timestamp in
  if is_near_settlement && tuple_truthy next_funding then
    let funding_rate := tuple_rate next_funding in
    positive <- gt_or_TypeError funding_rate 0 ;;
    if positive then
      if f64_gt ratio_short (short_in_threshold_near_positive_fee sig)
      then Ok (-1)%Z else Ok 0%Z
    else
      if f64_lt ratio_long (long_in_threshold_near_negative_fee sig)
      then Ok 1%Z else Ok 0%Z
  else
    if f64_gt ratio_short (short_in_threshold sig) then Ok (-1)%Z
    else if f64_lt ratio_long (long_in_threshold sig) then Ok 1%Z
    else Ok 0%Z.

Definition get_exit_signal (sig : TradingSignalFirst) (data : list Bar)
    (position_type : PositionType) : result Z :=
  latest_data <- iloc_last data ;;
  let timestamp := exchange_timestamp latest_data in
  let swap_price := bar_swap_price latest_data in
  let spot_price := bar_spot_price latest_data in
  let is_near_settlement := _is_near_settlement timestamp in
  let next_funding := _get_next_funding sig timestamp in
  match position_type with
  | short =>
      let ratio := np_div swap_price spot_price in
      adjusted <-
        (if is_near_settlement && tuple_truthy next_funding
         then gt_or_TypeError (tuple_rate next_funding) 0
         else Ok false) ;;
      let threshold :=
        if adjusted then short_out_threshold_near_positive_fee sig
        else short_out_threshold sig in
      if f64_lt ratio threshold then Ok 1%Z else Ok 0%Z
  | long =>
      let ratio := np_div swap_price spot_price in
      adjusted <-
        (if is_near_settlement && tuple_truthy next_funding
         then lt_or_TypeError (tuple_rate next_funding) 0
         else Ok false) ;;
      let threshold :=
        if adjusted then long_out_threshold_near_negative_fee sig
        else long_out_threshold sig in
      if f64_gt ratio threshold then Ok 1%Z else Ok 0%Z
  end.

(** The thresholds are those [__init__] assigns. *)
Definition default_thresholds (sig : TradingSignalFirst) : Prop :=
  sig = init (fee_provider sig).

End Signals.

(** * trading_strategies.py *)

Module Strategy.

Import FeeRate.

Record Position : Type := mkPosition {
  position_type : PositionType;
  entry_time : Q;
  swap_price : Q;
  spot_price : Q;
  amount : Q;
  position_id : Z;
  funding_payments : list (Q * Q)
}.

Definition add_funding_payment (p : Position) (timestamp amt : Q) : Position :=
  mkPosition (position_type p) (entry_time p) (swap_price p) (spot_price p)
             (amount p) (position_id p)
             (funding_payments p ++ [(timestamp, amt)]).

Definition calculate_pnl (p : Position) (exit_swap_price exit_spot_price : Q) : Q :=
  match position_type p with
  | long =>
      (exit_spot_price - spot_price p + (swap_price p - exit_swap_price)) * amount p
  | short =>
      (spot_price p - exit_spot_price + (exit_swap_price - swap_price p)) * amount p
  end.

Inductive Action : Type := open | close.

(** [(action, position_type, amount, swap_price, spot_price)] *)
Definition Trade : Type := (Action * PositionType * Q * Q * Q)%type.

(** The attributes of a [TradingStratsFirst] object. *)
Record TradingStratsFirst : Type := mkStrategy {
  initial_capital : Q;
  capital : Q;
  max_positions : Z;
  fee_rate : Q;
  funding_fee_enabled : bool;
  positions : list Position;
  closed_positions : list Position;
  next_position_id : Z;
  fee_provider : FeeRateProvider;
  total_pnl : Q;
  total_fee : Q;
  total_funding_fee : Q;
  trade_count : Z;
  win_count : Z;
  signal : Signals.TradingSignalFirst;
  current_position_type : option PositionType;
  last_entry_time : Q;
  next_funding_time : option Z
}.

(** [TradingStratsFirst.__init__]; both providers read the same cache. *)
Definition init (capital : Q) (max_positions : Z) (fee_rate : Q)
    (funding_fee_enabled : bool) (prov : FeeRateProvider) : TradingStratsFirst :=
  {| initial_capital := capital;
     capital := capital;
     max_positions := max_positions;
     fee_rate := fee_rate;
     funding_fee_enabled := funding_fee_enabled;
     positions := [];
     closed_positions := [];
     next_position_id := 1;
     fee_provider := prov;
     total_pnl := 0;
     total_fee := 0;
     total_funding_fee := 0;
     trade_count := 0;
     win_count := 0;
     signal := Signals.init prov;
     current_position_type := None;
     last_entry_time := 0;
     next_funding_time := None |}.

(** Assignments to the attributes that change. *)
Definition set_capital (v : Q) (s : TradingStratsFirst) : TradingStratsFirst :=
  mkStrategy (initial_capital s) v (max_positions s) (fee_rate s)
    (funding_fee_enabled s) (positions s) (closed_positions s)
    (next_position_id s) (fee_provider s) (total_pnl s) (total_fee s)
    (total_funding_fee s) (trade_count s) (win_count s) (signal s)
    (current_position_type s) (last_entry_time s) (next_funding_time s).
Definition set_positions (v : list Position) (s : TradingStratsFirst) : TradingStratsFirst :=
  mkStrategy (initial_capital s) (capital s) (max_positions s) (fee_rate s)
    (funding_fee_enabled s) v (closed_positions s)
    (next_position_id s) (fee_provider s) (total_pnl s) (total_fee s)
    (total_funding_fee s) (trade_count s) (win_count s) (signal s)
    (current_position_type s) (last_entry_time s) (next_funding_time s).
Definition set_closed_positions (v : list Position) (s : TradingStratsFirst) : TradingStratsFirst :=
  mkStrategy (initial_capital s) (capital s) (max_positions s) (fee_rate s)
    (funding_fee_enabled s) (positions s) v
    (next_position_id s) (fee_provider s) (total_pnl s) (total_fee s)
    (total_funding_fee s) (trade_count s) (win_count s) (signal s)
    (current_position_type s) (last_entry_time s) (next_funding_time s).
Definition set_next_position_id (v : Z) (s : TradingStratsFirst) : TradingStratsFirst :=
  mkStrategy (initial_capital s) (capital s) (max_positions s) (fee_rate s)
    (funding_fee_enabled s) (positions s) (closed_positions s)
    v (fee_provider s) (total_pnl s) (total_fee s)
    (total_funding_fee s) (trade_count s) (win_count s) (signal s)
    (current_position_type s) (last_entry_time s) (next_funding_time s).
Definition set_total_pnl (v : Q) (s : TradingStratsFirst) : TradingStratsFirst :=
  mkStrategy (initial_capital s) (capital s) (max_positions s) (fee_rate s)
    (funding_fee_enabled s) (positions s) (closed_positions s)
    (next_position_id s) (fee_provider s) v (total_fee s)
    (total_funding_fee s) (trade_count s) (win_count s) (signal s)
    (current_position_type s) (last_entry_time s) (next_funding_time s).
Definition set_total_fee (v : Q) (s : TradingStratsFirst) : TradingStratsFirst :=
  mkStrategy (initial_capital s) (capital s) (max_positions s) (fee_rate s)
    (funding_fee_enabled s) (positions s) (closed_positions s)
    (next_position_id s) (fee_provider s) (total_pnl s) v
    (total_funding_fee s) (trade_count s) (win_count s) (signal s)
    (current_position_type s) (last_entry_time s) (next_funding_time s).
Definition set_total_funding_fee (v : Q) (s : TradingStratsFirst) : TradingStratsFirst :=
  mkStrategy (initial_capital s) (capital s) (max_positions s) (fee_rate s)
    (funding_fee_enabled s) (positions s) (closed_positions s)
    (next_position_id s) (fee_provider s) (total_pnl s) (total_fee s)
    v (trade_count s) (win_count s) (signal s)
    (current_position_type s) (last_entry_time s) (next_funding_time s).
Definition set_trade_count (v : Z) (s : TradingStratsFirst) : TradingStratsFirst :=
  mkStrategy (initial_capital s) (capital s) (max_positions s) (fee_rate s)
    (funding_fee_enabled s) (positions s) (closed_positions s)
    (next_position_id s) (fee_provider s) (total_pnl s) (total_fee s)
    (total_funding_fee s) v (win_count s) (signal s)
    (current_position_type s) (last_entry_time s) (next_funding_time s).
Definition set_win_count (v : Z) (s : TradingStratsFirst) : TradingStratsFirst :=
  mkStrategy (initial_capital s) (capital s) (max_positions s) (fee_rate s)
    (funding_fee_enabled s) (positions s) (closed_positions s)
    (next_position_id s) (fee_provider s) (total_pnl s) (total_fee s)
    (total_funding_fee s) (trade_count s) v (signal s)
    (current_position_type s) (last_entry_time s) (next_funding_time s).
Definition set_current_position_type (v : option PositionType) (s : TradingStratsFirst) : TradingStratsFirst :=
  mkStrategy (initial_capital s) (capital s) (max_positions s) (fee_rate s)
    (funding_fee_enabled s) (positions s) (closed_positions s)
    (next_position_id s) (fee_provider s) (total_pnl s) (total_fee s)
    (total_funding_fee s) (trade_count s) (win_count s) (signal s)
    v (last_entry_time s) (next_funding_time s).
Definition set_last_entry_time (v : Q) (s : TradingStratsFirst) : TradingStratsFirst :=
  mkStrategy (initial_capital s) (capital s) (max_positions s) (fee_rate s)
    (funding_fee_enabled s) (positions s) (closed_positions s)
    (next_position_id s) (fee_provider s) (total_pnl s) (total_fee s)
    (total_funding_fee s) (trade_count s) (win_count s) (signal s)
    (current_position_type s) v (next_funding_time s).
Definition set_next_funding_time (v : option Z) (s : TradingStratsFirst) : TradingStratsFirst :=
  mkStrategy (initial_capital s) (capital s) (max_positions s) (fee_rate s)
    (funding_fee_enabled s) (positions s) (closed_positions s)
    (next_position_id s) (fee_provider s) (total_pnl s) (total_fee s)
    (total_funding_fee s) (trade_count s) (win_count s) (signal s)
    (current_position_type s) (last_entry_time s) v.

(** [len(self.positions)] *)
Definition len (l : list Position) : Z := Z.of_nat (length l).

(** Python's [max(a, b)]: the first argument unless the second is larger. *)
Definition py_max (a b : Q) : Q := if Qgtb b a then b else a.

Definition get_position_size (s : TradingStratsFirst) : result Q :=
  checked_div (initial_capital s) (inject_Z (max_positions s)).

Definition can_open_position (s : TradingStratsFirst) (pt : PositionType) : bool :=
  if (len (positions s) >=? max_positions s)%Z then false
  else
    match current_position_type s with
    | Some cur => if negb (PositionType_eqb cur pt) then false else true
    | None => true
    end.

Definition calculate_trade_amount (s : TradingStratsFirst) (swap_price spot_price : Q)
  : result Q :=
  position_size <- get_position_size s ;;
  let max_price := py_max swap_price spot_price in
  ledger_div position_size max_price.

(** Truthiness of an optional integer: present and non-zero. *)
Definition truthy (x : option Z) : bool :=
  match x with
  | Some v => negb (v =? 0)%Z
  | None => false
  end.

(** The funding fee of one position (lines 154-160). *)
Definition funding_fee_of (p : Position) (prev_rate : Q) : Q :=
  match position_type p with
  | long => - swap_price p * amount p * prev_rate
  | short => swap_price p * amount p * prev_rate
  end.

(** The loop of [process_funding_fees] (lines 151-167): the positions are
    updated in place, capital and the funding total are accumulated. *)
Fixpoint accrue (timestamp prev_rate : Q) (ps : list Position)
    (cap total : Q) : list Position * Q * Q :=
  match ps with
  | [] => ([], cap, total)
  | p :: ps' =>
      if Qltb (entry_time p) timestamp then
        let funding_fee := funding_fee_of p prev_rate in
        let '(ps'', cap', total') :=
          accrue timestamp prev_rate ps' (cap + funding_fee) (total + funding_fee) in
        (add_funding_payment p timestamp funding_fee :: ps'', cap', total')
      else
        let '(ps'', cap', total') := accrue timestamp prev_rate ps' cap total in
        (p :: ps'', cap', total')
  end.

Definition process_funding_fees (s : TradingStratsFirst) (timestamp : Q)
  : TradingStratsFirst :=
  if negb (funding_fee_enabled s) || (len (positions s) =? 0)%Z then s
  else
    match get_prev_funding_rate (fee_provider s) timestamp with
    | Found prev_ts prev_rate =>
        if truthy (Some prev_ts) && Qeq_bool (inject_Z prev_ts) timestamp then
          let '(ps, cap, total) :=
            accrue timestamp prev_rate (positions s) (capital s) (total_funding_fee s) in
          set_positions ps (set_total_funding_fee total (set_capital cap s))
        else s
    | NoneNone => s
    end.

(** [self.positions.remove(position)]: positions are objects, told apart
    by identity; every position has its own [position_id]. *)
Fixpoint remove_position (p : Position) (l : list Position) : list Position :=
  match l with
  | [] => []
  | q :: l' =>
      if (position_id q =? position_id p)%Z then l'
      else q :: remove_position p l'
  end.

(** Closing one position at the given prices: lines 275-295 of
    [process_data], which are lines 168-188 of [run_single_day] too. *)
Definition close_position (s : TradingStratsFirst) (p : Position)
    (swap_price_now spot_price_now : Q) : TradingStratsFirst * Trade :=
  let pnl := calculate_pnl p swap_price_now spot_price_now in
  let fee := (swap_price p + spot_price p + swap_price_now + spot_price_now)
             * amount p * fee_rate s in
  let s := set_capital (capital s + (pnl - fee)) s in
  let s := set_total_pnl (total_pnl s + pnl) s in
  let s := set_total_fee (total_fee s + fee) s in
  let s := set_trade_count (trade_count s + 1)%Z s in
  let s := if Qgtb pnl 0 then set_win_count (win_count s + 1)%Z s else s in
  let trade := (close, position_type p, amount p, swap_price_now, spot_price_now) in
  let s := set_closed_positions (closed_positions s ++ [p]) s in
  let s := set_positions (remove_position p (positions s)) s in
  (s, trade).

(** The exit loop of [process_data] (lines 268-299) over the snapshot
    [list(self.positions)]. *)
Fixpoint exit_loop (snapshot : list Position) (data : list Bar)
    (swap_price_now spot_price_now : Q)
    (s : TradingStratsFirst) (trades : list Trade)
  : result (TradingStratsFirst * list Trade) :=
  match snapshot with
  | [] => Ok (s, trades)
  | p :: snapshot' =>
      exit_signal <- Signals.get_exit_signal (signal s) data (position_type p) ;;
      if (exit_signal >? 0)%Z then
        let '(s1, trade) := close_position s p swap_price_now spot_price_now in
        let s2 := if (len (positions s1) =? 0)%Z
                  then set_current_position_type None s1 else s1 in
        exit_loop snapshot' data swap_price_now spot_price_now s2 (trades ++ [trade])
      else
        exit_loop snapshot' data swap_price_now spot_price_now s trades
  end.

(** Opening a position (lines 321-351). *)
Definition open_position (s : TradingStratsFirst) (pt : PositionType)
    (timestamp swap_price_now spot_price_now : Q)
  : result (TradingStratsFirst * Trade) :=
  amt <- calculate_trade_amount s swap_price_now spot_price_now ;;
  let p := mkPosition pt timestamp swap_price_now spot_price_now amt
                      (next_position_id s) [] in
  let s := set_next_position_id (next_position_id s + 1)%Z s in
  let fee := (swap_price_now + spot_price_now) * amt * fee_rate s in
  let s := set_capital (capital s - fee) s in
  let s := set_total_fee (total_fee s + fee) s in
  let s := set_positions (positions s ++ [p]) s in
  let s := set_current_position_type (Some pt) s in
  let s := set_last_entry_time timestamp s in
  Ok (s, (open, pt, amt, swap_price_now, spot_price_now)).

(** The entry part of [process_data] (lines 302-351). *)
Definition entry_step (data : list Bar) (timestamp swap_price_now spot_price_now : Q)
    (s : TradingStratsFirst) (trades : list Trade)
  : result (TradingStratsFirst * list Trade) :=
  if (len (positions s) <? max_positions s)%Z then
    entry_signal <- Signals.get_entry_signal (signal s) data ;;
    let entry_signal :=
      if truthy (next_funding_time s)
         && match next_funding_time s with
            | Some nft => Qgtb timestamp (inject_Z nft - 800)
            | None => false
            end
      then 0%Z else entry_signal in
    let min_entry_interval := 3600 in
    let entry_signal :=
      if Qltb (timestamp - last_entry_time s) min_entry_interval
      then 0%Z else entry_signal in
    if negb (entry_signal =? 0)%Z then
      let pt := if (entry_signal >? 0)%Z then long else short in
      if can_open_position s pt then
        '(s', trade) <- open_position s pt timestamp swap_price_now spot_price_now ;;
        Ok (s', trades ++ [trade])
      else Ok (s, trades)
    else Ok (s, trades)
  else Ok (s, trades).

(** The refresh of the next settlement time (lines 260-263). *)
Definition refresh_next_funding_time (s : TradingStratsFirst) (timestamp : Q)
  : TradingStratsFirst :=
  let stale :=
    match next_funding_time s with
    | None => true
    | Some nft => Qgeb timestamp (inject_Z nft)
    end in
  if stale then
    let next_funding := get_next_funding_rate (fee_provider s) timestamp in
    if tuple_truthy next_funding && truthy (tuple_ts next_funding)
    then set_next_funding_time (tuple_ts next_funding) s
    else s
  else s.

Definition process_data (s : TradingStratsFirst) (data : list Bar)
  : result (TradingStratsFirst * list Trade) :=
  match data with
  | [] => Ok (s, [])
  | _ =>
      latest_data <- iloc_last data ;;
      let timestamp := exchange_timestamp latest_data in
      let swap_price_now := bar_swap_price latest_data in
      let spot_price_now := bar_spot_price latest_data in
      let s := process_funding_fees s timestamp in
      let s := refresh_next_funding_time s timestamp in
      '(s, trades) <- exit_loop (positions s) data swap_price_now spot_price_now s [] ;;
      entry_step data timestamp swap_price_now spot_price_now s trades
  end.

(** *** Predicates of the statements below *)

(** What a settlement at [timestamp] with rate [prev_rate] does to one
    position: a position opened strictly before it gets one payment
    appended to its log, any other position is left as it is. *)
Definition settle (timestamp prev_rate : Q) (p : Position) : Position :=
  if Qltb (entry_time p) timestamp
  then add_funding_payment p timestamp (funding_fee_of p prev_rate)
  else p.

(** The sum of the payments of the positions opened before [timestamp]. *)
Fixpoint funding_total (timestamp prev_rate : Q) (ps : list Position) : Q :=
  match ps with
  | [] => 0
  | p :: ps' =>
      (if Qltb (entry_time p) timestamp then funding_fee_of p prev_rate else 0)
      + funding_total timestamp prev_rate ps'
  end.

(** The fee charged when a position is opened and when it is closed. *)
Definition entry_fee (p : Position) (rate : Q) : Q :=
  (swap_price p + spot_price p) * amount p * rate.
Definition exit_fee (p : Position) (exit_swap_price exit_spot_price rate : Q) : Q :=
  (swap_price p + spot_price p + exit_swap_price + exit_spot_price)
  * amount p * rate.

(** One closing round of the exit loop: the position is closed and the
    direction lock is reset when no position is left. *)
Definition close_step (s : TradingStratsFirst) (p : Position)
    (swap_price_now spot_price_now : Q) : TradingStratsFirst :=
  let s1 := fst (close_position s p swap_price_now spot_price_now) in
  if (len (positions s1) =? 0)%Z then set_current_position_type None s1 else s1.

Definition action_of (t : Trade) : Action :=
  match t with (a, _, _, _, _) => a end.

(** The counters of a ledger are consistent. *)
Definition counts_ok (s : TradingStratsFirst) : Prop :=
  (0 <= win_count s <= trade_count s)%Z.

(** The direction lock is held only while a position is open. *)
Definition lock_ok (s : TradingStratsFirst) : Prop :=
  positions s = [] -> current_position_type s = None.

(** No more positions are open than the limit allows. *)
Definition within_limit (s : TradingStratsFirst) : Prop :=
  (len (positions s) <= Z.max 0 (max_positions s))%Z.

(** Every open position is on the side of the direction lock. *)
Definition one_direction (s : TradingStratsFirst) : Prop :=
  forall p, In p (positions s) -> current_position_type s = Some (position_type p).

(** The ids of the open positions are pairwise distinct and were handed
    out before. *)
Definition ids_fresh (s : TradingStratsFirst) : Prop :=
  NoDup (map position_id (positions s))
  /\ forall p, In p (positions s) -> (position_id p < next_position_id s)%Z.

(** Capital has moved by the realized PnL, the fees and the funding
    payments, and by nothing else. *)
Definition books_balance (s : TradingStratsFirst) : Prop :=
  capital s - initial_capital s == total_pnl s - total_fee s + total_funding_fee s.

(** A position of positive size entered off parity on its own side: a long
    one with the swap price below the spot price, a short one above. *)
Definition off_parity (p : Position) : Prop :=
  0 < amount p
  /\ match position_type p with
     | long => swap_price p < spot_price p
     | short => spot_price p < swap_price p
     end.

End Strategy.

(** * backtester.py *)

Module Backtester.

Import Strategy.

(** One entry of each list of [self.results]. *)
Record DayResult : Type := mkDayResult {
  res_date : Z;
  res_pnl : Q;
  res_cumulative_pnl : Q;
  res_capital : Q;
  res_trades : list (Q * Trade);
  res_win_rate : Q
}.

Record Backtester : Type := mkBacktester {
  strategy : TradingStratsFirst;
  window_size : nat;
  results : list DayResult
}.

(** [_preprocess_data]: the timestamp column and the two mid prices. *)
Definition _preprocess_data (df_raw : list (MarketData.Tick * MarketData.Tick))
  : list Bar :=
  map (fun row =>
         let sw := fst row in
         let sp := snd row in
         mkBar (MarketData.timestamp sw)
               ((MarketData.bid1 sw + MarketData.ask1 sw) / 2)
               ((MarketData.bid1 sp + MarketData.ask1 sp) / 2))
      df_raw.

(** The bar loop of [run_single_day] (lines 138-147) over the indices
    [range(self.window_size, len(df))]. *)
Fixpoint bar_loop (indices : list nat) (ws : nat) (df : list Bar)
    (s : TradingStratsFirst) (all_trades : list (Q * Trade))
  : result (TradingStratsFirst * list (Q * Trade)) :=
  match indices with
  | [] => Ok (s, all_trades)
  | i :: indices' =>
      let window := firstn (S ws) (skipn (i - ws) df) in
      '(s', trades) <- process_data s window ;;
      row <- match nth_error df i with
             | Some b => Ok b
             | None => Raise IndexError
             end ;;
      let stamped := map (fun t => (exchange_timestamp row, t)) trades in
      bar_loop indices' ws df s' (all_trades ++ stamped)
  end.

(** The forced liquidation loop (lines 166-188) over the snapshot
    [list(self.strategy.positions)]. *)
Fixpoint liquidate (snapshot : list Position)
    (last_timestamp last_swap_price last_spot_price : Q)
    (s : TradingStratsFirst) (all_trades : list (Q * Trade))
  : TradingStratsFirst * list (Q * Trade) :=
  match snapshot with
  | [] => (s, all_trades)
  | p :: snapshot' =>
      let '(s', trade) := close_position s p last_swap_price last_spot_price in
      liquidate snapshot' last_timestamp last_swap_price last_spot_price
                s' (all_trades ++ [(last_timestamp, trade)])
  end.

(** Lines 152-191: nothing happens when no position is open. *)
Definition force_close_all (df : list Bar) (s : TradingStratsFirst)
    (all_trades : list (Q * Trade))
  : result (TradingStratsFirst * list (Q * Trade)) :=
  match positions s with
  | [] => Ok (s, all_trades)
  | _ =>
      last_data <- iloc_last df ;;
      Ok (liquidate (positions s) (exchange_timestamp last_data)
            (bar_swap_price last_data) (bar_spot_price last_data) s all_trades)
  end.

(** [self.strategy.win_count / max(1, self.strategy.trade_count)] *)
Definition win_rate_of (s : TradingStratsFirst) : result Q :=
  checked_div (inject_Z (win_count s)) (inject_Z (Z.max 1 (trade_count s))).

(** [run_single_day], from the preprocessed frame on: the new state of the
    backtester and the returned day PnL. *)
Definition run_single_day (bt : Backtester) (date : Z) (df : list Bar)
  : result (Backtester * Q) :=
  match df with
  | [] => Ok (bt, 0)
  | _ =>
      let s := strategy bt in
      let ws := window_size bt in
      let start_capital := capital s in
      '(s, all_trades) <- bar_loop (seq ws (length df - ws)) ws df s [] ;;
      '(s, all_trades) <- force_close_all df s all_trades ;;
      let day_pnl := capital s - start_capital in
      win_rate <- win_rate_of s ;;
      let r := mkDayResult date day_pnl (total_pnl s) (capital s) all_trades win_rate in
      Ok (mkBacktester s ws (results bt ++ [r]), day_pnl)
  end.

(** The aggregate record [run] returns. *)
Record RunResult : Type := mkRunResult {
  run_total_pnl : Q;
  run_total_fee : Q;
  run_total_funding_fee : Q;
  run_net_pnl : Q;
  run_annual_return : Float64;
  run_trade_count : Z;
  run_win_rate : Q;
  run_initial_capital : Q;
  run_final_capital : Q;
  run_daily_results : list DayResult
}.

(** The day-by-day loop of [run] (lines 251-252). *)
Fixpoint run_days (bt : Backtester) (days : list (Z * list Bar)) : result Backtester :=
  match days with
  | [] => Ok bt
  | (date, df) :: days' =>
      '(bt', _) <- run_single_day bt date df ;;
      run_days bt' days'
  end.

(** The parallel branch of [run] (lines 241-248): every date is submitted
    to a worker process, which runs [run_single_day] on its own copy of the
    backtester as it is when the dates are submitted.  The parent waits for
    the futures in the order they complete and drops their values, so its
    own strategy and results stay as they are; an exception of a worker is
    raised again by [future.result()].  [completion] lists the dates in the
    order in which their futures complete. *)
Fixpoint await_days (bt : Backtester) (completion : list (Z * list Bar))
  : result unit :=
  match completion with
  | [] => Ok tt
  | (date, df) :: completion' =>
      _ <- run_single_day bt date df ;;
      await_days bt completion'
  end.

(** [total_pnl / initial_capital] of [run] (line 261).  [total_pnl] is the
    Python float 0.0 until the first close adds a numpy float to it, and
    the capital is the Python number of the constructor until the first
    entry fee is taken from it.  Two Python numbers raise ZeroDivisionError
    on a zero divisor; in every other case numpy divides. *)
Definition return_on_capital (s0 s : TradingStratsFirst) : result Float64 :=
  let python_numbers :=
    (trade_count s =? 0)%Z && (next_position_id s0 =? 1)%Z in
  if python_numbers then
    q <- checked_div (total_pnl s) (capital s0) ;;
    Ok (Finite q)
  else Ok (np_div (total_pnl s) (capital s0)).

(** [run(debug_mode, parallel)], one frame per date.  The first statement
    reads [self.dates[0]].  The days run in worker processes when
    [parallel and not debug_mode and len(self.dates) > 1], else one after
    the other in the parent. *)
Definition run (bt : Backtester) (days : list (Z * list Bar))
    (debug_mode parallel : bool) (completion : list (Z * list Bar))
  : result (Backtester * RunResult) :=
  _ <- match days with
       | [] => Raise IndexError
       | d :: _ => Ok d
       end ;;
  let bt := mkBacktester (strategy bt) (window_size bt) [] in
  let s0 := strategy bt in
  let initial_capital := capital s0 in
  bt <- (if parallel && negb debug_mode && (1 <? length days)%nat
         then _ <- await_days bt completion ;; Ok bt
         else run_days bt days) ;;
  let s := strategy bt in
  let trading_days := Z.of_nat (length days) in
  r1 <- return_on_capital s0 s ;;
  r2 <- checked_div 252 (inject_Z trading_days) ;;
  let annual_return := f64_scale (f64_scale r1 r2) 100 in
  win_rate <- win_rate_of s ;;
  Ok (bt, mkRunResult (total_pnl s) (total_fee s) (total_funding_fee s)
            (total_pnl s - total_fee s - total_funding_fee s)
            annual_return (trade_count s) win_rate initial_capital
            (capital s) (results bt)).

(** The states a strategy object goes through: a fresh object, then calls
    of [process_data] and end-of-day liquidations by the backtester. *)
Inductive reachable : TradingStratsFirst -> Prop :=
| reach_init : forall cap maxp fr ffe prov,
    reachable (Strategy.init cap maxp fr ffe prov)
| reach_process_data : forall s data s' trades,
    reachable s ->
    process_data s data = Ok (s', trades) ->
    reachable s'
| reach_force_close : forall s df tr s' tr',
    reachable s ->
    force_close_all df s tr = Ok (s', tr') ->
    reachable s'.

(** The sum of the day PnLs of a list of records. *)
Fixpoint sum_pnl (rs : list DayResult) : Q :=
  match rs with
  | [] => 0
  | r :: rs' => res_pnl r + sum_pnl rs'
  end.

(** The trade a forced liquidation records for a position. *)
Definition forced_trade (last_data : Bar) (p : Position) : Q * Trade :=
  (exchange_timestamp last_data,
   (close, position_type p, amount p,
    bar_swap_price last_data, bar_spot_price last_data)).

End Backtester.

(** * Concrete inputs *)

Module Examples.

Import MarketData.

Definition tick (t : Z) : Tick := mkTick (inject_Z t) 100 101.

(** A provider in the middle of a day: swap tick 5 is buffered, swap ticks
    8 and 12 and spot ticks 3, 9 and 13 are still to be read. *)
Definition sync_provider : Provider :=
  mkProvider Depth 0 100
    (mkSide [DepthRec (tick 8)] [[DepthRec (tick 12)]])
    (mkSide [DepthRec (tick 3); DepthRec (tick 9); DepthRec (tick 13)] [])
    (Some (tick 5)) None.

Definition sync_provider_after : Provider :=
  mkProvider Depth 0 100
    (mkSide [] [])
    (mkSide [DepthRec (tick 13)] [])
    (Some (tick 12)) None.

(** A fresh provider over one file per side: swap ticks at 0, 10 and 20
    seconds, spot ticks at 9, 19 and 20 seconds. *)
Definition resample_provider : option Provider :=
  init Depth 0 1000
    [[DepthRec (tick 0); DepthRec (tick 10); DepthRec (tick 20)]]
    [[DepthRec (tick 9); DepthRec (tick 19); DepthRec (tick 20)]].

(** The same provider as [__init__] leaves it: swap tick 0 is buffered. *)
Definition resample_state : Provider :=
  mkProvider Depth 0 1000
    (mkSide [DepthRec (tick 10); DepthRec (tick 20)] [])
    (mkSide [DepthRec (tick 9); DepthRec (tick 19); DepthRec (tick 20)] [])
    (Some (tick 0)) None.

Definition resample_bars : list (Tick * Tick) :=
  [(tick 10, tick 19); (tick 20, tick 20)].

(** Funding rates with an outage: nothing cached for days 20094 and 20095
    (2025-01-06 and 2025-01-07 in Shanghai), one event on day 20096. *)
Definition outage_table : FeeRate.Table :=
  fun date => if (date =? 20096)%Z then [(1736294400%Z, 0.0001)] else [].

Definition outage_provider : FeeRate.FeeRateProvider :=
  FeeRate.mkFeeRateProvider outage_table.

(** A bar eight minutes before a settlement (timestamp mod 28800 = 28400),
    and a provider with nothing cached. *)
Definition empty_provider : FeeRate.FeeRateProvider :=
  FeeRate.mkFeeRateProvider (fun _ => []).

Definition near_settlement_bar : Bar := mkBar 1736150000 30100 30000.

(** Bars with a zero price, away from a settlement. *)
Definition zero_swap_bar : Bar := mkBar 1736130000 0 30000.
Definition zero_spot_bar : Bar := mkBar 1736130000 30000 0.

(** A ledger at the epoch itself: one long position opened an hour before,
    and a cache whose previous date holds an event with timestamp 0. *)
Definition epoch_provider : FeeRate.FeeRateProvider :=
  FeeRate.mkFeeRateProvider
    (fun date => if (date =? -1)%Z then [(0%Z, 0.0001)] else []).

Definition epoch_position : Strategy.Position :=
  Strategy.mkPosition long (-3600) 30000 30000 1 1 [].

Definition epoch_ledger : Strategy.TradingStratsFirst :=
  Strategy.set_positions [epoch_position]
    (Strategy.init 100000 2 0.00015 true epoch_provider).

(** A ledger at midnight in Shanghai, 2025-01-06 (timestamp 1736092800):
    the settlement of that instant is cached under the previous date.  One
    short position was opened an hour before, another one is opened at the
    instant itself. *)
Definition midnight_provider : FeeRate.FeeRateProvider :=
  FeeRate.mkFeeRateProvider
    (fun date =>
       if (date =? 20093)%Z
       then [(1736035200%Z, 0.0001); (1736064000%Z, 0.0001); (1736092800%Z, 0.0002)]
       else []).

Definition early_position : Strategy.Position :=
  Strategy.mkPosition short 1736089200 30000 29990 1 1 [].
Definition late_position : Strategy.Position :=
  Strategy.mkPosition short 1736092800 30000 29990 1 2 [].

Definition midnight_ledger : Strategy.TradingStratsFirst :=
  Strategy.set_positions [early_position; late_position]
    (Strategy.init 100000 2 0.00015 true midnight_provider).

(** A fresh ledger of 10000 USDT for two positions, nothing cached, and
    two bars 4000 s apart whose ratio 30100 / 30000 is above the short
    entry threshold. *)
Definition ledger0 : Strategy.TradingStratsFirst :=
  Strategy.init 10000 2 0.00015 true empty_provider.

Definition warmup_bar : Bar := mkBar 1736129000 30000 30000.
Definition first_bar : Bar := mkBar 1736130000 30100 30000.
Definition second_bar : Bar := mkBar 1736134000 30100 30000.

Definition state_of (r : result (Strategy.TradingStratsFirst * list Strategy.Trade))
  : Strategy.TradingStratsFirst :=
  match r with
  | Ok (s, _) => s
  | Raise _ => ledger0
  end.

(** The ledger after the first bar: one short position, the entry fee paid. *)
Definition ledger1 : Strategy.TradingStratsFirst :=
  state_of (Strategy.process_data ledger0 [first_bar]).

(** A day of two bars with a window of one: the second bar opens a short
    position, which is still open when the day ends. *)
Definition backtester0 : Backtester.Backtester :=
  Backtester.mkBacktester ledger0 1 [].

Definition day1 : list Bar := [warmup_bar; first_bar].

(** A bar of the next day whose ratio 29900 / 30000 is below the long
    entry threshold. *)
Definition long_bar : Bar := mkBar 1736216400 29900 30000.

(** The ledger after the bar loop of [day1], and the backtester after the
    whole day. *)
Definition ledger_before_close : Strategy.TradingStratsFirst :=
  state_of (Strategy.process_data ledger0 day1).

Definition backtester_after_day1 : Backtester.Backtester :=
  match Backtester.run_single_day backtester0 20094 day1 with
  | Ok (bt, _) => bt
  | Raise _ => backtester0
  end.

Definition day1_pnl : Q :=
  match Backtester.run_single_day backtester0 20094 day1 with
  | Ok (_, pnl) => pnl
  | Raise _ => 0
  end.

(** A provider whose next spot ticks are past the end instant 100. *)
Definition late_provider : Provider :=
  mkProvider Depth 0 100
    (mkSide [] [])
    (mkSide [DepthRec (tick 150); DepthRec (tick 160)] [])
    (Some (tick 12)) None.

Definition late_provider_after : Provider :=
  mkProvider Depth 0 100
    (mkSide [] [])
    (mkSide [DepthRec (tick 160)] [])
    (Some (tick 12)) None.

(** The three settlements of 2025-01-06 (Shanghai date 20094) cached under
    their own date, and a ledger with a short position opened before the
    second of them, at 16:00 (timestamp 1736150400). *)
Definition afternoon_provider : FeeRate.FeeRateProvider :=
  FeeRate.mkFeeRateProvider
    (fun date =>
       if (date =? 20094)%Z
       then [(1736121600%Z, 0.0001); (1736150400%Z, 0.0002); (1736179200%Z, 0.0001)]
       else []).

Definition afternoon_ledger : Strategy.TradingStratsFirst :=
  Strategy.set_positions
    [Strategy.mkPosition short 1736140000 30000 29990 1 1 []]
    (Strategy.init 100000 2 0.00015 true afternoon_provider).

(** An exchange that answers every request with the same two events, and
    a world with no cache file, where writing works. *)
Definition two_event_api : FeeCache.Api :=
  fun _ _ => [(1736121600000%Z, 0.0001); (1736150400000%Z, 0.0002)].

Definition cold_world : FeeCache.World :=
  FeeCache.mkWorld (fun _ => FeeCache.Missing) (fun _ => true)
                   (fun _ => FeeCache.Unloadable) [].

(** A fresh ledger over [afternoon_provider]: at [near_settlement_bar]
    the next settlement is the one of 16:00, 400 s ahead. *)
Definition settlement_ledger : Strategy.TradingStratsFirst :=
  Strategy.init 10000 2 0.00015 true afternoon_provider.

(** A Fast provider whose swap ticks 5 (buffered), 8 and 12 are in time
    order. *)
Definition fast_provider : Provider :=
  mkProvider Fast 0 100
    (mkSide [FastRec (tick 8)] [[FastRec (tick 12)]])
    (mkSide [FastRec (tick 3); FastRec (tick 9); FastRec (tick 13)] [])
    (Some (tick 5)) None.

(** A bar 4000 s after [first_bar] whose ratio 29990 / 30000 is below the
    short exit threshold. *)
Definition reversal_bar : Bar := mkBar 1736134000 29990 30000.

(** The run over the single day [day1]: the backtester it leaves and the
    aggregate record it returns. *)
Definition run1_backtester : Backtester.Backtester :=
  match Backtester.run backtester0 [(20094%Z, day1)] false true [] with
  | Ok (bt, _) => bt
  | Raise _ => backtester0
  end.

Definition run1_record : Backtester.RunResult :=
  match Backtester.run backtester0 [(20094%Z, day1)] false true [] with
  | Ok (_, rr) => rr
  | Raise _ => Backtester.mkRunResult 0 0 0 0 NaN 0 0 0 0 []
  end.

(** A second day, whose last bar is [long_bar], and the run over both
    days: one after the other, and in worker processes whose futures
    complete in the reverse order. *)
Definition day2 : list Bar := [mkBar 1736215400 30000 30000; long_bar].

Definition two_days : list (Z * list Bar) := [(20094%Z, day1); (20095%Z, day2)].

Definition sequential_run : result (Backtester.Backtester * Backtester.RunResult) :=
  Backtester.run backtester0 two_days false false [].

Definition parallel_run : result (Backtester.Backtester * Backtester.RunResult) :=
  Backtester.run backtester0 two_days false true (rev two_days).

Definition backtester_of
    (r : result (Backtester.Backtester * Backtester.RunResult))
  : Backtester.Backtester :=
  match r with
  | Ok (bt, _) => bt
  | Raise _ => backtester0
  end.

Definition record_of
    (r : result (Backtester.Backtester * Backtester.RunResult))
  : Backtester.RunResult :=
  match r with
  | Ok (_, rr) => rr
  | Raise _ => Backtester.mkRunResult 0 0 0 0 NaN 0 0 0 0 []
  end.

End Examples.

(** * Properties *)

(** ** Float comparisons *)

Lemma Qgtb_true a b : Qgtb a b = true <-> b < a.
Proof.
  unfold Qgtb. rewrite negb_true_iff.
  destruct (Qle_bool a b) eqn:E.
  - apply Qle_bool_iff in E. split; [discriminate | intro H; exfalso; lra].
  - split; [intros _ | reflexivity].
    destruct (Qlt_le_dec b a) as [H | H]; [exact H |].
    apply Qle_bool_iff in H. congruence.
Qed.

Lemma Qgtb_false a b : Qgtb a b = false <-> a <= b.
Proof.
  unfold Qgtb. rewrite negb_false_iff. apply Qle_bool_iff.
Qed.

Lemma Qltb_true a b : Qltb a b = true <-> a < b.
Proof. unfold Qltb. apply (Qgtb_true b a). Qed.

Lemma Qltb_false a b : Qltb a b = false <-> b <= a.
Proof. unfold Qltb. apply (Qgtb_false b a). Qed.

Lemma Qleb_true a b : Qleb a b = true <-> a <= b.
Proof. unfold Qleb. apply Qle_bool_iff. Qed.

Lemma Qleb_false a b : Qleb a b = false <-> b < a.
Proof.
  unfold Qleb. rewrite <- negb_true_iff. apply (Qgtb_true a b).
Qed.

Lemma Qgeb_true a b : Qgeb a b = true <-> b <= a.
Proof. unfold Qgeb. apply Qle_bool_iff. Qed.

Lemma Qgeb_false a b : Qgeb a b = false <-> a < b.
Proof. unfold Qgeb. apply (Qleb_false b a). Qed.

Lemma checked_div_ok a b : ~ b == 0 -> checked_div a b = Ok (a / b).
Proof.
  intro H. unfold checked_div.
  destruct (Qeq_bool b 0) eqn:E; [| reflexivity].
  apply Qeq_bool_iff in E. contradiction.
Qed.

Lemma checked_div_zero a b : b == 0 -> checked_div a b = Raise ZeroDivisionError.
Proof.
  intro H. unfold checked_div.
  apply Qeq_bool_iff in H. rewrite H. reflexivity.
Qed.

Lemma checked_div_inv a b q : checked_div a b = Ok q -> ~ b == 0 /\ q = a / b.
Proof.
  unfold checked_div. destruct (Qeq_bool b 0) eqn:E; [discriminate |].
  intro H. inversion H. split; [| reflexivity].
  intro Hb. apply Qeq_bool_iff in Hb. congruence.
Qed.

Lemma ledger_div_ok a b : ~ b == 0 -> ledger_div a b = Ok (a / b).
Proof.
  intro H. unfold ledger_div.
  destruct (Qeq_bool b 0) eqn:E; [| reflexivity].
  apply Qeq_bool_iff in E. contradiction.
Qed.

Lemma ledger_div_inv a b q : ledger_div a b = Ok q -> ~ b == 0 /\ q = a / b.
Proof.
  unfold ledger_div. destruct (Qeq_bool b 0) eqn:E; [discriminate |].
  intro H. inversion H. split; [| reflexivity].
  intro Hb. apply Qeq_bool_iff in Hb. congruence.
Qed.

(** ** numpy quotients *)

Lemma np_div_finite a b : ~ b == 0 -> np_div a b = Finite (a / b).
Proof.
  intro H. unfold np_div.
  destruct (Qeq_bool b 0) eqn:E; [| reflexivity].
  apply Qeq_bool_iff in E. contradiction.
Qed.

Lemma np_div_zero a b :
  b == 0 ->
  np_div a b = if Qgtb a 0 then PosInf else if Qltb a 0 then NegInf else NaN.
Proof.
  intro H. unfold np_div.
  destruct (Qeq_bool b 0) eqn:E; [reflexivity |].
  apply Qeq_bool_iff in H. congruence.
Qed.

(** A quotient above [a] is not below any [b <= a], and the other way
    round; nan is neither. *)
Lemma f64_gt_not_lt x a b : b <= a -> f64_gt x a = true -> f64_lt x b = false.
Proof.
  intro Hab. destruct x as [q | | |]; cbn [f64_gt f64_lt]; try discriminate;
    try reflexivity.
  intro H. apply Qgtb_true in H. apply Qltb_false. lra.
Qed.

Lemma f64_lt_not_gt x a b : a <= b -> f64_lt x a = true -> f64_gt x b = false.
Proof.
  intro Hab. destruct x as [q | | |]; cbn [f64_gt f64_lt]; try discriminate;
    try reflexivity.
  intro H. apply Qltb_true in H. apply Qgtb_false. lra.
Qed.

(** ** The synchronizer *)

Section Synchronizer.

Import MarketData.

Lemma valid_of_app dt l1 l2 :
  valid_of dt (l1 ++ l2) = valid_of dt l1 ++ valid_of dt l2.
Proof.
  induction l1 as [| r l1 IH]; simpl; [reflexivity |].
  destruct (is_instance dt r); simpl; rewrite IH; reflexivity.
Qed.

Lemma scan_reader_none dt e cur :
  scan_reader dt e cur = None -> valid_of dt cur = [].
Proof.
  induction cur as [| r cur IH]; simpl; [reflexivity |].
  destruct (is_instance dt r); [| exact IH].
  destruct (Qgtb _ _); discriminate.
Qed.

Lemma scan_reader_some dt e cur r cur' :
  scan_reader dt e cur = Some (r, cur') ->
  (exists t, valid_of dt cur = t :: valid_of dt cur'
             /\ r = if Qgtb (timestamp t) (inject_Z e) then None else Some t)
  /\ (length cur' < length cur)%nat.
Proof.
  induction cur as [| x cur IH]; simpl; [discriminate |].
  destruct (is_instance dt x) as [t |] eqn:E.
  - intro H. split.
    + exists t. destruct (Qgtb _ _); inversion H; subst; auto.
    + destruct (Qgtb _ _); inversion H; subst; lia.
  - intro H. destruct (IH H) as [Hv Hl]. split; [exact Hv | lia].
Qed.

Lemma read_next_valid_spec dt e nexts : forall cur r s',
  read_next_valid dt e cur nexts = (r, s') ->
  read_outcome dt e (valid_of dt (cur ++ concat nexts)) r (valid_ticks dt s')
  /\ (records s' <= length cur + length (concat nexts))%nat
  /\ (r <> None -> (records s' < length cur + length (concat nexts))%nat).
Proof.
  induction nexts as [| nxt nexts IH]; intros cur r s'; simpl.
  - destruct (scan_reader dt e cur) as [[r0 cur'] |] eqn:E.
    + intro H. inversion H; subst. clear H.
      destruct (scan_reader_some _ _ _ _ _ E) as [[t [Hv Hr]] Hl].
      unfold valid_ticks, records. simpl. rewrite !app_nil_r.
      split; [right; exists t; auto |]. split; lia.
    + intro H. inversion H; subst. clear H.
      apply scan_reader_none in E. rewrite app_nil_r.
      unfold valid_ticks, records. simpl.
      split; [left; auto |]. split; [lia | congruence].
  - destruct (scan_reader dt e cur) as [[r0 cur'] |] eqn:E.
    + intro H. inversion H; subst. clear H.
      destruct (scan_reader_some _ _ _ _ _ E) as [[t [Hv Hr]] Hl].
      unfold valid_ticks, records. simpl.
      rewrite !valid_of_app in *. rewrite Hv.
      split; [right; exists t; auto |]. split; lia.
    + intro H. apply IH in H. destruct H as [Ho [Hle Hlt]].
      apply scan_reader_none in E.
      rewrite valid_of_app, E. simpl.
      rewrite length_app in *.
      split; [exact Ho |]. split; [lia |].
      intro Hr. specialize (Hlt Hr). lia.
Qed.

Lemma same_frame_refl P : same_frame P P.
Proof. repeat split. Qed.

Lemma same_frame_trans P Q R : same_frame P Q -> same_frame Q R -> same_frame P R.
Proof.
  unfold same_frame. intros (a & b & c & d) (a' & b' & c' & d').
  repeat split; congruence.
Qed.

Lemma read_swap_spec P r P' :
  _read_next_valid_swap P = (r, P') ->
  same_frame P P' /\ spot P' = spot P /\ current_swap P' = current_swap P
  /\ read_outcome (data_type P) (end_ts P)
       (valid_ticks (data_type P) (swap P)) r (valid_ticks (data_type P) (swap P'))
  /\ (records (swap P') <= records (swap P))%nat
  /\ (r <> None -> (records (swap P') < records (swap P))%nat).
Proof.
  unfold _read_next_valid_swap.
  destruct (read_next_valid _ _ _ _) as [r0 s] eqn:E.
  intro H. inversion H; subst. clear H.
  apply read_next_valid_spec in E. destruct E as (Ho & Hle & Hlt).
  simpl. repeat split; try assumption.
Qed.

Lemma read_spot_spec P r P' :
  _read_next_valid_spot P = (r, P') ->
  same_frame P P' /\ swap P' = swap P /\ current_swap P' = current_swap P
  /\ read_outcome (data_type P) (end_ts P)
       (spot_stream P) r (spot_stream P')
  /\ (records (spot P') <= records (spot P))%nat
  /\ (r <> None -> (records (spot P') < records (spot P))%nat).
Proof.
  unfold _read_next_valid_spot.
  destruct (read_next_valid _ _ _ _) as [r0 s] eqn:E.
  intro H. inversion H; subst. clear H.
  apply read_next_valid_spec in E. destruct E as (Ho & Hle & Hlt).
  unfold spot_stream. simpl. repeat split; try assumption.
Qed.

Lemma StronglySorted_app_r {A} (R : A -> A -> Prop) l1 l2 :
  StronglySorted R (l1 ++ l2) -> StronglySorted R l2.
Proof.
  induction l1 as [| a l1 IH]; simpl; intro H; [exact H |].
  apply StronglySorted_inv in H. apply IH, H.
Qed.

Lemma sorted_tail_above (t : Q) w post :
  StronglySorted ts_le (w :: post) -> t < timestamp w ->
  forall x, In x (w :: post) -> t < timestamp x.
Proof.
  intros Hs Hw x [Hx | Hx].
  - subst. exact Hw.
  - apply StronglySorted_inv in Hs. destruct Hs as [_ Hall].
    rewrite Forall_forall in Hall. specialize (Hall x Hx).
    unfold ts_le in Hall. lra.
Qed.

(** The inner loop: either it does not run, or it stops on the last tick
    of the swap stream that is not after the spot timestamp. *)
Lemma advance_swap_spec : forall fuel ts best P r P',
  advance_swap fuel ts best P = Some (r, P') ->
  same_frame P P' /\ spot P' = spot P
  /\ (exists l, swap_stream P = l ++ swap_stream P')
  /\ ((r = best /\ P' = P
       /\ match current_swap P with
          | None => True
          | Some cs => ts < timestamp cs
          end)
      \/ (exists pre b post,
            swap_stream P = pre ++ b :: post
            /\ r = Some b
            /\ timestamp b <= ts
            /\ match post with
               | [] => True
               | w :: _ => ts < timestamp w \/ inject_Z (end_ts P) < timestamp w
               end)).
Proof.
  induction fuel as [| f IH]; intros ts best P r P'; simpl.
  - destruct (current_swap P) as [cs |] eqn:Ec.
    + destruct (Qleb (timestamp cs) ts) eqn:El; [discriminate |].
      intro H. inversion H; subst. clear H.
      apply Qleb_false in El.
      split; [apply same_frame_refl |]. split; [reflexivity |].
      split; [exists []; reflexivity |].
      left. auto.
    + intro H. inversion H; subst. clear H.
      split; [apply same_frame_refl |]. split; [reflexivity |].
      split; [exists []; reflexivity |].
      left. auto.
  - destruct (current_swap P) as [cs |] eqn:Ec.
    + destruct (Qleb (timestamp cs) ts) eqn:El.
      * apply Qleb_true in El.
        destruct (_read_next_valid_swap P) as [nxt P1] eqn:Er.
        apply read_swap_spec in Er.
        destruct Er as (Hf & Hsp & Hcur & Ho & _).
        intro H.
        assert (Hstream : swap_stream P = cs :: valid_ticks (data_type P) (swap P))
          by (unfold swap_stream; rewrite Ec; reflexivity).
        destruct nxt as [t |].
        -- (* a further swap tick was buffered *)
           destruct Ho as [(_ & Hn & _) | (t0 & Hv & Hn)]; [discriminate |].
           destruct (Qgtb (timestamp t0) (inject_Z (end_ts P))) eqn:Ee; [discriminate |].
           inversion Hn; subst t0. clear Hn.
           assert (Hs2 : swap_stream (set_current_swap (Some t) P1)
                         = valid_ticks (data_type P) (swap P)).
           { unfold swap_stream. simpl. destruct Hf as (Hd & _). rewrite Hd.
             symmetry. exact Hv. }
           apply IH in H. destruct H as (Hf2 & Hsp2 & (l & Hl) & Hcase).
           split; [eapply same_frame_trans; [exact Hf | exact Hf2] |].
           split; [simpl in Hsp2; congruence |].
           split; [exists (cs :: l); rewrite Hstream, <- Hs2, Hl; reflexivity |].
           right. destruct Hcase as [(Hr & HP & Hc) | (pre & b & post & Hpre & Hr & Hb & Hpost)].
           ++ exists [], cs, (valid_ticks (data_type P) (swap P)).
              simpl in Hc. rewrite Hstream, Hv. simpl.
              repeat split; auto.
           ++ exists (cs :: pre), b, post.
              rewrite Hstream, <- Hs2, Hpre. simpl.
              repeat split; auto.
              destruct post; [exact I |].
              destruct Hf as (_ & _ & He & _). simpl in Hpost.
              rewrite He in Hpost. exact Hpost.
        -- (* the swap side ended, or its next tick is past the end *)
           assert (Hret : advance_swap f ts (Some cs) (set_current_swap None P1)
                          = Some (Some cs, set_current_swap None P1))
             by (destruct f; reflexivity).
           rewrite Hret in H. inversion H; subst. clear H Hret.
           split; [exact Hf |]. split; [exact Hsp |].
           destruct Hf as (Hd & _).
           split.
           ++ unfold swap_stream at 2. simpl. rewrite Hd, Hstream.
              destruct Ho as [(Hv & _ & Hv') | (t0 & Hv & _)].
              ** exists [cs]. rewrite Hv, Hv'. reflexivity.
              ** exists [cs; t0]. rewrite Hv. reflexivity.
           ++ right. exists [], cs, (valid_ticks (data_type P) (swap P)).
              rewrite Hstream. simpl. repeat split; auto.
              destruct Ho as [(Hv & _ & Hv') | (t0 & Hv & Hn)].
              ** rewrite Hv. exact I.
              ** rewrite Hv.
                 destruct (Qgtb (timestamp t0) (inject_Z (end_ts P))) eqn:Ee;
                   [| discriminate].
                 apply Qgtb_true in Ee. right. exact Ee.
      * intro H. inversion H; subst. clear H.
        apply Qleb_false in El.
        split; [apply same_frame_refl |]. split; [reflexivity |].
        split; [exists []; reflexivity |].
        left. auto.
    + intro H. inversion H; subst. clear H.
      split; [apply same_frame_refl |]. split; [reflexivity |].
      split; [exists []; reflexivity |].
      left. auto.
Qed.

Lemma swap_stream_after_spot_read P P' :
  same_frame P P' -> swap P' = swap P -> current_swap P' = current_swap P ->
  swap_stream P' = swap_stream P.
Proof.
  intros (Hd & _) Hs Hc. unfold swap_stream. rewrite Hd, Hs, Hc. reflexivity.
Qed.

Lemma spot_read_some P y P' :
  read_outcome (data_type P) (end_ts P) (spot_stream P) (Some y) (spot_stream P') ->
  spot_stream P = y :: spot_stream P' /\ timestamp y <= inject_Z (end_ts P).
Proof.
  intros [(_ & H & _) | (t & Hv & Hr)]; [discriminate |].
  destruct (Qgtb (timestamp t) (inject_Z (end_ts P))) eqn:E; [discriminate |].
  inversion Hr; subst. apply Qgtb_false in E. auto.
Qed.

(** Without a buffered swap tick no pair is ever produced again. *)
Lemma read_next_loop_no_swap : forall fuel P x P',
  current_swap P = None ->
  read_next_loop fuel P = Some (Some x, P') -> False.
Proof.
  induction fuel as [| f IH]; intros P x P' Hc; cbn [read_next_loop]; [discriminate |].
  destruct (_read_next_valid_spot P) as [spt P1] eqn:Es.
  apply read_spot_spec in Es. destruct Es as (_ & _ & Hcur & _).
  destruct spt as [y |]; [| discriminate].
  rewrite Hcur, Hc. apply IH. congruence.
Qed.

Lemma sorted_head_below (cs : Tick) l y :
  StronglySorted ts_le (cs :: l) -> timestamp y < timestamp cs ->
  forall w, In w (cs :: l) -> timestamp y < timestamp w.
Proof. intros Hs Hy. exact (sorted_tail_above _ _ _ Hs Hy). Qed.

Lemma read_next_loop_spec : forall fuel P b sp P',
  read_next_loop fuel P = Some (Some (b, sp), P') ->
  hold_last_value P b sp
  /\ (StronglySorted ts_le (swap_stream P) -> StronglySorted ts_le (swap_stream P')).
Proof.
  induction fuel as [| f IH]; intros P b sp P'; cbn [read_next_loop];
    [discriminate |].
  destruct (_read_next_valid_spot P) as [spt P1] eqn:Es.
  apply read_spot_spec in Es.
  destruct Es as (Hf & Hsw & Hcur & Ho & _).
  destruct spt as [y |]; [| discriminate].
  apply spot_read_some in Ho. destruct Ho as [Hspot Hend].
  pose proof (swap_stream_after_spot_read _ _ Hf Hsw Hcur) as Hss.
  destruct (current_swap P1) as [cs |] eqn:Ec.
  - assert (Hhead : swap_stream P = cs :: valid_ticks (data_type P) (swap P))
      by (unfold swap_stream; rewrite <- Hcur; reflexivity).
    destruct (Qgtb (timestamp cs) (timestamp y)) eqn:Eg.
    + (* the spot tick is older than the buffered swap tick: skipped *)
      apply Qgtb_true in Eg. intro H. apply IH in H.
      destruct H as [(Hle & (pre & post & Hpre & Hnext & Hpost)
                          & (sk & rest & Hsk & Hold & Hskip)) Hs'].
      rewrite Hss in Hpre, Hpost, Hold, Hskip, Hs'.
      split; [| exact Hs'].
      split; [exact Hle |]. split.
      * exists pre, post. auto.
      * exists (y :: sk), rest. rewrite Hspot, Hsk.
        split; [reflexivity |]. split.
        -- intros y0 [Hy | Hy]; [| exact (Hold y0 Hy)].
           subst y0. exists cs. rewrite Hhead. auto.
        -- intros Hsorted y0 w [Hy | Hy] Hw; [| exact (Hskip Hsorted y0 w Hy Hw)].
           subst y0. rewrite Hhead in Hw, Hsorted.
           exact (sorted_head_below _ _ _ Hsorted Eg w Hw).
    + (* the pair is produced with the last swap tick not after the spot *)
      apply Qgtb_false in Eg.
      destruct (advance_swap (swap_fuel P1) (timestamp y) None P1)
        as [[[bb |] P2] |] eqn:Ea; [| | discriminate].
      * intro H. inversion H; subst bb sp P2. clear H.
        apply advance_swap_spec in Ea.
        destruct Ea as (Hf2 & Hsp2 & (l & Hl) & Hcase).
        rewrite Hss in Hl.
        split; [| intro Hsorted; rewrite Hl in Hsorted;
                  eapply StronglySorted_app_r; exact Hsorted].
        destruct Hcase as [(Hr & _) | (pre & b0 & post & Hpre & Hr & Hb & Hpost)];
          [discriminate |].
        inversion Hr; subst b0. clear Hr.
        rewrite Hss in Hpre.
        assert (Hnext : match post with
                        | [] => True
                        | w :: _ => timestamp y < timestamp w
                        end).
        { destruct post as [| w post]; [exact I |].
          destruct Hf as (_ & _ & He & _). rewrite He in Hpost.
          destruct Hpost as [Hp | Hp]; lra. }
        split; [exact Hb |]. split.
        -- exists pre, post. split; [exact Hpre |]. split; [exact Hnext |].
           intro Hsorted.
           destruct post as [| w post]; [intros w [] |].
           rewrite Hpre in Hsorted. apply StronglySorted_app_r in Hsorted.
           apply StronglySorted_inv in Hsorted. destruct Hsorted as [Hs _].
           exact (sorted_tail_above _ _ _ Hs Hnext).
        -- exists [], (spot_stream P1). split; [exact Hspot |].
           split; [intros y0 [] | intros _ y0 w []].
      * (* the inner loop ran at least once: this case does not arise *)
        intro H. exfalso.
        apply advance_swap_spec in Ea.
        destruct Ea as (_ & _ & _ & [(_ & _ & Hc) | (pre & b0 & post & _ & Hr & _)]);
          [| discriminate].
        rewrite Ec in Hc. lra.
  - intro H. exfalso. eapply read_next_loop_no_swap; [| exact H]. exact Ec.
Qed.

(** *** The loops never run out of fuel *)

Lemma advance_swap_total : forall fuel ts best P,
  (records (swap P) < fuel)%nat ->
  exists r P', advance_swap fuel ts best P = Some (r, P').
Proof.
  induction fuel as [| f IH]; intros ts best P Hlt; [lia |].
  simpl. destruct (current_swap P) as [cs |]; [| eauto].
  destruct (Qleb (timestamp cs) ts); [| eauto].
  destruct (_read_next_valid_swap P) as [nxt P1] eqn:Er.
  apply read_swap_spec in Er. destruct Er as (_ & _ & _ & _ & Hle & Hlt').
  destruct nxt as [t |].
  - apply IH. simpl. assert (Some t <> None) as Hn by discriminate.
    specialize (Hlt' Hn). lia.
  - exists (Some cs), (set_current_swap None P1). destruct f; reflexivity.
Qed.

Lemma read_next_loop_total : forall fuel P,
  (records (spot P) < fuel)%nat ->
  exists r P', read_next_loop fuel P = Some (r, P')
               /\ same_frame P P'
               /\ (records (spot P') <= records (spot P))%nat
               /\ (r <> None -> (records (spot P') < records (spot P))%nat).
Proof.
  induction fuel as [| f IH]; intros P Hlt; [lia |].
  cbn [read_next_loop]. destruct (_read_next_valid_spot P) as [spt P1] eqn:Es.
  apply read_spot_spec in Es. destruct Es as (Hf & _ & _ & _ & Hle & Hlt').
  destruct spt as [y |].
  - assert (Hdec : (records (spot P1) < records (spot P))%nat)
      by (apply Hlt'; discriminate).
    assert (Hrec : exists r P', read_next_loop f P1 = Some (r, P')
               /\ same_frame P P'
               /\ (records (spot P') <= records (spot P))%nat
               /\ (r <> None -> (records (spot P') < records (spot P))%nat)).
    { destruct (IH P1) as (r & P' & He & Hf' & Hle' & Hlt''); [lia |].
      exists r, P'. split; [exact He |].
      split; [eapply same_frame_trans; eauto |]. split; lia. }
    destruct (current_swap P1) as [cs |]; [| exact Hrec].
    destruct (Qgtb (timestamp cs) (timestamp y)); [exact Hrec |].
    destruct (advance_swap_total (swap_fuel P1) (timestamp y) None P1)
      as (r & P2 & Ha); [unfold swap_fuel; lia |].
    rewrite Ha. pose proof Ha as Ha'. apply advance_swap_spec in Ha'.
    destruct Ha' as (Hf2 & Hsp2 & _).
    destruct r as [bb |].
    + exists (Some (bb, y)), P2. split; [reflexivity |].
      split; [eapply same_frame_trans; eauto |].
      rewrite Hsp2. split; [lia | intros _; lia].
    + destruct (IH P2) as (r & P' & He & Hf' & Hle' & Hlt''); [rewrite Hsp2; lia |].
      exists r, P'. split; [exact He |].
      split; [eapply same_frame_trans; [| exact Hf'];
              eapply same_frame_trans; eauto |].
      rewrite Hsp2 in *. split; [lia | intros _; lia].
  - exists None, P1. split; [reflexivity |]. split; [exact Hf |].
    split; [lia | congruence].
Qed.

Lemma read_next_total P :
  exists r P', read_next P = Some (r, P')
               /\ same_frame P P'
               /\ (records (spot P') <= records (spot P))%nat
               /\ (r <> None -> (records (spot P') < records (spot P))%nat).
Proof.
  apply read_next_loop_total. unfold spot_fuel. lia.
Qed.

(** ** The interval resampler *)

Lemma chained_spaced interval_ms : forall bars last,
  chained interval_ms last bars -> spaced interval_ms row_timestamp bars.
Proof.
  induction bars as [| b bars IH]; intros last Hc i b1 b2 H1 H2.
  - destruct i; discriminate.
  - destruct Hc as [_ Hc]. destruct i as [| i]; simpl in H1, H2.
    + inversion H1; subst b1. destruct bars as [| b' bars]; [discriminate |].
      simpl in H2. inversion H2; subst b'. destruct Hc as [Hle _]. exact Hle.
    + exact (IH _ Hc i b1 b2 H1 H2).
Qed.

Lemma read_next_some_decreases P pr P1 :
  read_next P = Some (Some pr, P1) ->
  same_frame P P1 /\ (records (spot P1) < records (spot P))%nat.
Proof.
  intro H. destruct (read_next_total P) as (r & P' & He & Hf & _ & Hlt).
  rewrite H in He. inversion He; subst. split; [exact Hf |].
  apply Hlt. discriminate.
Qed.

Lemma interval_loop_spec : forall fuel target P bar P',
  interval_loop fuel target P = Some (Some bar, P') ->
  target <= row_timestamp bar
  /\ last_timestamp P' = Some (row_timestamp bar)
  /\ (records (spot P') < records (spot P))%nat.
Proof.
  induction fuel as [| f IH]; intros target P bar P'; cbn [interval_loop];
    [discriminate |].
  destruct (read_next P) as [[[[sw sp] |] P1] |] eqn:Er; try discriminate.
  apply read_next_some_decreases in Er. destruct Er as [_ Hlt].
  destruct (Qgeb (timestamp sw) target) eqn:Eg.
  - intro H. inversion H; subst. clear H. apply Qgeb_true in Eg.
    simpl. repeat split; auto.
  - intro H. apply IH in H. destruct H as (Ht & Hl & Hr).
    repeat split; auto. lia.
Qed.

Lemma next_by_interval_spec interval_ms P bar P' :
  next_by_interval interval_ms P = Some (Some bar, P') ->
  last_timestamp P' = Some (row_timestamp bar)
  /\ (forall l, last_timestamp P = Some l ->
                l + inject_Z interval_ms / 1000 <= row_timestamp bar)
  /\ (records (spot P') < records (spot P))%nat.
Proof.
  unfold next_by_interval. destruct (last_timestamp P) as [l |] eqn:El.
  - intro H. apply interval_loop_spec in H. destruct H as (Ht & Hl & Hr).
    repeat split; auto. intros l0 H0. inversion H0; subst. exact Ht.
  - destruct (read_next P) as [[[[sw sp] |] P1] |] eqn:Er; try discriminate.
    intro H. inversion H; subst. clear H.
    apply read_next_some_decreases in Er. destruct Er as [_ Hlt].
    simpl. repeat split; auto. intros l0 H0. discriminate.
Qed.

Lemma drain_by_interval_chained interval_ms : forall fuel P bars,
  drain_by_interval fuel interval_ms P = Some bars ->
  chained interval_ms (last_timestamp P) bars.
Proof.
  induction fuel as [| f IH]; intros P bars; cbn [drain_by_interval];
    [discriminate |].
  destruct (next_by_interval interval_ms P) as [[[bar |] P1] |] eqn:En;
    try discriminate.
  - destruct (drain_by_interval f interval_ms P1) as [bars' |] eqn:Ed;
      [| discriminate].
    intro H. inversion H; subst. clear H.
    apply next_by_interval_spec in En. destruct En as (Hl & Ht & _).
    apply IH in Ed. rewrite Hl in Ed.
    simpl. split; [| exact Ed].
    destruct (last_timestamp P) as [l |]; [apply Ht; reflexivity | exact I].
  - intro H. inversion H. exact I.
Qed.

Lemma interval_loop_total : forall fuel target P,
  (records (spot P) < fuel)%nat ->
  exists r P', interval_loop fuel target P = Some (r, P')
               /\ (r <> None -> (records (spot P') < records (spot P))%nat).
Proof.
  induction fuel as [| f IH]; intros target P Hlt; [lia |].
  cbn [interval_loop].
  destruct (read_next_total P) as (r & P1 & He & _ & Hle & Hdec).
  rewrite He. destruct r as [[sw sp] |].
  - assert (Hd : (records (spot P1) < records (spot P))%nat)
      by (apply Hdec; discriminate).
    destruct (Qgeb (timestamp sw) target).
    + eexists _, _. split; [reflexivity |]. intros _. simpl. exact Hd.
    + destruct (IH target P1) as (r & P' & Hi & Hr); [lia |].
      exists r, P'. split; [exact Hi |]. intro Hn. specialize (Hr Hn). lia.
  - exists None, P1. split; [reflexivity | congruence].
Qed.

Lemma next_by_interval_total interval_ms P :
  exists r P', next_by_interval interval_ms P = Some (r, P')
               /\ (r <> None -> (records (spot P') < records (spot P))%nat).
Proof.
  unfold next_by_interval. destruct (last_timestamp P) as [l |].
  - apply interval_loop_total. unfold spot_fuel. lia.
  - destruct (read_next_total P) as (r & P1 & He & _ & _ & Hdec).
    rewrite He. destruct r as [[sw sp] |].
    + eexists _, _. split; [reflexivity |]. intros _. simpl.
      apply Hdec. discriminate.
    + exists None, P1. split; [reflexivity | congruence].
Qed.

Lemma drain_by_interval_total interval_ms : forall fuel P,
  (records (spot P) < fuel)%nat ->
  exists bars, drain_by_interval fuel interval_ms P = Some bars.
Proof.
  induction fuel as [| f IH]; intros P Hlt; [lia |].
  cbn [drain_by_interval].
  destruct (next_by_interval_total interval_ms P) as (r & P1 & He & Hdec).
  rewrite He. destruct r as [bar |].
  - destruct (IH P1) as (bars & Hb).
    + assert (Some bar <> None) as Hn by discriminate. specialize (Hdec Hn). lia.
    + rewrite Hb. eauto.
  - eauto.
Qed.

(** *** The resampler is a filter over the aligned pairs *)

Lemma spot_read_set_last l P :
  _read_next_valid_spot (set_last_timestamp l P)
  = (fst (_read_next_valid_spot P),
     set_last_timestamp l (snd (_read_next_valid_spot P))).
Proof.
  unfold _read_next_valid_spot. simpl.
  destruct (read_next_valid _ _ _ _); reflexivity.
Qed.

Lemma swap_read_set_last l P :
  _read_next_valid_swap (set_last_timestamp l P)
  = (fst (_read_next_valid_swap P),
     set_last_timestamp l (snd (_read_next_valid_swap P))).
Proof.
  unfold _read_next_valid_swap. simpl.
  destruct (read_next_valid _ _ _ _); reflexivity.
Qed.

Lemma advance_swap_set_last l : forall fuel ts best P,
  advance_swap fuel ts best (set_last_timestamp l P)
  = with_last l (advance_swap fuel ts best P).
Proof.
  induction fuel as [| f IH]; intros ts best P; simpl.
  - destruct (current_swap P) as [cs |]; [| reflexivity].
    destruct (Qleb (timestamp cs) ts); reflexivity.
  - destruct (current_swap P) as [cs |]; [| reflexivity].
    destruct (Qleb (timestamp cs) ts); [| reflexivity].
    rewrite swap_read_set_last.
    destruct (_read_next_valid_swap P) as [nxt P1]. simpl.
    apply (IH ts (Some cs) (set_current_swap nxt P1)).
Qed.

Lemma read_next_loop_set_last l : forall fuel P,
  read_next_loop fuel (set_last_timestamp l P)
  = with_last l (read_next_loop fuel P).
Proof.
  induction fuel as [| f IH]; intro P; cbn [read_next_loop]; [reflexivity |].
  rewrite spot_read_set_last.
  destruct (_read_next_valid_spot P) as [spt P1]. cbn [fst snd].
  destruct spt as [y |]; [| reflexivity].
  change (current_swap (set_last_timestamp l P1)) with (current_swap P1).
  change (swap_fuel (set_last_timestamp l P1)) with (swap_fuel P1).
  destruct (current_swap P1) as [cs |]; [| apply IH].
  destruct (Qgtb (timestamp cs) (timestamp y)); [apply IH |].
  rewrite advance_swap_set_last.
  destruct (advance_swap (swap_fuel P1) (timestamp y) None P1)
    as [[[bb |] P2] |]; simpl; [reflexivity | apply IH | reflexivity].
Qed.

Lemma read_next_set_last l P :
  read_next (set_last_timestamp l P) = with_last l (read_next P).
Proof. apply read_next_loop_set_last. Qed.

Lemma drain_pairs_set_last l : forall fuel P,
  drain_pairs fuel (set_last_timestamp l P) = drain_pairs fuel P.
Proof.
  induction fuel as [| f IH]; intro P; cbn [drain_pairs]; [reflexivity |].
  rewrite read_next_set_last.
  destruct (read_next P) as [[[pr |] P1] |]; simpl; try reflexivity.
  rewrite IH. reflexivity.
Qed.

Lemma drain_pairs_mono : forall fuel P l,
  drain_pairs fuel P = Some l ->
  forall fuel', (fuel <= fuel')%nat -> drain_pairs fuel' P = Some l.
Proof.
  induction fuel as [| f IH]; intros P l; cbn [drain_pairs]; [discriminate |].
  intros H fuel' Hle. destruct fuel' as [| f']; [lia |].
  cbn [drain_pairs].
  destruct (read_next P) as [[[pr |] P1] |]; try discriminate; [| exact H].
  destruct (drain_pairs f P1) as [l1 |] eqn:E; [| discriminate].
  rewrite (IH _ _ E f'); [exact H | lia].
Qed.

Lemma drain_pairs_total : forall fuel P,
  (records (spot P) < fuel)%nat -> exists l, drain_pairs fuel P = Some l.
Proof.
  induction fuel as [| f IH]; intros P Hlt; [lia |].
  cbn [drain_pairs].
  destruct (read_next_total P) as (r & P1 & He & _ & _ & Hdec).
  rewrite He. destruct r as [pr |]; [| eauto].
  destruct (IH P1) as (l & Hl).
  - assert (Some pr <> None) as Hn by discriminate. specialize (Hdec Hn). lia.
  - rewrite Hl. eauto.
Qed.

Lemma drain_pairs_enough fuel P :
  (records (spot P) < fuel)%nat -> drain_pairs fuel P = all_pairs P.
Proof.
  intro Hlt. unfold all_pairs.
  destruct (drain_pairs_total (spot_fuel P) P) as (l & Hl);
    [unfold spot_fuel; lia |].
  rewrite Hl. apply (drain_pairs_mono _ _ _ Hl). unfold spot_fuel. lia.
Qed.

Lemma all_pairs_cons P pr P1 :
  read_next P = Some (Some pr, P1) ->
  all_pairs P = match all_pairs P1 with
                | Some l => Some (pr :: l)
                | None => None
                end.
Proof.
  intro H. pose proof (read_next_some_decreases _ _ _ H) as [_ Hlt].
  unfold all_pairs at 1. unfold spot_fuel. cbn [drain_pairs]. rewrite H.
  rewrite (drain_pairs_enough _ _ Hlt). reflexivity.
Qed.

Lemma all_pairs_end P P1 :
  read_next P = Some (None, P1) -> all_pairs P = Some [].
Proof.
  intro H. unfold all_pairs, spot_fuel. cbn [drain_pairs]. rewrite H. reflexivity.
Qed.

Lemma all_pairs_set_last l P : all_pairs (set_last_timestamp l P) = all_pairs P.
Proof. unfold all_pairs. apply drain_pairs_set_last. Qed.

Lemma all_pairs_total P : exists l, all_pairs P = Some l.
Proof. apply drain_pairs_total. unfold spot_fuel. lia. Qed.

(** One round of the scanning loop drops the pairs below the target and
    stops on the first that reaches it. *)
Lemma interval_loop_filter interval_ms l : forall fuel P r P' pairs,
  interval_loop fuel (l + inject_Z interval_ms / 1000) P = Some (r, P') ->
  all_pairs P = Some pairs ->
  match r with
  | Some bar =>
      exists rest, all_pairs P' = Some rest
                   /\ resample interval_ms (Some l) pairs
                      = bar :: resample interval_ms (Some (row_timestamp bar)) rest
  | None => resample interval_ms (Some l) pairs = []
  end.
Proof.
  induction fuel as [| f IH]; intros P r P' pairs; cbn [interval_loop];
    [discriminate |].
  destruct (read_next P) as [[[[sw sp] |] P1] |] eqn:Er; try discriminate.
  - rewrite (all_pairs_cons _ _ _ Er).
    destruct (all_pairs P1) as [rest |] eqn:Ea; [| discriminate].
    destruct (Qgeb (timestamp sw) (l + inject_Z interval_ms / 1000)) eqn:Eg.
    + intros H Hp. inversion H; subst. inversion Hp; subst. clear H Hp.
      exists rest. rewrite all_pairs_set_last. split; [exact Ea |].
      cbn [resample]. change (row_timestamp (sw, sp)) with (timestamp sw).
      rewrite Eg. reflexivity.
    + intros H Hp. inversion Hp; subst. clear Hp.
      cbn [resample]. change (row_timestamp (sw, sp)) with (timestamp sw).
      rewrite Eg.
      exact (IH _ _ _ _ H Ea).
  - intros H Hp. inversion H; subst. clear H.
    rewrite (all_pairs_end _ _ Er) in Hp. inversion Hp. reflexivity.
Qed.

Lemma next_by_interval_filter interval_ms P r P' pairs :
  next_by_interval interval_ms P = Some (r, P') ->
  all_pairs P = Some pairs ->
  match r with
  | Some bar =>
      exists rest, all_pairs P' = Some rest
                   /\ last_timestamp P' = Some (row_timestamp bar)
                   /\ resample interval_ms (last_timestamp P) pairs
                      = bar :: resample interval_ms (Some (row_timestamp bar)) rest
  | None => resample interval_ms (last_timestamp P) pairs = []
  end.
Proof.
  intros H Hp. pose proof H as H0. unfold next_by_interval in H.
  destruct (last_timestamp P) as [l |] eqn:El.
  - pose proof (interval_loop_filter _ _ _ _ _ _ _ H Hp) as Hf.
    destruct r as [bar |]; [| exact Hf].
    destruct Hf as (rest & Ha & Hr). exists rest.
    apply next_by_interval_spec in H0. destruct H0 as (Hl & _).
    auto.
  - destruct (read_next P) as [[[[sw sp] |] P1] |] eqn:Er; try discriminate.
    + inversion H; subst. clear H.
      rewrite (all_pairs_cons _ _ _ Er) in Hp.
      destruct (all_pairs P1) as [rest |] eqn:Ea; [| discriminate].
      inversion Hp; subst. exists rest.
      rewrite all_pairs_set_last. auto.
    + inversion H; subst. rewrite (all_pairs_end _ _ Er) in Hp.
      inversion Hp. reflexivity.
Qed.

Lemma drain_by_interval_resample interval_ms : forall fuel P bars pairs,
  drain_by_interval fuel interval_ms P = Some bars ->
  all_pairs P = Some pairs ->
  bars = resample interval_ms (last_timestamp P) pairs.
Proof.
  induction fuel as [| f IH]; intros P bars pairs; cbn [drain_by_interval];
    [discriminate |].
  destruct (next_by_interval interval_ms P) as [[[bar |] P1] |] eqn:En;
    try discriminate.
  - destruct (drain_by_interval f interval_ms P1) as [bars' |] eqn:Ed;
      [| discriminate].
    intros H Hp. inversion H; subst. clear H.
    destruct (next_by_interval_filter _ _ _ _ _ En Hp) as (rest & Ha & Hl & Hr).
    rewrite Hr. f_equal. rewrite <- Hl. exact (IH _ _ _ Ed Ha).
  - intros H Hp. inversion H; subst.
    symmetry. exact (next_by_interval_filter _ _ _ _ _ En Hp).
Qed.

End Synchronizer.

(** C1. Every pair [read_next] produces obeys hold-last-value: the swap
    tick is not after the spot tick; the swap tick that follows it in the
    stream (the one buffered next, or the one lost past the end instant) is
    after the spot tick, and, the swap side being ordered by timestamp, so
    is every later one: the swap tick is the most recent one within the
    bound.  Every spot tick read before the produced one was skipped
    because it is older than the buffered swap tick, hence older than every
    swap tick at hand.  What is left of the swap stream stays ordered, so
    the same holds for the next pair. *)
Theorem read_next_hold_last_value :
  forall (P : MarketData.Provider) (b sp : MarketData.Tick) (P' : MarketData.Provider),
    MarketData.read_next P = Some (Some (b, sp), P') ->
    (MarketData.timestamp b <= MarketData.timestamp sp
     /\ (exists pre post,
            MarketData.swap_stream P = pre ++ b :: post
            /\ match post with
               | [] => True
               | w :: _ => MarketData.timestamp sp < MarketData.timestamp w
               end
            /\ (StronglySorted MarketData.ts_le (MarketData.swap_stream P) ->
                forall w, In w post ->
                          MarketData.timestamp sp < MarketData.timestamp w))
     /\ (exists skipped rest,
            MarketData.spot_stream P = skipped ++ sp :: rest
            /\ (forall y, In y skipped ->
                  exists cs, hd_error (MarketData.swap_stream P) = Some cs
                             /\ MarketData.timestamp y < MarketData.timestamp cs)
            /\ (StronglySorted MarketData.ts_le (MarketData.swap_stream P) ->
                forall y w, In y skipped -> In w (MarketData.swap_stream P) ->
                            MarketData.timestamp y < MarketData.timestamp w)))
    /\ (StronglySorted MarketData.ts_le (MarketData.swap_stream P) ->
        StronglySorted MarketData.ts_le (MarketData.swap_stream P')).
Proof.
  intros P b sp P' H.
  exact (read_next_loop_spec _ P b sp P' H).
Qed.

Lemma read_next_hold_last_value_witness :
  StronglySorted MarketData.ts_le (MarketData.swap_stream Examples.sync_provider)
  /\ MarketData.hold_last_value Examples.sync_provider
       (Examples.tick 8) (Examples.tick 9)
  /\ StronglySorted MarketData.ts_le
       (MarketData.swap_stream Examples.sync_provider_after).
Proof.
  assert (Hs : StronglySorted MarketData.ts_le
                 (MarketData.swap_stream Examples.sync_provider))
    by (repeat constructor; unfold MarketData.ts_le; simpl; unfold Qle; simpl; lia).
  split; [exact Hs |].
  destruct (read_next_hold_last_value Examples.sync_provider
              (Examples.tick 8) (Examples.tick 9) Examples.sync_provider_after
              eq_refl) as [Hh Hs'].
  split; [exact Hh | exact (Hs' Hs)].
Defined.

(** C2 (as the code has it).  [read_all_depth_by_interval] on a Depth
    provider returns its bars, and they are the aligned pairs of [read_next]
    filtered against a moving baseline: the first pair passes through, a
    later pair is emitted when the timestamp of its swap tick (the row's
    timestamp column) has reached baseline + interval, and the pairs in
    between are dropped.  Hence consecutive emitted bars are at least the
    interval apart in the timestamps of their swap ticks. *)
Theorem resampler_spacing_on_swap_timestamps :
  forall (interval_ms : Z) (P : MarketData.Provider),
    MarketData.data_type P = MarketData.Depth ->
    exists bars pairs,
      MarketData.read_all_depth_by_interval interval_ms P = Ok (Some bars)
      /\ MarketData.all_pairs (MarketData.reset_for_read_all P) = Some pairs
      /\ bars = MarketData.resample interval_ms None pairs
      /\ hd_error bars = hd_error pairs
      /\ MarketData.spaced interval_ms MarketData.row_timestamp bars.
Proof.
  intros interval_ms P Hd. unfold MarketData.read_all_depth_by_interval.
  rewrite Hd.
  set (P0 := MarketData.reset_for_read_all P).
  destruct (drain_by_interval_total interval_ms (MarketData.spot_fuel P0) P0)
    as (bars & Hb); [unfold MarketData.spot_fuel; lia |].
  destruct (all_pairs_total P0) as (pairs & Hp).
  exists bars, pairs. rewrite Hb.
  pose proof (drain_by_interval_resample _ _ _ _ _ Hb Hp) as Hr.
  assert (Hlast : MarketData.last_timestamp P0 = None).
  { unfold P0, MarketData.reset_for_read_all.
    destruct (MarketData._read_next_valid_swap _); reflexivity. }
  rewrite Hlast in Hr.
  repeat split; auto.
  - rewrite Hr. destruct pairs; reflexivity.
  - eapply chained_spaced. apply (drain_by_interval_chained _ _ _ _ Hb).
Qed.

Lemma resampler_spacing_on_swap_timestamps_witness :
  MarketData.data_type Examples.resample_state = MarketData.Depth
  /\ exists bars pairs,
      MarketData.read_all_depth_by_interval 10000 Examples.resample_state
      = Ok (Some bars)
      /\ MarketData.all_pairs (MarketData.reset_for_read_all Examples.resample_state)
         = Some pairs
      /\ bars = MarketData.resample 10000 None pairs
      /\ hd_error bars = hd_error pairs
      /\ MarketData.spaced 10000 MarketData.row_timestamp bars.
Proof.
  split; [reflexivity |].
  apply (resampler_spacing_on_swap_timestamps 10000 Examples.resample_state).
  reflexivity.
Defined.

(** C2 as stated fails: with swap ticks at 0, 10, 20 s and spot ticks at
    9, 19, 20 s and an interval of 10 s, the two emitted bars have spot
    timestamps 19 and 20, one second apart. *)
Lemma resampler_spacing_on_spot_timestamps_counterexample :
  Examples.resample_provider = Some Examples.resample_state
  /\ MarketData.read_all_depth_by_interval 10000 Examples.resample_state
     = Ok (Some Examples.resample_bars)
  /\ ~ MarketData.spaced 10000 MarketData.spot_timestamp Examples.resample_bars.
Proof.
  split; [reflexivity |]. split; [reflexivity |].
  intro H.
  specialize (H 0%nat (Examples.tick 10, Examples.tick 19)
                (Examples.tick 20, Examples.tick 20) eq_refl eq_refl).
  unfold MarketData.spot_timestamp, Qle in H. simpl in H. lia.
Qed.

(** ** The funding index *)

Section FundingIndex.

Import FeeRate.

Lemma minimal_among_nil keep : minimal_among keep [] NoneNone.
Proof. intros ts rate []. Qed.

(** One more item: the lookup loops keep or replace their candidate. *)
Lemma minimal_among_step (keep : Z -> Prop) seen acc ts rate :
  minimal_among keep seen acc ->
  (keep ts
   /\ match acc with
      | NoneNone => True
      | Found ts0 _ => (ts < ts0)%Z
      end
   -> minimal_among keep (seen ++ [(ts, rate)]) (Found ts rate))
  /\ (~ keep ts
      \/ match acc with
         | NoneNone => False
         | Found ts0 _ => (ts0 <= ts)%Z
         end
      -> minimal_among keep (seen ++ [(ts, rate)]) acc).
Proof.
  intro Hm. split.
  - intros [Hk Hlt]. simpl. split; [apply in_or_app; right; left; reflexivity |].
    split; [exact Hk |].
    intros ts' rate' Hin Hk'. apply in_app_or in Hin.
    destruct Hin as [Hin | [Heq | []]].
    + destruct acc as [ts0 rate0 |]; simpl in Hm.
      * destruct Hm as (_ & _ & Hmin). specialize (Hmin _ _ Hin Hk'). lia.
      * exfalso. exact (Hm _ _ Hin Hk').
    + inversion Heq; subst. lia.
  - intros Hcase. destruct acc as [ts0 rate0 |]; simpl in *.
    + destruct Hm as (Hin0 & Hk0 & Hmin).
      split; [apply in_or_app; left; exact Hin0 |]. split; [exact Hk0 |].
      intros ts' rate' Hin Hk'. apply in_app_or in Hin.
      destruct Hin as [Hin | [Heq | []]]; [exact (Hmin _ _ Hin Hk') |].
      inversion Heq; subst. destruct Hcase as [Hn | Hle]; [contradiction | exact Hle].
    + intros ts' rate' Hin Hk'. apply in_app_or in Hin.
      destruct Hin as [Hin | [Heq | []]]; [exact (Hm _ _ Hin Hk') |].
      inversion Heq; subst. destruct Hcase as [Hn | []]. contradiction.
Qed.

Lemma scan_next_minimal t : forall items seen acc,
  minimal_among (after t) seen acc ->
  minimal_among (after t) (seen ++ items) (scan_next t items acc).
Proof.
  induction items as [| [ts rate] items IH]; intros seen acc Hm; simpl.
  - rewrite app_nil_r. exact Hm.
  - replace (seen ++ (ts, rate) :: items) with ((seen ++ [(ts, rate)]) ++ items)
      by (rewrite <- app_assoc; reflexivity).
    destruct (minimal_among_step (after t) seen acc ts rate Hm) as [Htake Hkeep].
    destruct (Qgtb (inject_Z ts) t) eqn:Eg; simpl.
    + apply Qgtb_true in Eg.
      destruct acc as [ts0 rate0 |].
      * destruct (ts <? ts0)%Z eqn:El; apply IH.
        -- apply Htake. split; [exact Eg | apply Z.ltb_lt; exact El].
        -- apply Hkeep. right. apply Z.ltb_ge. exact El.
      * apply IH, Htake. split; [exact Eg | exact I].
    + apply Qgtb_false in Eg. apply IH, Hkeep. left. unfold after. lra.
Qed.

Lemma scan_min_minimal : forall items seen acc,
  minimal_among any seen acc ->
  minimal_among any (seen ++ items) (scan_min items acc).
Proof.
  induction items as [| [ts rate] items IH]; intros seen acc Hm; simpl.
  - rewrite app_nil_r. exact Hm.
  - replace (seen ++ (ts, rate) :: items) with ((seen ++ [(ts, rate)]) ++ items)
      by (rewrite <- app_assoc; reflexivity).
    destruct (minimal_among_step any seen acc ts rate Hm) as [Htake Hkeep].
    destruct acc as [ts0 rate0 |].
    + destruct (ts <? ts0)%Z eqn:El; apply IH.
      * apply Htake. split; [exact I | apply Z.ltb_lt; exact El].
      * apply Hkeep. right. apply Z.ltb_ge. exact El.
    + apply IH, Htake. split; exact I.
Qed.

End FundingIndex.

(** C6 (as the code has it).  [get_next_funding_rate] returns the event of
    the query's own date with the least timestamp strictly after the query;
    when that date has none, it returns the event with the least timestamp
    of the immediately following date, whatever the query; and when that
    date holds no event either, it returns [(None, None)].  The lookup never
    goes further than one date ahead. *)
Theorem get_next_funding_rate_one_day_ahead :
  forall (prov : FeeRate.FeeRateProvider) (timestamp : Q),
    let t := FeeRate.to_seconds timestamp in
    let d := FeeRate.date_of t in
    let own := FeeRate.daily prov d in
    let following := FeeRate.daily prov (d + 1)%Z in
    match FeeRate.get_next_funding_rate prov timestamp with
    | FeeRate.Found ts rate =>
        (In (ts, rate) own /\ t < inject_Z ts
         /\ forall ts' rate', In (ts', rate') own -> t < inject_Z ts' ->
                              (ts <= ts')%Z)
        \/ ((forall ts' rate', In (ts', rate') own -> ~ t < inject_Z ts')
            /\ In (ts, rate) following
            /\ forall ts' rate', In (ts', rate') following -> (ts <= ts')%Z)
    | FeeRate.NoneNone =>
        (forall ts' rate', In (ts', rate') own -> ~ t < inject_Z ts')
        /\ following = []
    end.
Proof.
  intros prov timestamp t d own following.
  unfold FeeRate.get_next_funding_rate, FeeRate.get_daily_funding_rates.
  fold t. fold d. fold own. fold following.
  pose proof (scan_next_minimal t own [] FeeRate.NoneNone
                (minimal_among_nil _)) as Hown.
  pose proof (scan_min_minimal following [] FeeRate.NoneNone
                (minimal_among_nil _)) as Hfol.
  simpl app in Hown, Hfol.
  destruct (FeeRate.scan_next t own FeeRate.NoneNone) as [ts rate |].
  - left. exact Hown.
  - destruct (FeeRate.scan_min following FeeRate.NoneNone) as [ts rate |].
    + right. destruct Hfol as (Hin & _ & Hmin).
      split; [exact Hown |]. split; [exact Hin |].
      intros ts' rate' Hin'. exact (Hmin _ _ Hin' I).
    + split; [exact Hown |].
      destruct following as [| [ts rate] l]; [reflexivity |].
      exfalso. apply (Hfol ts rate); [left; reflexivity | exact I].
Qed.

(** C6 as stated fails: nothing is cached for the query's date and for the
    following one, an event is cached for the date after that, and the
    lookup returns [(None, None)]. *)
Lemma get_next_funding_rate_unbounded_counterexample :
  FeeRate.date_of (FeeRate.to_seconds 1736150000) = 20094%Z
  /\ FeeRate.daily Examples.outage_provider 20094%Z = []
  /\ FeeRate.daily Examples.outage_provider 20095%Z = []
  /\ In (1736294400%Z, 0.0001) (FeeRate.daily Examples.outage_provider 20096%Z)
  /\ 1736150000 < inject_Z 1736294400
  /\ FeeRate.get_next_funding_rate Examples.outage_provider 1736150000
     = FeeRate.NoneNone.
Proof.
  split; [reflexivity |]. split; [reflexivity |]. split; [reflexivity |].
  split; [left; reflexivity |]. split; [reflexivity | reflexivity].
Qed.

(** ** The signals *)

Section SignalEngine.

Import FeeRate Signals.

Lemma bind_ok {A B} (r : result A) (k : A -> result B) a :
  r = Ok a -> bind r k = k a.
Proof. intro H. rewrite H. reflexivity. Qed.

(** The division of the signals never raises: the only exceptions of a
    signal are IndexError (an empty frame) and TypeError (a missing rate). *)
Lemma entry_signal_no_zero_division sig data :
  get_entry_signal sig data <> Raise ZeroDivisionError.
Proof.
  unfold get_entry_signal.
  destruct (iloc_last data) as [bar |] eqn:Hl; cbn [bind];
    [| unfold iloc_last in Hl; destruct (rev data); inversion Hl; discriminate].
  cbv zeta.
  destruct (_is_near_settlement _ && tuple_truthy _).
  - destruct (tuple_rate _) as [rate |]; cbn [gt_or_TypeError bind];
      [| discriminate].
    destruct (Qgtb rate 0); [destruct (f64_gt _ _) | destruct (f64_lt _ _)];
      discriminate.
  - destruct (f64_gt _ _); [discriminate |]. destruct (f64_lt _ _); discriminate.
Qed.

Lemma exit_signal_no_zero_division sig data pt :
  get_exit_signal sig data pt <> Raise ZeroDivisionError.
Proof.
  unfold get_exit_signal.
  destruct (iloc_last data) as [bar |] eqn:Hl; cbn [bind];
    [| unfold iloc_last in Hl; destruct (rev data); inversion Hl; discriminate].
  cbv zeta.
  destruct pt;
    destruct (_is_near_settlement _ && tuple_truthy _);
    try (destruct (tuple_rate _) as [rate |];
         cbn [gt_or_TypeError lt_or_TypeError bind]; [| discriminate]);
    cbn [bind];
    repeat match goal with
           | |- context [if ?c then _ else _] => destruct c
           end; discriminate.
Qed.

(** Away from a settlement, with the thresholds of [__init__], the signals
    are decided by the quotient alone. *)
Lemma entry_signal_away prov data bar :
  iloc_last data = Ok bar ->
  _is_near_settlement (exchange_timestamp bar) = false ->
  get_entry_signal (init prov) data
  = let ratio := np_div (bar_swap_price bar) (bar_spot_price bar) in
    if f64_gt ratio 1.000758 then Ok (-1)%Z
    else if f64_lt ratio 0.999000 then Ok 1%Z
    else Ok 0%Z.
Proof.
  intros Hl Hnear. unfold get_entry_signal. rewrite Hl. cbn [bind]. cbv zeta.
  rewrite Hnear. reflexivity.
Qed.

Lemma exit_signal_away prov data bar pt :
  iloc_last data = Ok bar ->
  _is_near_settlement (exchange_timestamp bar) = false ->
  get_exit_signal (init prov) data pt
  = let ratio := np_div (bar_swap_price bar) (bar_spot_price bar) in
    match pt with
    | short => if f64_lt ratio 0.999999 then Ok 1%Z else Ok 0%Z
    | long => if f64_gt ratio 1.000001 then Ok 1%Z else Ok 0%Z
    end.
Proof.
  intros Hl Hnear. unfold get_exit_signal. rewrite Hl. cbn [bind]. cbv zeta.
  rewrite Hnear. destruct pt; reflexivity.
Qed.

End SignalEngine.

(** C9 (as the code has it).  The signals have no zero-price guard: both
    compute [swap_price / spot_price] for every bar and no bar is skipped.
    The division never raises, since the prices are numpy floats.  Away
    from a settlement and with the thresholds of [__init__]: with a zero
    spot price the quotient is inf, -inf or nan by the sign of the swap
    price and is compared like any other, so a positive swap price gives
    the short entry signal and closes a long position, a negative one
    gives the long entry signal and closes a short position, and a zero
    one gives no signal; a zero swap price over a non-zero spot price
    gives the ratio 0, the long entry signal, and closes a short
    position. *)
Theorem signals_divide_without_zero_guard :
  forall (sig : Signals.TradingSignalFirst) (data : list Bar) (bar : Bar),
    iloc_last data = Ok bar ->
    (Signals.get_entry_signal sig data <> Raise ZeroDivisionError
     /\ forall pt, Signals.get_exit_signal sig data pt <> Raise ZeroDivisionError)
    /\ (Signals._is_near_settlement (exchange_timestamp bar) = false ->
        let sig0 := Signals.init (Signals.fee_provider sig) in
        (bar_spot_price bar == 0 -> 0 < bar_swap_price bar ->
         Signals.get_entry_signal sig0 data = Ok (-1)%Z
         /\ Signals.get_exit_signal sig0 data long = Ok 1%Z
         /\ Signals.get_exit_signal sig0 data short = Ok 0%Z)
        /\ (bar_spot_price bar == 0 -> bar_swap_price bar < 0 ->
            Signals.get_entry_signal sig0 data = Ok 1%Z
            /\ Signals.get_exit_signal sig0 data short = Ok 1%Z
            /\ Signals.get_exit_signal sig0 data long = Ok 0%Z)
        /\ (bar_spot_price bar == 0 -> bar_swap_price bar == 0 ->
            Signals.get_entry_signal sig0 data = Ok 0%Z
            /\ forall pt, Signals.get_exit_signal sig0 data pt = Ok 0%Z)
        /\ (~ bar_spot_price bar == 0 -> bar_swap_price bar == 0 ->
            Signals.get_entry_signal sig0 data = Ok 1%Z
            /\ Signals.get_exit_signal sig0 data short = Ok 1%Z)).
Proof.
  intros sig data bar Hl. split.
  - split; [apply entry_signal_no_zero_division |].
    intro pt. apply exit_signal_no_zero_division.
  - intros Hnear sig0. subst sig0.
    split; [| split; [| split]].
    + intros Hz Hsw.
      assert (Hg : Qgtb (bar_swap_price bar) 0 = true) by (apply Qgtb_true; exact Hsw).
      rewrite (entry_signal_away _ _ _ Hl Hnear), !(exit_signal_away _ _ _ _ Hl Hnear).
      cbv zeta. rewrite (np_div_zero _ _ Hz), Hg. repeat split.
    + intros Hz Hsw.
      assert (Hg : Qgtb (bar_swap_price bar) 0 = false) by (apply Qgtb_false; lra).
      assert (Hlt : Qltb (bar_swap_price bar) 0 = true) by (apply Qltb_true; exact Hsw).
      rewrite (entry_signal_away _ _ _ Hl Hnear), !(exit_signal_away _ _ _ _ Hl Hnear).
      cbv zeta. rewrite (np_div_zero _ _ Hz), Hg, Hlt. repeat split.
    + intros Hz Hsw.
      assert (Hg : Qgtb (bar_swap_price bar) 0 = false) by (apply Qgtb_false; lra).
      assert (Hlt : Qltb (bar_swap_price bar) 0 = false) by (apply Qltb_false; lra).
      rewrite (entry_signal_away _ _ _ Hl Hnear).
      cbv zeta. rewrite (np_div_zero _ _ Hz), Hg, Hlt.
      split; [reflexivity |]. intro pt.
      rewrite (exit_signal_away _ _ _ _ Hl Hnear).
      cbv zeta. rewrite (np_div_zero _ _ Hz), Hg, Hlt. destruct pt; reflexivity.
    + intros Hz Hsw.
      assert (Hratio : bar_swap_price bar / bar_spot_price bar == 0).
      { rewrite Hsw. unfold Qdiv. ring. }
      assert (H1 : Qgtb (bar_swap_price bar / bar_spot_price bar) 1.000758 = false)
        by (apply Qgtb_false; rewrite Hratio; unfold Qle; simpl; lia).
      assert (H2 : Qltb (bar_swap_price bar / bar_spot_price bar) 0.999000 = true)
        by (apply Qltb_true; rewrite Hratio; reflexivity).
      assert (H3 : Qltb (bar_swap_price bar / bar_spot_price bar) 0.999999 = true)
        by (apply Qltb_true; rewrite Hratio; reflexivity).
      rewrite (entry_signal_away _ _ _ Hl Hnear), (exit_signal_away _ _ _ _ Hl Hnear).
      cbv zeta. rewrite (np_div_finite _ _ Hz). cbn [f64_gt f64_lt].
      rewrite H1, H2, H3. split; reflexivity.
Qed.

Lemma signals_divide_without_zero_guard_witness :
  (Signals.get_entry_signal (Signals.init Examples.empty_provider)
     [Examples.zero_swap_bar] = Ok 1%Z
   /\ Signals.get_exit_signal (Signals.init Examples.empty_provider)
        [Examples.zero_swap_bar] short = Ok 1%Z)
  /\ (Signals.get_entry_signal (Signals.init Examples.empty_provider)
        [Examples.zero_spot_bar] = Ok (-1)%Z
      /\ Signals.get_exit_signal (Signals.init Examples.empty_provider)
           [Examples.zero_spot_bar] long = Ok 1%Z
      /\ Signals.get_exit_signal (Signals.init Examples.empty_provider)
           [Examples.zero_spot_bar] short = Ok 0%Z).
Proof.
  split.
  - apply (signals_divide_without_zero_guard
             (Signals.init Examples.empty_provider)
             [Examples.zero_swap_bar] Examples.zero_swap_bar eq_refl).
    + reflexivity.
    + intro H. discriminate H.
    + reflexivity.
  - apply (signals_divide_without_zero_guard
             (Signals.init Examples.empty_provider)
             [Examples.zero_spot_bar] Examples.zero_spot_bar eq_refl).
    + reflexivity.
    + reflexivity.
    + reflexivity.
Defined.

(** C9 as stated fails: a bar with a zero price is not skipped.  With a
    zero swap price the entry signal is 1; with a zero spot price it is -1
    and [process_data] opens a short position on the bar. *)
Lemma signals_zero_price_counterexample :
  bar_swap_price Examples.zero_swap_bar == 0
  /\ Signals.get_entry_signal (Signals.init Examples.empty_provider)
       [Examples.zero_swap_bar] = Ok 1%Z
  /\ bar_spot_price Examples.zero_spot_bar == 0
  /\ Signals.get_entry_signal (Signals.init Examples.empty_provider)
       [Examples.zero_spot_bar] = Ok (-1)%Z
  /\ Signals.get_exit_signal (Signals.init Examples.empty_provider)
       [Examples.zero_spot_bar] long = Ok 1%Z
  /\ (exists s',
        Strategy.process_data Examples.ledger0 [Examples.zero_spot_bar]
        = Ok (s', [(Strategy.open, short, 10000 / inject_Z 2 / 30000, 30000, 0)])).
Proof.
  repeat split. eexists. vm_compute. reflexivity.
Qed.

(** C5, on the code.  Near a settlement, when the lookup finds no event it
    returns the pair [(None, None)], which is truthy: both signals go on to
    compare the missing rate with 0 and raise TypeError instead of falling
    back to the ordinary thresholds. *)
Theorem signals_raise_without_funding_event :
  forall (sig : Signals.TradingSignalFirst) (data : list Bar) (bar : Bar),
    iloc_last data = Ok bar ->
    Signals._is_near_settlement (exchange_timestamp bar) = true ->
    Signals._get_next_funding sig (exchange_timestamp bar) = FeeRate.NoneNone ->
    ~ bar_spot_price bar == 0 ->
    Signals.get_entry_signal sig data = Raise TypeError
    /\ forall pt, Signals.get_exit_signal sig data pt = Raise TypeError.
Proof.
  intros sig data bar Hl Hnear Hnone Hz. split.
  - unfold Signals.get_entry_signal.
    rewrite (bind_ok _ _ _ Hl). cbv zeta.
    rewrite Hnear, Hnone. reflexivity.
  - intro pt. unfold Signals.get_exit_signal.
    rewrite (bind_ok _ _ _ Hl). cbv zeta. rewrite Hnear, Hnone.
    destruct pt; reflexivity.
Qed.

Lemma signals_raise_without_funding_event_witness :
  Signals.get_entry_signal (Signals.init Examples.empty_provider)
    [Examples.near_settlement_bar] = Raise TypeError
  /\ forall pt,
       Signals.get_exit_signal (Signals.init Examples.empty_provider)
         [Examples.near_settlement_bar] pt = Raise TypeError.
Proof.
  apply (signals_raise_without_funding_event
           (Signals.init Examples.empty_provider)
           [Examples.near_settlement_bar] Examples.near_settlement_bar).
  - reflexivity.
  - reflexivity.
  - reflexivity.
  - intro H. discriminate H.
Defined.

(** ** The ledger *)

Section Ledger.

Import FeeRate Strategy.

Lemma accrue_spec t r : forall ps cap total,
  let '(ps', cap', total') := accrue t r ps cap total in
  ps' = map (settle t r) ps
  /\ cap' == cap + funding_total t r ps
  /\ total' == total + funding_total t r ps.
Proof.
  induction ps as [| p ps IH]; intros cap total; simpl.
  - repeat split; ring.
  - unfold settle at 1. destruct (Qltb (entry_time p) t).
    + specialize (IH (cap + funding_fee_of p r) (total + funding_fee_of p r)).
      destruct (accrue t r ps _ _) as [[ps' cap'] total'].
      destruct IH as (Hp & Hc & Ht). subst ps'.
      repeat split; [rewrite Hc; ring | rewrite Ht; ring].
    + specialize (IH cap total).
      destruct (accrue t r ps cap total) as [[ps' cap'] total'].
      destruct IH as (Hp & Hc & Ht). subst ps'.
      repeat split; [rewrite Hc; ring | rewrite Ht; ring].
Qed.

End Ledger.

(** What [process_funding_fees] does with funding enabled, by the previous
    funding event of the bar.  When the event has a non-zero timestamp
    equal to the bar's, every open position opened strictly before it gets
    exactly one payment appended to its log, [- swap_price * amount * rate]
    for a long position and [swap_price * amount * rate] for a short one
    (with the position's own swap price), the other positions are left as
    they are, and capital and the funding total grow by the sum of these
    payments.  When the event's timestamp differs from the bar's, or there
    is no previous event, the ledger is unchanged. *)
Lemma process_funding_fees_by_event :
  forall (s : Strategy.TradingStratsFirst) (timestamp : Q),
    Strategy.funding_fee_enabled s = true ->
    let s' := Strategy.process_funding_fees s timestamp in
    match FeeRate.get_prev_funding_rate (Strategy.fee_provider s) timestamp with
    | FeeRate.Found prev_ts prev_rate =>
        (prev_ts <> 0%Z -> inject_Z prev_ts == timestamp ->
           Strategy.positions s'
           = map (fun p =>
                    if Qltb (Strategy.entry_time p) timestamp
                    then Strategy.add_funding_payment p timestamp
                           match Strategy.position_type p with
                           | long => - Strategy.swap_price p * Strategy.amount p * prev_rate
                           | short => Strategy.swap_price p * Strategy.amount p * prev_rate
                           end
                    else p)
                 (Strategy.positions s)
           /\ Strategy.capital s'
              == Strategy.capital s
                 + Strategy.funding_total timestamp prev_rate (Strategy.positions s)
           /\ Strategy.total_funding_fee s'
              == Strategy.total_funding_fee s
                 + Strategy.funding_total timestamp prev_rate (Strategy.positions s))
        /\ (~ inject_Z prev_ts == timestamp -> s' = s)
    | FeeRate.NoneNone => s' = s
    end.
Proof.
  intros s timestamp Hen s'. subst s'. unfold Strategy.process_funding_fees.
  rewrite Hen. cbn [negb orb].
  destruct (FeeRate.get_prev_funding_rate (Strategy.fee_provider s) timestamp)
    as [prev_ts prev_rate |]; [| destruct (_ =? _)%Z; reflexivity].
  split.
  - intros Hnz Heq.
    destruct (Strategy.len (Strategy.positions s) =? 0)%Z eqn:El.
    + apply Z.eqb_eq in El. unfold Strategy.len in El.
      destruct (Strategy.positions s) as [| p ps] eqn:Ep; [| simpl in El; lia].
      simpl. repeat split; ring.
    + assert (Ht : Strategy.truthy (Some prev_ts) = true).
      { simpl. apply negb_true_iff. apply Z.eqb_neq. exact Hnz. }
      rewrite Ht. apply Qeq_bool_iff in Heq. rewrite Heq. cbn [andb].
      pose proof (accrue_spec timestamp prev_rate (Strategy.positions s)
                    (Strategy.capital s) (Strategy.total_funding_fee s)) as Ha.
      destruct (Strategy.accrue _ _ _ _ _) as [[ps cap] total].
      destruct Ha as (Hp & Hc & Htot). simpl. auto.
  - intro Hne. destruct (_ =? _)%Z; [reflexivity |].
    destruct (Qeq_bool (inject_Z prev_ts) timestamp) eqn:E.
    + apply Qeq_bool_iff in E. contradiction.
    + rewrite andb_false_r. reflexivity.
Qed.

(** The settlement of midnight 2025-01-06 in Shanghai: the position opened
    an hour before receives 30000 * 1 * 0.0002, the one opened at the
    instant itself nothing. *)
Example process_funding_fees_at_midnight :
  let s' := Strategy.process_funding_fees Examples.midnight_ledger 1736092800 in
  Strategy.positions s'
  = [Strategy.add_funding_payment Examples.early_position 1736092800 (30000 * 1 * 0.0002);
     Examples.late_position]
  /\ Strategy.capital s' == 100000 + 6
  /\ Strategy.total_funding_fee s' == 6.
Proof.
  pose proof (process_funding_fees_by_event Examples.midnight_ledger 1736092800
                eq_refl) as H.
  cbv zeta in H.
  change (FeeRate.get_prev_funding_rate
            (Strategy.fee_provider Examples.midnight_ledger) 1736092800)
    with (FeeRate.Found 1736092800 0.0002) in H.
  destruct H as [H _].
  assert (Hnz : 1736092800%Z <> 0%Z) by discriminate.
  destruct (H Hnz (eq_refl : inject_Z 1736092800 == 1736092800)) as (Hp & Hc & Ht).
  cbv zeta. split; [exact Hp |]. split.
  - rewrite Hc. reflexivity.
  - rewrite Ht. reflexivity.
Qed.



(** At that input the claim asks for a payment: the position is long, was
    opened before the instant, and would receive [- 30000 * 1 * 0.0001] were
    the event taken for one. *)
Example the_settlement_at_zero_is_due :
  Strategy.positions Examples.epoch_ledger = [Examples.epoch_position]
  /\ Strategy.entry_time Examples.epoch_position < 0
  /\ Strategy.settle 0 0.0001 Examples.epoch_position
     = Strategy.add_funding_payment Examples.epoch_position 0 (- 30000 * 1 * 0.0001)
  /\ Strategy.process_funding_fees Examples.epoch_ledger 0 = Examples.epoch_ledger.
Proof. repeat split. Qed.

Section LedgerSteps.

Import FeeRate Strategy.

Lemma exit_loop_cons p snapshot data sw sp s trades :
  exit_loop (p :: snapshot) data sw sp s trades
  = (exit_signal <- Signals.get_exit_signal (signal s) data (position_type p) ;;
     if (exit_signal >? 0)%Z
     then exit_loop snapshot data sw sp (close_step s p sw sp)
            (trades ++ [snd (close_position s p sw sp)])
     else exit_loop snapshot data sw sp s trades).
Proof. reflexivity. Qed.

(** A property of the ledger that every step of [process_data] keeps is
    kept by [process_data]. *)
Lemma process_data_invariant (I : TradingStratsFirst -> Prop) :
  (forall s t, I s -> I (process_funding_fees s t)) ->
  (forall s t, I s -> I (refresh_next_funding_time s t)) ->
  (forall s p sw sp, I s -> I (close_step s p sw sp)) ->
  (forall s pt t sw sp s' tr, I s -> open_position s pt t sw sp = Ok (s', tr) -> I s') ->
  forall s data s' trades,
    I s -> process_data s data = Ok (s', trades) -> I s'.
Proof.
  intros Hfund Hrefresh Hclose Hopen s data s' trades Hs.
  assert (Hexit : forall snapshot s0 tr0 s1 tr1,
             I s0 ->
             exit_loop snapshot data
               (bar_swap_price (match iloc_last data with Ok b => b | _ => mkBar 0 0 0 end))
               (bar_spot_price (match iloc_last data with Ok b => b | _ => mkBar 0 0 0 end))
               s0 tr0 = Ok (s1, tr1) ->
             I s1).
  { induction snapshot as [| p snapshot IH]; intros s0 tr0 s1 tr1 H0.
    - simpl. intro H. inversion H; subst. exact H0.
    - rewrite exit_loop_cons.
      destruct (Signals.get_exit_signal (signal s0) data (position_type p))
        as [sg |]; cbn [bind]; [| discriminate].
      destruct (sg >? 0)%Z; apply IH; auto. }
  unfold process_data. destruct data as [| b0 data0]; [intro H; inversion H; subst; exact Hs |].
  set (data := b0 :: data0) in *.
  destruct (iloc_last data) as [bar |] eqn:El; cbn [bind]; [| discriminate].
  set (s1 := refresh_next_funding_time
               (process_funding_fees s (exchange_timestamp bar))
               (exchange_timestamp bar)).
  assert (Hs1 : I s1) by (apply Hrefresh, Hfund, Hs).
  destruct (exit_loop (positions s1) data (bar_swap_price bar) (bar_spot_price bar) s1 [])
    as [[s2 tr2] |] eqn:Ee; cbn [bind]; [| discriminate].
  assert (Hs2 : I s2) by (eapply Hexit; [exact Hs1 | exact Ee]).
  unfold entry_step.
  destruct (len (positions s2) <? max_positions s2)%Z;
    [| intro H; inversion H; subst; exact Hs2].
  destruct (Signals.get_entry_signal (signal s2) data) as [sg |];
    cbn [bind]; [| discriminate].
  match goal with
  | |- (if negb (?e =? 0)%Z then _ else _) = _ -> _ =>
      destruct (negb (e =? 0)%Z); [| intro H; inversion H; subst; exact Hs2];
      destruct (e >? 0)%Z
  end.
  - destruct (can_open_position s2 long); [| intro H; inversion H; subst; exact Hs2].
    destruct (open_position s2 long _ _ _) as [[s3 tr3] |] eqn:Eo;
      cbn [bind]; [| discriminate].
    intro H. inversion H; subst. eapply Hopen; [exact Hs2 | exact Eo].
  - destruct (can_open_position s2 short); [| intro H; inversion H; subst; exact Hs2].
    destruct (open_position s2 short _ _ _) as [[s3 tr3] |] eqn:Eo;
      cbn [bind]; [| discriminate].
    intro H. inversion H; subst. eapply Hopen; [exact Hs2 | exact Eo].
Qed.

(** The steps of [process_data], one after the other. *)
Lemma process_data_steps s data s' trades :
  process_data s data = Ok (s', trades) ->
  (data = [] /\ s' = s /\ trades = [])
  \/ (exists bar s2 closes,
        iloc_last data = Ok bar
        /\ exit_loop
             (positions (refresh_next_funding_time
                           (process_funding_fees s (exchange_timestamp bar))
                           (exchange_timestamp bar)))
             data (bar_swap_price bar) (bar_spot_price bar)
             (refresh_next_funding_time
                (process_funding_fees s (exchange_timestamp bar))
                (exchange_timestamp bar)) []
           = Ok (s2, closes)
        /\ entry_step data (exchange_timestamp bar) (bar_swap_price bar)
             (bar_spot_price bar) s2 closes = Ok (s', trades)).
Proof.
  unfold process_data. destruct data as [| b0 data0].
  - intro H. inversion H; subst. left. auto.
  - set (data := b0 :: data0) in *.
    destruct (iloc_last data) as [bar |] eqn:El; cbn [bind]; [| discriminate].
    destruct (exit_loop _ data _ _ _ []) as [[s2 closes] |] eqn:Ee;
      cbn [bind]; [| discriminate].
    intro H. right. exists bar, s2, closes. auto.
Qed.

Lemma entry_step_cases data t sw sp s trades s' trades' :
  entry_step data t sw sp s trades = Ok (s', trades') ->
  (s' = s /\ trades' = trades)
  \/ (exists pt tr,
        can_open_position s pt = true
        /\ open_position s pt t sw sp = Ok (s', tr)
        /\ trades' = trades ++ [tr]).
Proof.
  unfold entry_step.
  destruct (len (positions s) <? max_positions s)%Z;
    [| intro H; inversion H; subst; left; auto].
  destruct (Signals.get_entry_signal (signal s) data) as [sg |];
    cbn [bind]; [| discriminate].
  match goal with
  | |- (if negb (?e =? 0)%Z then _ else _) = _ -> _ =>
      destruct (negb (e =? 0)%Z); [| intro H; inversion H; subst; left; auto];
      destruct (e >? 0)%Z
  end.
  - destruct (can_open_position s long) eqn:Ec;
      [| intro H; inversion H; subst; left; auto].
    destruct (open_position s long t sw sp) as [[s3 tr3] |] eqn:Eo;
      cbn [bind]; [| discriminate].
    intro H. inversion H; subst. right. exists long, tr3. auto.
  - destruct (can_open_position s short) eqn:Ec;
      [| intro H; inversion H; subst; left; auto].
    destruct (open_position s short t sw sp) as [[s3 tr3] |] eqn:Eo;
      cbn [bind]; [| discriminate].
    intro H. inversion H; subst. right. exists short, tr3. auto.
Qed.

(** What opening a position changes. *)
Lemma open_position_spec s pt t sw sp s' tr :
  open_position s pt t sw sp = Ok (s', tr) ->
  exists a,
    a = initial_capital s / inject_Z (max_positions s) / py_max sw sp
    /\ tr = (open, pt, a, sw, sp)
    /\ positions s' = positions s ++ [mkPosition pt t sw sp a (next_position_id s) []]
    /\ capital s' = capital s - (sw + sp) * a * fee_rate s
    /\ total_fee s' = total_fee s + (sw + sp) * a * fee_rate s
    /\ total_pnl s' = total_pnl s
    /\ initial_capital s' = initial_capital s
    /\ max_positions s' = max_positions s
    /\ fee_rate s' = fee_rate s
    /\ trade_count s' = trade_count s
    /\ win_count s' = win_count s
    /\ current_position_type s' = Some pt.
Proof.
  unfold open_position, calculate_trade_amount, get_position_size.
  destruct (checked_div (initial_capital s) (inject_Z (max_positions s)))
    as [size |] eqn:E1; cbn [bind]; [| discriminate].
  destruct (ledger_div size (py_max sw sp)) as [a |] eqn:E2;
    cbn [bind]; [| discriminate].
  apply checked_div_inv in E1. destruct E1 as [_ E1].
  apply ledger_div_inv in E2. destruct E2 as [_ E2].
  intro H. inversion H; subst. clear H.
  eexists. split; [reflexivity |]. simpl. repeat split.
Qed.

(** What closing a position changes. *)
Lemma close_position_spec s p sw sp :
  let s' := fst (close_position s p sw sp) in
  capital s' = capital s + (calculate_pnl p sw sp - exit_fee p sw sp (fee_rate s))
  /\ total_pnl s' = total_pnl s + calculate_pnl p sw sp
  /\ total_fee s' = total_fee s + exit_fee p sw sp (fee_rate s)
  /\ trade_count s' = (trade_count s + 1)%Z
  /\ win_count s' = (if Qgtb (calculate_pnl p sw sp) 0
                     then win_count s + 1 else win_count s)%Z
  /\ positions s' = remove_position p (positions s)
  /\ closed_positions s' = closed_positions s ++ [p]
  /\ current_position_type s' = current_position_type s
  /\ initial_capital s' = initial_capital s
  /\ max_positions s' = max_positions s
  /\ fee_rate s' = fee_rate s
  /\ snd (close_position s p sw sp) = (close, position_type p, amount p, sw, sp).
Proof.
  unfold close_position, exit_fee. cbv zeta.
  destruct (Qgtb (calculate_pnl p sw sp) 0); simpl; repeat split.
Qed.

Lemma exit_loop_trades : forall snapshot data sw sp s trades s' trades',
  exit_loop snapshot data sw sp s trades = Ok (s', trades') ->
  exists closes,
    trades' = trades ++ closes
    /\ Forall (fun t => action_of t = close) closes.
Proof.
  induction snapshot as [| p snapshot IH]; intros data sw sp s trades s' trades'.
  - simpl. intro H. inversion H; subst. exists []. rewrite app_nil_r. auto.
  - rewrite exit_loop_cons.
    destruct (Signals.get_exit_signal (signal s) data (position_type p))
      as [sg |]; cbn [bind]; [| discriminate].
    destruct (sg >? 0)%Z; [| apply IH].
    intro H. apply IH in H. destruct H as (closes & Ht & Hall).
    exists (snd (close_position s p sw sp) :: closes).
    rewrite Ht, <- app_assoc. split; [reflexivity |].
    constructor; [| exact Hall].
    destruct (close_position_spec s p sw sp) as (_ & _ & _ & _ & _ & _ & _ & _ & _ & _ & _ & Hs).
    rewrite Hs. reflexivity.
Qed.

Lemma process_funding_fees_frame s t :
  let s' := process_funding_fees s t in
  initial_capital s' = initial_capital s
  /\ max_positions s' = max_positions s
  /\ fee_rate s' = fee_rate s
  /\ trade_count s' = trade_count s
  /\ win_count s' = win_count s
  /\ current_position_type s' = current_position_type s
  /\ length (positions s') = length (positions s).
Proof.
  unfold process_funding_fees.
  destruct (negb (funding_fee_enabled s) || (len (positions s) =? 0)%Z);
    [repeat split |].
  destruct (get_prev_funding_rate (fee_provider s) t) as [ts r |]; [| repeat split].
  destruct (truthy (Some ts) && Qeq_bool (inject_Z ts) t); [| repeat split].
  pose proof (accrue_spec t r (positions s) (capital s) (total_funding_fee s)) as Ha.
  destruct (accrue _ _ _ _ _) as [[ps cap] total]. destruct Ha as (Hp & _).
  simpl. subst ps. rewrite length_map. repeat split.
Qed.

Lemma refresh_next_funding_time_frame s t :
  let s' := refresh_next_funding_time s t in
  initial_capital s' = initial_capital s
  /\ max_positions s' = max_positions s
  /\ fee_rate s' = fee_rate s
  /\ trade_count s' = trade_count s
  /\ win_count s' = win_count s
  /\ current_position_type s' = current_position_type s
  /\ positions s' = positions s.
Proof.
  unfold refresh_next_funding_time.
  destruct (match next_funding_time s with
            | Some nft => Qgeb t (inject_Z nft)
            | None => true
            end); [| repeat split].
  destruct (tuple_truthy _ && truthy _); repeat split.
Qed.

Lemma close_step_frame s p sw sp :
  let s' := close_step s p sw sp in
  initial_capital s' = initial_capital s
  /\ max_positions s' = max_positions s
  /\ fee_rate s' = fee_rate s
  /\ trade_count s' = (trade_count s + 1)%Z
  /\ win_count s' = (if Qgtb (calculate_pnl p sw sp) 0
                     then win_count s + 1 else win_count s)%Z
  /\ positions s' = remove_position p (positions s)
  /\ (positions s' = [] -> current_position_type s' = None).
Proof.
  unfold close_step.
  destruct (close_position_spec s p sw sp)
    as (_ & _ & _ & Htc & Hwc & Hpos & _ & _ & Hic & Hmp & Hfr & _).
  cbv zeta in *.
  destruct (len (positions (fst (close_position s p sw sp))) =? 0)%Z eqn:El.
  - simpl. repeat split; auto.
  - repeat split; auto. intro He. rewrite He in El. discriminate El.
Qed.

(** The counters stay consistent and the lock invariant holds along
    [process_data]. *)
Lemma process_data_counts_ok s data s' trades :
  counts_ok s -> process_data s data = Ok (s', trades) -> counts_ok s'.
Proof.
  apply (process_data_invariant counts_ok); unfold counts_ok.
  - intros s0 t H. destruct (process_funding_fees_frame s0 t)
      as (_ & _ & _ & Htc & Hwc & _). rewrite Htc, Hwc. exact H.
  - intros s0 t H. destruct (refresh_next_funding_time_frame s0 t)
      as (_ & _ & _ & Htc & Hwc & _). rewrite Htc, Hwc. exact H.
  - intros s0 p sw sp H. destruct (close_step_frame s0 p sw sp)
      as (_ & _ & _ & Htc & Hwc & _). rewrite Htc, Hwc.
    destruct (Qgtb _ _); lia.
  - intros s0 pt t sw sp s1 tr H Ho. apply open_position_spec in Ho.
    destruct Ho as (a & _ & _ & _ & _ & _ & _ & _ & _ & _ & Htc & Hwc & _).
    rewrite Htc, Hwc. exact H.
Qed.

Lemma process_data_lock_ok s data s' trades :
  lock_ok s -> process_data s data = Ok (s', trades) -> lock_ok s'.
Proof.
  apply (process_data_invariant lock_ok); unfold lock_ok.
  - intros s0 t H He. destruct (process_funding_fees_frame s0 t)
      as (_ & _ & _ & _ & _ & Hl & Hlen). rewrite Hl. apply H.
    rewrite He in Hlen. simpl in Hlen.
    destruct (positions s0); [reflexivity | discriminate].
  - intros s0 t H He. destruct (refresh_next_funding_time_frame s0 t)
      as (_ & _ & _ & _ & _ & Hl & Hp). rewrite Hl. apply H. congruence.
  - intros s0 p sw sp _. destruct (close_step_frame s0 p sw sp)
      as (_ & _ & _ & _ & _ & _ & Hl). exact Hl.
  - intros s0 pt t sw sp s1 tr _ Ho He. apply open_position_spec in Ho.
    destruct Ho as (a & _ & _ & Hp & _). rewrite He in Hp.
    destruct (positions s0); discriminate.
Qed.

Lemma process_data_config s data s' trades :
  process_data s data = Ok (s', trades) ->
  initial_capital s' = initial_capital s
  /\ max_positions s' = max_positions s
  /\ fee_rate s' = fee_rate s.
Proof.
  apply (process_data_invariant
           (fun x => initial_capital x = initial_capital s
                     /\ max_positions x = max_positions s
                     /\ fee_rate x = fee_rate s)); [| | | | auto].
  - intros s0 t (H1 & H2 & H3). destruct (process_funding_fees_frame s0 t)
      as (Hic & Hmp & Hfr & _). rewrite Hic, Hmp, Hfr. auto.
  - intros s0 t (H1 & H2 & H3). destruct (refresh_next_funding_time_frame s0 t)
      as (Hic & Hmp & Hfr & _). rewrite Hic, Hmp, Hfr. auto.
  - intros s0 p sw sp (H1 & H2 & H3). destruct (close_step_frame s0 p sw sp)
      as (Hic & Hmp & Hfr & _). rewrite Hic, Hmp, Hfr. auto.
  - intros s0 pt t sw sp s1 tr (H1 & H2 & H3) Ho. apply open_position_spec in Ho.
    destruct Ho as (a & _ & _ & _ & _ & _ & _ & Hic & Hmp & Hfr & _).
    rewrite Hic, Hmp, Hfr. auto.
Qed.

End LedgerSteps.

(** C4 (as the code has it).  A position that [process_data] opens at swap
    price [sw] and spot price [sp] has the size
    [(initial_capital / max_positions) / max(sw, sp)]: the capital the
    strategy was created with, not the capital at the moment of entry. *)
Theorem position_size_from_initial_capital :
  forall (s : Strategy.TradingStratsFirst) (data : list Bar)
         (s' : Strategy.TradingStratsFirst) (trades : list Strategy.Trade)
         (pt : PositionType) (a sw sp : Q),
    Strategy.process_data s data = Ok (s', trades) ->
    In (Strategy.open, pt, a, sw, sp) trades ->
    a = Strategy.initial_capital s / inject_Z (Strategy.max_positions s)
        / Strategy.py_max sw sp
    /\ exists bar ps id,
         iloc_last data = Ok bar
         /\ sw = bar_swap_price bar /\ sp = bar_spot_price bar
         /\ Strategy.positions s'
            = ps ++ [Strategy.mkPosition pt (exchange_timestamp bar) sw sp a id []].
Proof.
  intros s data s' trades pt a sw sp Hp Hin.
  pose proof (process_data_config _ _ _ _ Hp) as (Hic & Hmp & _).
  apply process_data_steps in Hp.
  destruct Hp as [(_ & _ & Ht) | (bar & s2 & closes & Hl & He & Hentry)];
    [subst; contradiction |].
  apply exit_loop_trades in He. destruct He as (cl & Hcl & Hall).
  simpl in Hcl. subst cl.
  assert (Hnot : ~ In (Strategy.open, pt, a, sw, sp) closes).
  { intro Hc. rewrite Forall_forall in Hall. apply Hall in Hc. discriminate Hc. }
  apply entry_step_cases in Hentry.
  destruct Hentry as [(_ & Ht) | (pt0 & tr & _ & Ho & Ht)];
    [subst; contradiction |].
  subst trades. apply in_app_or in Hin.
  destruct Hin as [Hin | [Hin | []]]; [contradiction |].
  apply open_position_spec in Ho.
  destruct Ho as (a0 & Ha & Htr & Hpos & _ & _ & _ & Hic2 & Hmp2 & _).
  subst tr. inversion Hin; subst pt0 a sw sp. clear Hin.
  split.
  - rewrite Ha. rewrite <- Hic, <- Hmp, Hic2, Hmp2. reflexivity.
  - exists bar, (Strategy.positions s2), (Strategy.next_position_id s2). auto.
Qed.

Lemma position_size_from_initial_capital_witness :
  10000 / inject_Z 2 / Strategy.py_max 30100 30000
  = Strategy.initial_capital Examples.ledger0
    / inject_Z (Strategy.max_positions Examples.ledger0)
    / Strategy.py_max 30100 30000
  /\ exists bar ps id,
       iloc_last [Examples.first_bar] = Ok bar
       /\ 30100 = bar_swap_price bar /\ 30000 = bar_spot_price bar
       /\ Strategy.positions Examples.ledger1
          = ps ++ [Strategy.mkPosition short (exchange_timestamp bar) 30100 30000
                     (10000 / inject_Z 2 / Strategy.py_max 30100 30000) id []].
Proof.
  apply (position_size_from_initial_capital Examples.ledger0 [Examples.first_bar]
           Examples.ledger1
           [(Strategy.open, short,
             10000 / inject_Z 2 / Strategy.py_max 30100 30000, 30100, 30000)]).
  - vm_compute. reflexivity.
  - left. reflexivity.
Defined.

(** C4 as stated fails: after the first entry the capital is below 10000,
    and the second position is still sized from 10000. *)
Lemma position_size_from_capital_counterexample :
  Strategy.process_data Examples.ledger0 [Examples.first_bar]
  = Ok (Examples.ledger1,
        [(Strategy.open, short,
          10000 / inject_Z 2 / Strategy.py_max 30100 30000, 30100, 30000)])
  /\ Strategy.capital Examples.ledger1 < 10000
  /\ (exists s2,
        Strategy.process_data Examples.ledger1
          [Examples.first_bar; Examples.second_bar]
        = Ok (s2, [(Strategy.open, short,
                    10000 / inject_Z 2 / Strategy.py_max 30100 30000,
                    30100, 30000)]))
  /\ ~ 10000 / inject_Z 2 / Strategy.py_max 30100 30000
       == Strategy.capital Examples.ledger1
          / inject_Z (Strategy.max_positions Examples.ledger1)
          / Strategy.py_max 30100 30000.
Proof.
  split; [vm_compute; reflexivity |]. split; [vm_compute; reflexivity |]. split.
  - eexists. vm_compute. reflexivity.
  - intro H. vm_compute in H. discriminate H.
Qed.

(** C8.  A position closed at the prices it was opened at has a price PnL
    of exactly zero, whatever its side and size; closing it changes the
    capital by minus the exit fee and leaves the realized PnL as it is; and
    over the round trip of opening a position and closing it at the same
    prices the capital changes by minus the entry fee plus the exit fee,
    which is also what the fee total grows by. *)
Theorem round_trip_costs_fees_only :
  forall (s : Strategy.TradingStratsFirst) (pt : PositionType) (t sw sp : Q)
         (s1 : Strategy.TradingStratsFirst) (tr : Strategy.Trade),
    Strategy.open_position s pt t sw sp = Ok (s1, tr) ->
    (forall p : Strategy.Position,
        Strategy.calculate_pnl p (Strategy.swap_price p) (Strategy.spot_price p) == 0
        /\ Strategy.capital
             (fst (Strategy.close_position s p (Strategy.swap_price p)
                     (Strategy.spot_price p)))
           == Strategy.capital s
              - Strategy.exit_fee p (Strategy.swap_price p) (Strategy.spot_price p)
                  (Strategy.fee_rate s))
    /\ exists p ps,
         Strategy.positions s1 = ps ++ [p]
         /\ Strategy.position_type p = pt
         /\ Strategy.swap_price p = sw /\ Strategy.spot_price p = sp
         /\ let s2 := fst (Strategy.close_position s1 p sw sp) in
            Strategy.calculate_pnl p sw sp == 0
            /\ Strategy.capital s2 - Strategy.capital s
               == - (Strategy.entry_fee p (Strategy.fee_rate s)
                     + Strategy.exit_fee p sw sp (Strategy.fee_rate s))
            /\ Strategy.total_fee s2 - Strategy.total_fee s
               == Strategy.entry_fee p (Strategy.fee_rate s)
                  + Strategy.exit_fee p sw sp (Strategy.fee_rate s)
            /\ Strategy.total_pnl s2 == Strategy.total_pnl s.
Proof.
  intros s pt t sw sp s1 tr Ho.
  assert (Hzero : forall p : Strategy.Position,
             Strategy.calculate_pnl p (Strategy.swap_price p) (Strategy.spot_price p)
             == 0).
  { intro p. unfold Strategy.calculate_pnl.
    destruct (Strategy.position_type p); ring. }
  split.
  - intro p. split; [apply Hzero |].
    destruct (close_position_spec s p (Strategy.swap_price p) (Strategy.spot_price p))
      as (Hc & _).
    cbv zeta in Hc. rewrite Hc, Hzero. ring.
  - apply open_position_spec in Ho.
    destruct Ho as (a & _ & _ & Hpos & Hcap & Hfee & Hpnl & _ & _ & Hfr & _).
    exists (Strategy.mkPosition pt t sw sp a (Strategy.next_position_id s) []),
           (Strategy.positions s).
    split; [exact Hpos |]. repeat split.
    + exact (Hzero (Strategy.mkPosition pt t sw sp a (Strategy.next_position_id s) [])).
    + destruct (close_position_spec s1
                  (Strategy.mkPosition pt t sw sp a (Strategy.next_position_id s) [])
                  sw sp) as (Hc & _).
      cbv zeta in Hc. rewrite Hc, Hcap, Hfr.
      rewrite (Hzero (Strategy.mkPosition pt t sw sp a (Strategy.next_position_id s) [])).
      unfold Strategy.entry_fee, Strategy.exit_fee. simpl. ring.
    + destruct (close_position_spec s1
                  (Strategy.mkPosition pt t sw sp a (Strategy.next_position_id s) [])
                  sw sp) as (_ & _ & Hf & _).
      cbv zeta in Hf. rewrite Hf, Hfee, Hfr.
      unfold Strategy.entry_fee, Strategy.exit_fee. simpl. ring.
    + destruct (close_position_spec s1
                  (Strategy.mkPosition pt t sw sp a (Strategy.next_position_id s) [])
                  sw sp) as (_ & Hp & _).
      cbv zeta in Hp. rewrite Hp, Hpnl.
      rewrite (Hzero (Strategy.mkPosition pt t sw sp a (Strategy.next_position_id s) [])).
      ring.
Qed.

Lemma round_trip_costs_fees_only_witness :
  exists p ps,
    Strategy.positions Examples.ledger1 = ps ++ [p]
    /\ Strategy.position_type p = short
    /\ Strategy.swap_price p = 30100 /\ Strategy.spot_price p = 30000
    /\ let s2 := fst (Strategy.close_position Examples.ledger1 p 30100 30000) in
       Strategy.calculate_pnl p 30100 30000 == 0
       /\ Strategy.capital s2 - Strategy.capital Examples.ledger0
          == - (Strategy.entry_fee p (Strategy.fee_rate Examples.ledger0)
                + Strategy.exit_fee p 30100 30000 (Strategy.fee_rate Examples.ledger0))
       /\ Strategy.total_fee s2 - Strategy.total_fee Examples.ledger0
          == Strategy.entry_fee p (Strategy.fee_rate Examples.ledger0)
             + Strategy.exit_fee p 30100 30000 (Strategy.fee_rate Examples.ledger0)
       /\ Strategy.total_pnl s2 == Strategy.total_pnl Examples.ledger0.
Proof.
  apply (round_trip_costs_fees_only Examples.ledger0 short 1736130000 30100 30000
           Examples.ledger1
           (Strategy.open, short,
            10000 / inject_Z 2 / Strategy.py_max 30100 30000, 30100, 30000)).
  vm_compute. reflexivity.
Defined.

(** ** End of day *)

Section EndOfDay.

Import Strategy Backtester.

(** The liquidation loop closes positions and nothing else: the direction
    lock is not among the attributes it assigns. *)
Lemma liquidate_keeps_lock : forall snapshot t sw sp s tr,
  current_position_type (fst (liquidate snapshot t sw sp s tr))
  = current_position_type s.
Proof.
  induction snapshot as [| p snapshot IH]; intros t sw sp s tr; [reflexivity |].
  change (liquidate (p :: snapshot) t sw sp s tr)
    with (liquidate snapshot t sw sp (fst (close_position s p sw sp))
            (tr ++ [(t, snd (close_position s p sw sp))])).
  rewrite IH.
  destruct (close_position_spec s p sw sp) as (_ & _ & _ & _ & _ & _ & _ & Hl & _).
  exact Hl.
Qed.

Lemma force_close_all_keeps_lock df s tr s' tr' :
  force_close_all df s tr = Ok (s', tr') ->
  current_position_type s' = current_position_type s.
Proof.
  unfold force_close_all. destruct (positions s) as [| p ps].
  - intro H. inversion H; subst. reflexivity.
  - destruct (iloc_last df) as [b |]; cbn [bind]; [| discriminate].
    intro H. inversion H.
    pose proof (liquidate_keeps_lock (p :: ps) (exchange_timestamp b)
                  (bar_swap_price b) (bar_spot_price b) s tr) as Hk.
    destruct (liquidate _ _ _ _ s tr) as [s0 tr0]. simpl in Hk.
    inversion H; subst. exact Hk.
Qed.

Lemma liquidate_counts_ok : forall snapshot t sw sp s tr,
  counts_ok s -> counts_ok (fst (liquidate snapshot t sw sp s tr)).
Proof.
  induction snapshot as [| p snapshot IH]; intros t sw sp s tr Hs; [exact Hs |].
  change (liquidate (p :: snapshot) t sw sp s tr)
    with (liquidate snapshot t sw sp (fst (close_position s p sw sp))
            (tr ++ [(t, snd (close_position s p sw sp))])).
  apply IH. unfold counts_ok in *.
  destruct (close_position_spec s p sw sp) as (_ & _ & _ & Htc & Hwc & _).
  cbv zeta in *. rewrite Htc, Hwc. destruct (Qgtb _ _); lia.
Qed.

Lemma force_close_all_counts_ok df s tr s' tr' :
  counts_ok s -> force_close_all df s tr = Ok (s', tr') -> counts_ok s'.
Proof.
  intro Hs. unfold force_close_all. destruct (positions s) as [| p ps].
  - intro H. inversion H; subst. exact Hs.
  - destruct (iloc_last df) as [b |]; cbn [bind]; [| discriminate].
    intro H.
    pose proof (liquidate_counts_ok (p :: ps) (exchange_timestamp b)
                  (bar_swap_price b) (bar_spot_price b) s tr Hs) as Hk.
    destruct (liquidate _ _ _ _ s tr) as [s0 tr0]. simpl in Hk.
    inversion H; subst. exact Hk.
Qed.

Lemma reachable_counts_ok s : reachable s -> counts_ok s.
Proof.
  induction 1 as [cap maxp fr ffe prov | s data s' trades _ IH Hp
                  | s df tr s' tr' _ IH Hf].
  - unfold counts_ok. simpl. lia.
  - exact (process_data_counts_ok _ _ _ _ IH Hp).
  - exact (force_close_all_counts_ok _ _ _ _ _ IH Hf).
Qed.

Lemma bar_loop_reachable : forall indices ws df s all_trades s' all_trades',
  reachable s ->
  bar_loop indices ws df s all_trades = Ok (s', all_trades') ->
  reachable s'.
Proof.
  induction indices as [| i indices IH]; intros ws df s tr s' tr' Hs; simpl.
  - intro H. inversion H; subst. exact Hs.
  - destruct (process_data s _) as [[s1 tr1] |] eqn:Ep; cbn [bind]; [| discriminate].
    destruct (nth_error df i) as [row |]; cbn [bind]; [| discriminate].
    apply IH. exact (reach_process_data _ _ _ _ Hs Ep).
Qed.

(** The win rate of a day's record is [win_rate_of] of the ledger at the
    end of the day, a reachable state. *)
Lemma run_single_day_reports bt date df bt' pnl :
  reachable (strategy bt) ->
  run_single_day bt date df = Ok (bt', pnl) ->
  reachable (strategy bt')
  /\ (df <> [] ->
      exists r, results bt' = results bt ++ [r]
                /\ win_rate_of (strategy bt') = Ok (res_win_rate r)).
Proof.
  intro Hs. unfold run_single_day. destruct df as [| b0 df0].
  - intro H. inversion H; subst. split; [exact Hs | congruence].
  - set (df := b0 :: df0).
    destruct (bar_loop _ _ df (strategy bt) []) as [[s1 tr1] |] eqn:Eb;
      cbn [bind]; [| discriminate].
    destruct (force_close_all df s1 tr1) as [[s2 tr2] |] eqn:Ef;
      cbn [bind]; [| discriminate].
    destruct (win_rate_of s2) as [q |] eqn:Ew; cbn [bind]; [| discriminate].
    intro H. inversion H; subst. simpl.
    assert (Hr : reachable s2).
    { eapply reach_force_close; [| exact Ef].
      eapply bar_loop_reachable; [exact Hs | exact Eb]. }
    split; [exact Hr |]. intros _. eexists. split; [reflexivity |]. exact Ew.
Qed.

Lemma run_days_reachable : forall days bt bt',
  reachable (strategy bt) -> run_days bt days = Ok bt' -> reachable (strategy bt').
Proof.
  induction days as [| [date df] days IH]; intros bt bt' Hs; simpl.
  - intro H. inversion H; subst. exact Hs.
  - destruct (run_single_day bt date df) as [[bt1 pnl] |] eqn:Ed;
      cbn [bind]; [| discriminate].
    apply IH. exact (proj1 (run_single_day_reports _ _ _ _ _ Hs Ed)).
Qed.

(** The two branches of [run] and what the aggregate record reports. *)
Lemma run_cases bt days debug_mode parallel completion bt' rr :
  run bt days debug_mode parallel completion = Ok (bt', rr) ->
  ((parallel && negb debug_mode && (1 <? length days)%nat = true
    /\ bt' = mkBacktester (strategy bt) (window_size bt) []
    /\ await_days (mkBacktester (strategy bt) (window_size bt) []) completion
       = Ok tt)
   \/ (parallel && negb debug_mode && (1 <? length days)%nat = false
       /\ run_days (mkBacktester (strategy bt) (window_size bt) []) days = Ok bt'))
  /\ win_rate_of (strategy bt') = Ok (run_win_rate rr)
  /\ run_trade_count rr = trade_count (strategy bt')
  /\ run_initial_capital rr = capital (strategy bt)
  /\ run_final_capital rr = capital (strategy bt')
  /\ run_total_pnl rr = total_pnl (strategy bt')
  /\ run_total_fee rr = total_fee (strategy bt')
  /\ run_total_funding_fee rr = total_funding_fee (strategy bt')
  /\ run_net_pnl rr
     = total_pnl (strategy bt') - total_fee (strategy bt')
       - total_funding_fee (strategy bt')
  /\ run_daily_results rr = results bt'.
Proof.
  unfold run.
  destruct days as [| d0 days0]; cbn [bind]; [discriminate |].
  set (days := d0 :: days0). cbv zeta.
  set (bt0 := mkBacktester (strategy bt) (window_size bt) []).
  cbn [strategy].
  destruct (parallel && negb debug_mode && (1 <? length days)%nat) eqn:Eb.
  - destruct (await_days bt0 completion) as [[] |] eqn:Ea; cbn [bind];
      [| discriminate].
    destruct (return_on_capital _ _) as [r1 |]; cbn [bind]; [| discriminate].
    destruct (checked_div 252 _) as [r2 |]; cbn [bind]; [| discriminate].
    destruct (win_rate_of (strategy bt0)) as [q |] eqn:Ew; cbn [bind];
      [| discriminate].
    intro H. inversion H; subst bt' rr. subst bt0. cbn in *.
    split; [left; auto |]. repeat split. exact Ew.
  - destruct (run_days bt0 days) as [bt1 |] eqn:Ed; cbn [bind]; [| discriminate].
    destruct (return_on_capital _ _) as [r1 |]; cbn [bind]; [| discriminate].
    destruct (checked_div 252 _) as [r2 |]; cbn [bind]; [| discriminate].
    destruct (win_rate_of (strategy bt1)) as [q |] eqn:Ew; cbn [bind];
      [| discriminate].
    intro H. inversion H; subst bt' rr. subst bt0.
    cbn [run_win_rate run_trade_count run_initial_capital run_final_capital
         run_total_pnl run_total_fee run_total_funding_fee run_net_pnl
         run_daily_results strategy].
    split; [right; auto |]. repeat split. exact Ew.
Qed.

(** The win rate of the aggregate record is [win_rate_of] of the ledger at
    the end of the run, a reachable state. *)
Lemma run_reports bt days debug_mode parallel completion bt' rr :
  reachable (strategy bt) ->
  run bt days debug_mode parallel completion = Ok (bt', rr) ->
  reachable (strategy bt')
  /\ win_rate_of (strategy bt') = Ok (run_win_rate rr)
  /\ run_trade_count rr = trade_count (strategy bt').
Proof.
  intros Hs H. apply run_cases in H.
  destruct H as (Hb & Hw & Htc & _).
  split; [| split; assumption].
  destruct Hb as [(_ & He & _) | (_ & Hd)].
  - subst bt'. exact Hs.
  - eapply run_days_reachable; [| exact Hd]. exact Hs.
Qed.

Lemma win_rate_of_bounds s :
  counts_ok s ->
  exists q,
    win_rate_of s = Ok q
    /\ q = inject_Z (win_count s) / inject_Z (Z.max 1 (trade_count s))
    /\ 0 <= q /\ q <= 1
    /\ (trade_count s = 0%Z -> Z.max 1 (trade_count s) = 1%Z /\ q == 0).
Proof.
  unfold counts_ok, win_rate_of. intros [Hw Ht].
  assert (Hm : (1 <= Z.max 1 (trade_count s))%Z) by lia.
  assert (Hwm : (win_count s <= Z.max 1 (trade_count s))%Z) by lia.
  rewrite checked_div_ok.
  2:{ unfold Qeq. simpl. lia. }
  eexists. split; [reflexivity |]. split; [reflexivity |].
  destruct (Z.max 1 (trade_count s)) as [| m | m] eqn:Em; try lia.
  repeat split.
  - unfold Qle, Qdiv, Qmult, Qinv. simpl. lia.
  - unfold Qle, Qdiv, Qmult, Qinv. simpl. lia.
  - lia.
  - assert (win_count s = 0%Z) by lia.
    unfold Qeq, Qdiv, Qmult, Qinv. simpl. lia.
Qed.

End EndOfDay.

(** C3, on the code.  A day of two bars opens a short position on its last
    bar; the end-of-day liquidation closes it and leaves the direction lock
    at short, so the ledger has no open position and still refuses a long
    entry: the long signal of the next bar opens nothing, and would open a
    position were the lock cleared. *)
Theorem forced_liquidation_keeps_direction_lock :
  match Backtester.run_single_day Examples.backtester0 20094 Examples.day1 with
  | Ok (bt1, _) =>
      let s1 := Backtester.strategy bt1 in
      Strategy.positions s1 = []
      /\ length (Strategy.closed_positions s1) = 1%nat
      /\ Strategy.current_position_type s1 = Some short
      /\ Strategy.can_open_position s1 long = false
      /\ Signals.get_entry_signal (Strategy.signal s1) [Examples.long_bar] = Ok 1%Z
      /\ Strategy.process_data s1 [Examples.long_bar] = Ok (s1, [])
      /\ exists s2 a,
           Strategy.process_data (Strategy.set_current_position_type None s1)
             [Examples.long_bar]
           = Ok (s2, [(Strategy.open, long, a, 29900, 30000)])
  | Raise _ => False
  end.
Proof.
  vm_compute. repeat split. eexists. eexists. reflexivity.
Qed.

(** C10.  In every state the ledger goes through, the counters satisfy
    [0 <= win_count <= trade_count]; [win_count / max(1, trade_count)] is
    computed without a division by zero and lies between 0 and 1; when no
    trade was completed the divisor is 1 and the win rate is 0.  This
    quotient, at the state the day or the run ends in, is the win rate of
    the per-day record of [run_single_day] and of the aggregate record of
    [run]. *)
Theorem win_rate_well_defined :
  forall bt : Backtester.Backtester,
    Backtester.reachable (Backtester.strategy bt) ->
    let s := Backtester.strategy bt in
    (0 <= Strategy.win_count s <= Strategy.trade_count s)%Z
    /\ (exists q,
          Backtester.win_rate_of s = Ok q
          /\ q = inject_Z (Strategy.win_count s)
                 / inject_Z (Z.max 1 (Strategy.trade_count s))
          /\ 0 <= q /\ q <= 1
          /\ (Strategy.trade_count s = 0%Z ->
              Z.max 1 (Strategy.trade_count s) = 1%Z /\ q == 0))
    /\ (forall date df bt' pnl,
          Backtester.run_single_day bt date df = Ok (bt', pnl) ->
          df <> [] ->
          exists r,
            Backtester.results bt' = Backtester.results bt ++ [r]
            /\ Backtester.win_rate_of (Backtester.strategy bt')
               = Ok (Backtester.res_win_rate r)
            /\ 0 <= Backtester.res_win_rate r /\ Backtester.res_win_rate r <= 1
            /\ (Strategy.trade_count (Backtester.strategy bt') = 0%Z ->
                Backtester.res_win_rate r == 0))
    /\ (forall days debug_mode parallel completion bt' rr,
          Backtester.run bt days debug_mode parallel completion = Ok (bt', rr) ->
          Backtester.win_rate_of (Backtester.strategy bt')
          = Ok (Backtester.run_win_rate rr)
          /\ 0 <= Backtester.run_win_rate rr /\ Backtester.run_win_rate rr <= 1
          /\ (Backtester.run_trade_count rr = 0%Z ->
              Backtester.run_win_rate rr == 0)).
Proof.
  intros bt Hr s. pose proof (reachable_counts_ok s Hr) as Hc.
  split; [exact Hc |]. split; [exact (win_rate_of_bounds s Hc) |]. split.
  - intros date df bt' pnl Hd Hne.
    destruct (run_single_day_reports _ _ _ _ _ Hr Hd) as [Hr' Hrep].
    destruct (Hrep Hne) as (r & Hres & Hw).
    destruct (win_rate_of_bounds _ (reachable_counts_ok _ Hr'))
      as (q & Hq & _ & H0 & H1 & Hz).
    rewrite Hq in Hw. inversion Hw; subst q.
    exists r. repeat split; auto. intro Ht. exact (proj2 (Hz Ht)).
  - intros days debug_mode parallel completion bt' rr Hrun.
    destruct (run_reports _ _ _ _ _ _ _ Hr Hrun) as (Hr' & Hw & Htc).
    destruct (win_rate_of_bounds _ (reachable_counts_ok _ Hr'))
      as (q & Hq & _ & H0 & H1 & Hz).
    rewrite Hq in Hw. inversion Hw; subst q.
    repeat split; auto. intro Ht. rewrite Htc in Ht. exact (proj2 (Hz Ht)).
Qed.

Lemma win_rate_well_defined_witness :
  Backtester.reachable (Backtester.strategy Examples.backtester_after_day1)
  /\ (0 <= Strategy.win_count (Backtester.strategy Examples.backtester_after_day1)
      <= Strategy.trade_count (Backtester.strategy Examples.backtester_after_day1))%Z
  /\ exists q,
       Backtester.win_rate_of (Backtester.strategy Examples.backtester_after_day1)
       = Ok q
       /\ q = inject_Z (Strategy.win_count
                          (Backtester.strategy Examples.backtester_after_day1))
              / inject_Z (Z.max 1 (Strategy.trade_count
                                     (Backtester.strategy Examples.backtester_after_day1)))
       /\ 0 <= q /\ q <= 1
       /\ (Strategy.trade_count (Backtester.strategy Examples.backtester_after_day1)
           = 0%Z ->
           Z.max 1 (Strategy.trade_count
                      (Backtester.strategy Examples.backtester_after_day1)) = 1%Z
           /\ q == 0).
Proof.
  assert (Hr : Backtester.reachable
                 (Backtester.strategy Examples.backtester_after_day1)).
  { apply (Backtester.reach_force_close Examples.ledger_before_close
             Examples.day1 []
             (Backtester.strategy Examples.backtester_after_day1)
             [(1736130000,
               (Strategy.close, short,
                10000 / inject_Z 2 / Strategy.py_max 30100 30000, 30100, 30000))]).
    - apply (Backtester.reach_process_data Examples.ledger0 Examples.day1
               Examples.ledger_before_close
               [(Strategy.open, short,
                 10000 / inject_Z 2 / Strategy.py_max 30100 30000, 30100, 30000)]).
      + apply Backtester.reach_init.
      + vm_compute. reflexivity.
    - vm_compute. reflexivity. }
  split; [exact Hr |].
  pose proof (win_rate_well_defined Examples.backtester_after_day1 Hr) as H.
  cbv zeta in H. destruct H as (Hc & Hq & _).
  split; [exact Hc | exact Hq].
Defined.

(** * Further properties of the code *)

(** ** The synchronizer as a function of its streams *)

Section SynchronizerStreams.

Import MarketData.

Lemma advance_swap_list : forall fuel ts best P cs,
  (records (swap P) < fuel)%nat ->
  current_swap P = Some cs ->
  timestamp cs <= ts ->
  exists b P',
    advance_swap fuel ts best P = Some (Some b, P')
    /\ (b, current_swap P', valid_ticks (data_type P') (swap P'))
       = advance_list (end_ts P) ts cs (valid_ticks (data_type P) (swap P))
    /\ same_frame P P' /\ spot P' = spot P.
Proof.
  induction fuel as [| f IH]; intros ts best P cs Hlt Hc Hle; [lia |].
  cbn [advance_swap]. rewrite Hc.
  apply Qleb_true in Hle. rewrite Hle.
  destruct (_read_next_valid_swap P) as [nxt P1] eqn:Er.
  apply read_swap_spec in Er.
  destruct Er as (Hf & Hsp & _ & Ho & Hrle & Hrlt).
  pose proof Hf as (Hd & _ & He & _).
  destruct Ho as [(Hv & Hn & Hv') | (t & Hv & Hn)].
  - subst nxt. rewrite Hv. cbn [advance_list].
    exists cs, (set_current_swap None P1).
    split; [destruct f; reflexivity |]. split.
    + simpl. rewrite Hd, Hv'. reflexivity.
    + split; [exact Hf | exact Hsp].
  - rewrite Hv. cbn [advance_list].
    destruct (Qgtb (timestamp t) (inject_Z (end_ts P))) eqn:Eg.
    + subst nxt. exists cs, (set_current_swap None P1).
      split; [destruct f; reflexivity |]. split.
      * simpl. rewrite Hd. reflexivity.
      * split; [exact Hf | exact Hsp].
    + subst nxt.
      destruct (Qleb (timestamp t) ts) eqn:El.
      * apply Qleb_true in El.
        destruct (IH ts (Some cs) (set_current_swap (Some t) P1) t)
          as (b & P' & Ha & Hl & Hf' & Hsp'); [| reflexivity | exact El |].
        { simpl. assert (Some t <> None) as Hne by discriminate.
          specialize (Hrlt Hne). lia. }
        exists b, P'. split; [exact Ha |]. split.
        -- rewrite Hl. simpl. rewrite Hd, He. reflexivity.
        -- split; [eapply same_frame_trans; [exact Hf | exact Hf'] |].
           simpl in Hsp'. congruence.
      * exists cs, (set_current_swap (Some t) P1).
        split.
        -- destruct f; cbn [advance_swap]; simpl; rewrite El; reflexivity.
        -- split; [simpl; rewrite Hd; reflexivity |].
           split; [exact Hf | exact Hsp].
Qed.

Lemma merge_of_after_spot_read P P1 :
  same_frame P P1 -> swap P1 = swap P -> current_swap P1 = current_swap P ->
  merge (end_ts P1) (current_swap P1) (valid_ticks (data_type P1) (swap P1))
        (spot_stream P1)
  = merge (end_ts P) (current_swap P) (valid_ticks (data_type P) (swap P))
          (spot_stream P1).
Proof.
  intros (Hd & _ & He & _) Hs Hc. rewrite Hd, He, Hs, Hc. reflexivity.
Qed.

Lemma read_next_loop_merge : forall fuel P r P',
  read_next_loop fuel P = Some (r, P') ->
  merge_of P = match r with
               | Some pr => pr :: merge_of P'
               | None => []
               end.
Proof.
  induction fuel as [| f IH]; intros P r P'; cbn [read_next_loop];
    [discriminate |].
  destruct (_read_next_valid_spot P) as [spt P1] eqn:Es.
  apply read_spot_spec in Es.
  destruct Es as (Hf & Hsw & Hcur & Ho & _).
  pose proof (merge_of_after_spot_read _ _ Hf Hsw Hcur) as Hm.
  destruct spt as [y |].
  - apply spot_read_some in Ho. destruct Ho as [Hspot Hend].
    apply Qgtb_false in Hend.
    assert (Hskip : merge_of P
                    = match current_swap P with
                      | None => merge_of P1
                      | Some cs =>
                          if Qgtb (timestamp cs) (timestamp y) then merge_of P1
                          else
                            let '(best, cur', swaps') :=
                              advance_list (end_ts P) (timestamp y) cs
                                (valid_ticks (data_type P) (swap P)) in
                            (best, y) :: merge (end_ts P) cur' swaps' (spot_stream P1)
                      end).
    { unfold merge_of at 1. rewrite Hspot. cbn [merge]. rewrite Hend.
      unfold merge_of. rewrite Hm.
      destruct (current_swap P) as [cs |]; reflexivity. }
    rewrite Hskip. rewrite <- Hcur.
    destruct (current_swap P1) as [cs |] eqn:Ec; [| apply IH].
    destruct (Qgtb (timestamp cs) (timestamp y)) eqn:Eg; [apply IH |].
    apply Qgtb_false in Eg.
    destruct (advance_swap_list (swap_fuel P1) (timestamp y) None P1 cs)
      as (b & P2 & Ha & Hl & Hf2 & Hsp2); [unfold swap_fuel; lia | exact Ec | exact Eg |].
    rewrite Ha. intro H. inversion H; subst r P'. clear H.
    destruct Hf as (Hd & _ & He & _). rewrite <- Hd, <- He, <- Hsw.
    rewrite <- Hl.
    destruct Hf2 as (Hd2 & _ & He2 & _).
    unfold merge_of, spot_stream. rewrite Hd2, He2, Hsp2. reflexivity.
  - intro H. inversion H; subst. clear H.
    unfold merge_of.
    destruct Ho as [(Hv & _) | (t & Hv & Hn)].
    + rewrite Hv. reflexivity.
    + rewrite Hv. cbn [merge].
      destruct (Qgtb (timestamp t) (inject_Z (end_ts P))); [reflexivity | discriminate].
Qed.

Lemma drain_pairs_merge : forall fuel P l,
  drain_pairs fuel P = Some l -> l = merge_of P.
Proof.
  induction fuel as [| f IH]; intros P l; cbn [drain_pairs]; [discriminate |].
  destruct (read_next P) as [[[pr |] P1] |] eqn:Er; try discriminate.
  - destruct (drain_pairs f P1) as [l1 |] eqn:Ed; [| discriminate].
    intro H. inversion H; subst. clear H.
    rewrite (read_next_loop_merge _ _ _ _ Er). f_equal. exact (IH _ _ Ed).
  - intro H. inversion H; subst.
    rewrite (read_next_loop_merge _ _ _ _ Er). reflexivity.
Qed.

Lemma subseq_refl {A} (l : list A) : subseq l l.
Proof. induction l; [apply subseq_nil | apply subseq_take; assumption]. Qed.

Lemma subseq_app_l {A} (pre l1 l2 : list A) :
  subseq l1 l2 -> subseq l1 (pre ++ l2).
Proof.
  intro H. induction pre as [| x pre IH]; [exact H | apply subseq_skip, IH].
Qed.

Lemma advance_list_split end_t ts : forall swaps cs best cur' swaps',
  timestamp cs <= ts ->
  advance_list end_t ts cs swaps = (best, cur', swaps') ->
  timestamp best <= ts
  /\ exists pre dropped,
       cs :: swaps = pre ++ best :: dropped ++ stream_of cur' swaps'.
Proof.
  induction swaps as [| t rest IH]; intros cs best cur' swaps' Hle; cbn [advance_list].
  - intro H. inversion H; subst. split; [exact Hle |]. exists [], []. reflexivity.
  - destruct (Qgtb (timestamp t) (inject_Z end_t)).
    + intro H. inversion H; subst. split; [exact Hle |].
      exists [], [t]. reflexivity.
    + destruct (Qleb (timestamp t) ts) eqn:El.
      * apply Qleb_true in El. intro H.
        destruct (IH t best cur' swaps' El H) as (Hb & pre & dropped & Hsplit).
        split; [exact Hb |]. exists (cs :: pre), dropped.
        rewrite Hsplit. reflexivity.
      * intro H. inversion H; subst. split; [exact Hle |].
        exists [], []. reflexivity.
Qed.

Lemma merge_subseq_spots end_t : forall spots cur swaps,
  subseq (map snd (merge end_t cur swaps spots)) spots.
Proof.
  induction spots as [| y spots IH]; intros cur swaps; cbn [merge];
    [apply subseq_nil |].
  destruct (Qgtb (timestamp y) (inject_Z end_t)); [apply subseq_nil |].
  destruct cur as [cs |]; [| apply subseq_skip, IH].
  destruct (Qgtb (timestamp cs) (timestamp y)); [apply subseq_skip, IH |].
  destruct (advance_list end_t (timestamp y) cs swaps) as [[best cur'] swaps'].
  simpl. apply subseq_take, IH.
Qed.

Lemma merge_subseq_swaps end_t : forall spots cur swaps,
  subseq (map fst (merge end_t cur swaps spots)) (stream_of cur swaps).
Proof.
  induction spots as [| y spots IH]; intros cur swaps; cbn [merge];
    [apply subseq_nil |].
  destruct (Qgtb (timestamp y) (inject_Z end_t)); [apply subseq_nil |].
  destruct cur as [cs |]; [| apply IH].
  destruct (Qgtb (timestamp cs) (timestamp y)) eqn:Eg; [apply IH |].
  apply Qgtb_false in Eg.
  destruct (advance_list end_t (timestamp y) cs swaps) as [[best cur'] swaps'] eqn:Ea.
  destruct (advance_list_split _ _ _ _ _ _ _ Eg Ea) as (_ & pre & dropped & Hsplit).
  simpl. rewrite Hsplit. apply subseq_app_l, subseq_take, subseq_app_l, IH.
Qed.

Lemma merge_bounds end_t : forall spots cur swaps b sp,
  In (b, sp) (merge end_t cur swaps spots) ->
  timestamp b <= timestamp sp /\ timestamp sp <= inject_Z end_t.
Proof.
  induction spots as [| y spots IH]; intros cur swaps b sp; cbn [merge];
    [intros [] |].
  destruct (Qgtb (timestamp y) (inject_Z end_t)) eqn:Ee; [intros [] |].
  apply Qgtb_false in Ee.
  destruct cur as [cs |]; [| apply IH].
  destruct (Qgtb (timestamp cs) (timestamp y)) eqn:Eg; [apply IH |].
  apply Qgtb_false in Eg.
  destruct (advance_list end_t (timestamp y) cs swaps) as [[best cur'] swaps'] eqn:Ea.
  destruct (advance_list_split _ _ _ _ _ _ _ Eg Ea) as (Hb & _).
  intros [H | H]; [inversion H; subst; auto | exact (IH _ _ _ _ H)].
Qed.

Lemma all_pairs_merge P : all_pairs P = Some (merge_of P).
Proof.
  destruct (all_pairs_total P) as (l & Hl). rewrite Hl. f_equal.
  exact (drain_pairs_merge _ _ _ Hl).
Qed.

Lemma seek_reader_spec target : forall cur,
  exists dropped,
    cur = dropped ++ seek_reader target cur
    /\ (forall r, In r dropped -> record_timestamp r < inject_Z target)
    /\ match seek_reader target cur with
       | [] => True
       | r :: _ => inject_Z target <= record_timestamp r
       end.
Proof.
  induction cur as [| r cur IH]; cbn [seek_reader].
  - exists []. repeat split. intros r [].
  - destruct (Qltb (record_timestamp r) (inject_Z target)) eqn:El.
    + apply Qltb_true in El. destruct IH as (dropped & Hd & Hall & Hhead).
      exists (r :: dropped). split; [simpl; rewrite <- Hd; reflexivity |].
      split; [| exact Hhead].
      intros x [Hx | Hx]; [subst; exact El | exact (Hall x Hx)].
    + apply Qltb_false in El. exists []. repeat split; [intros x [] | exact El].
Qed.

Lemma seek_reader_idem target cur :
  seek_reader target (seek_reader target cur) = seek_reader target cur.
Proof.
  induction cur as [| r cur IH]; cbn [seek_reader]; [reflexivity |].
  destruct (Qltb (record_timestamp r) (inject_Z target)) eqn:El; [exact IH |].
  cbn [seek_reader]. rewrite El. reflexivity.
Qed.

End SynchronizerStreams.

(** X1.  [_seek_to_start_time] drops from the current reader of each side
    exactly a prefix of records older than the start instant and stops at
    the first record that is not; it never moves to the next reader, leaves
    the buffered swap tick alone, and seeking again changes nothing. *)
Theorem seek_to_start_time_drops_old_prefix :
  forall P : MarketData.Provider,
    let P' := MarketData._seek_to_start_time P in
    (exists dropped,
        MarketData.reader (MarketData.swap P)
        = dropped ++ MarketData.reader (MarketData.swap P')
        /\ (forall r, In r dropped ->
              MarketData.record_timestamp r < inject_Z (MarketData.start_ts P))
        /\ match MarketData.reader (MarketData.swap P') with
           | [] => True
           | r :: _ => inject_Z (MarketData.start_ts P) <= MarketData.record_timestamp r
           end)
    /\ (exists dropped,
          MarketData.reader (MarketData.spot P)
          = dropped ++ MarketData.reader (MarketData.spot P')
          /\ (forall r, In r dropped ->
                MarketData.record_timestamp r < inject_Z (MarketData.start_ts P))
          /\ match MarketData.reader (MarketData.spot P') with
             | [] => True
             | r :: _ => inject_Z (MarketData.start_ts P) <= MarketData.record_timestamp r
             end)
    /\ MarketData.next_readers (MarketData.swap P')
       = MarketData.next_readers (MarketData.swap P)
    /\ MarketData.next_readers (MarketData.spot P')
       = MarketData.next_readers (MarketData.spot P)
    /\ MarketData.current_swap P' = MarketData.current_swap P
    /\ MarketData._seek_to_start_time P' = P'.
Proof.
  intros P P'. subst P'. unfold MarketData._seek_to_start_time. simpl.
  split; [apply seek_reader_spec |]. split; [apply seek_reader_spec |].
  repeat split. rewrite !seek_reader_idem. reflexivity.
Qed.

(** X2.  The aligned pairs a provider still produces are a function of the
    end instant, the buffered swap tick and the two streams of ticks of
    the provider's type alone: the result is the same however the records
    are split over files and whatever records of the other type lie in
    between. *)
Theorem all_pairs_depend_on_streams_only :
  forall P : MarketData.Provider,
    MarketData.all_pairs P
    = Some (MarketData.merge (MarketData.end_ts P) (MarketData.current_swap P)
              (MarketData.valid_ticks (MarketData.data_type P) (MarketData.swap P))
              (MarketData.valid_ticks (MarketData.data_type P) (MarketData.spot P))).
Proof. intro P. exact (all_pairs_merge P). Qed.

(** X3.  The aligned pairs keep the order of both streams and use every
    tick at most once: their spot ticks are the spot stream with some ticks
    left out, and their swap ticks are the swap stream (the buffered tick
    first) with some ticks left out.  A swap tick is never paired twice. *)
Theorem aligned_pairs_are_subsequences :
  forall P : MarketData.Provider,
    exists pairs,
      MarketData.all_pairs P = Some pairs
      /\ MarketData.subseq (map snd pairs) (MarketData.spot_stream P)
      /\ MarketData.subseq (map fst pairs) (MarketData.swap_stream P).
Proof.
  intro P. exists (MarketData.merge_of P).
  split; [apply all_pairs_merge |]. split.
  - apply merge_subseq_spots.
  - unfold MarketData.swap_stream.
    pose proof (merge_subseq_swaps (MarketData.end_ts P) (MarketData.spot_stream P)
                  (MarketData.current_swap P)
                  (MarketData.valid_ticks (MarketData.data_type P) (MarketData.swap P)))
      as H.
    unfold MarketData.stream_of in H. unfold MarketData.merge_of.
    destruct (MarketData.current_swap P); exact H.
Qed.

(** X4.  In every aligned pair a provider produces, the swap tick is not
    after the spot tick and the spot tick is not after the end instant. *)
Theorem aligned_pairs_within_end :
  forall (P : MarketData.Provider) (pairs : list (MarketData.Tick * MarketData.Tick))
         (b sp : MarketData.Tick),
    MarketData.all_pairs P = Some pairs ->
    In (b, sp) pairs ->
    MarketData.timestamp b <= MarketData.timestamp sp
    /\ MarketData.timestamp sp <= inject_Z (MarketData.end_ts P).
Proof.
  intros P pairs b sp Hp Hin. rewrite all_pairs_merge in Hp.
  inversion Hp; subst. exact (merge_bounds _ _ _ _ _ _ Hin).
Qed.

Lemma aligned_pairs_within_end_witness :
  MarketData.timestamp (Examples.tick 8) <= MarketData.timestamp (Examples.tick 9)
  /\ MarketData.timestamp (Examples.tick 9)
     <= inject_Z (MarketData.end_ts Examples.sync_provider).
Proof.
  apply (aligned_pairs_within_end Examples.sync_provider
           [(Examples.tick 8, Examples.tick 9); (Examples.tick 12, Examples.tick 13)]).
  - vm_compute. reflexivity.
  - left. reflexivity.
Defined.

Section SynchronizerEnd.

Import MarketData.

Lemma resample_subseq interval_ms : forall pairs last,
  subseq (resample interval_ms last pairs) pairs.
Proof.
  induction pairs as [| pr pairs IH]; intro last; cbn [resample];
    [apply subseq_nil |].
  destruct last as [l |]; [| apply subseq_take, IH].
  destruct (Qgeb _ _); [apply subseq_take, IH | apply subseq_skip, IH].
Qed.

Lemma reset_position_pairs P :
  all_pairs (reset_for_read_all P) = all_pairs (reset_position P).
Proof.
  unfold reset_for_read_all, reset_position.
  destruct (_read_next_valid_swap (_seek_to_start_time P)) as [cs P2].
  apply all_pairs_set_last.
Qed.

(** When [read_next] reports the end, the spot side is empty or the last
    spot tick read is past the end instant. *)
Lemma read_next_loop_end : forall fuel P P',
  read_next_loop fuel P = Some (None, P') ->
  same_frame P P'
  /\ (spot_stream P' = []
      \/ exists pre t, spot_stream P = pre ++ t :: spot_stream P'
                       /\ inject_Z (end_ts P) < timestamp t).
Proof.
  induction fuel as [| f IH]; intros P P'; cbn [read_next_loop]; [discriminate |].
  destruct (_read_next_valid_spot P) as [spt P1] eqn:Es.
  apply read_spot_spec in Es.
  destruct Es as (Hf & Hsw & Hcur & Ho & _).
  destruct spt as [y |].
  - apply spot_read_some in Ho. destruct Ho as [Hspot Hend].
    assert (Hrec : read_next_loop f P1 = Some (None, P') ->
                   same_frame P P'
                   /\ (spot_stream P' = []
                       \/ exists pre t, spot_stream P = pre ++ t :: spot_stream P'
                                        /\ inject_Z (end_ts P) < timestamp t)).
    { intro H. apply IH in H. destruct H as [Hf' Hcase].
      split; [eapply same_frame_trans; eauto |].
      destruct Hcase as [He | (pre & t & Hpre & Ht)]; [left; exact He |].
      right. exists (y :: pre), t. rewrite Hspot, Hpre.
      destruct Hf as (_ & _ & Hend' & _). rewrite Hend' in Ht. auto. }
    destruct (current_swap P1) as [cs |] eqn:Ec; [| exact Hrec].
    destruct (Qgtb (timestamp cs) (timestamp y)) eqn:Eg; [exact Hrec |].
    apply Qgtb_false in Eg.
    destruct (advance_swap (swap_fuel P1) (timestamp y) None P1)
      as [[[bb |] P2] |] eqn:Ea; try discriminate.
    (* the inner loop ran at least once: this case does not arise *)
    intros _. exfalso.
    apply advance_swap_spec in Ea.
    destruct Ea as (_ & _ & _ & [(_ & _ & Hc) | (pre & b0 & post & _ & Hr & _)]);
      [| discriminate].
    rewrite Ec in Hc. lra.
  - intro H. inversion H; subst. split; [exact Hf |].
    destruct Ho as [(Hv & _ & Hv') | (t & Hv & Hn)]; [left; exact Hv' |].
    right. exists [], t. split; [exact Hv |].
    destruct (Qgtb (timestamp t) (inject_Z (end_ts P))) eqn:Eg; [| discriminate].
    apply Qgtb_true in Eg. exact Eg.
Qed.

Lemma all_pairs_nil_read_next P :
  all_pairs P = Some [] -> exists P', read_next P = Some (None, P').
Proof.
  intro H. destruct (read_next_total P) as (r & P' & He & _).
  destruct r as [pr |]; [| eauto].
  rewrite (all_pairs_cons _ _ _ He) in H.
  destruct (all_pairs P'); discriminate.
Qed.

End SynchronizerEnd.

(** X5.  The rows of [read_all_depth_by_interval] are rows of
    [read_all_depth_data] on the same provider, in the same order: the
    interval reader only leaves rows out. *)
Theorem interval_rows_are_rows_of_the_full_read :
  forall (interval_ms : Z) (P : MarketData.Provider),
    MarketData.data_type P = MarketData.Depth ->
    exists bars pairs,
      MarketData.read_all_depth_by_interval interval_ms P = Ok (Some bars)
      /\ MarketData.read_all_depth_data P = Ok (Some pairs)
      /\ MarketData.subseq bars pairs.
Proof.
  intros interval_ms P Hd.
  unfold MarketData.read_all_depth_by_interval, MarketData.read_all_depth_data.
  rewrite Hd. rewrite <- reset_position_pairs.
  set (P0 := MarketData.reset_for_read_all P).
  destruct (drain_by_interval_total interval_ms (MarketData.spot_fuel P0) P0)
    as (bars & Hb); [unfold MarketData.spot_fuel; lia |].
  destruct (all_pairs_total P0) as (pairs & Hp).
  exists bars, pairs. rewrite Hb, Hp. split; [reflexivity |].
  split; [reflexivity |].
  rewrite (drain_by_interval_resample _ _ _ _ _ Hb Hp). apply resample_subseq.
Qed.

Lemma interval_rows_are_rows_of_the_full_read_witness :
  exists bars pairs,
    MarketData.read_all_depth_by_interval 10000 Examples.resample_state
    = Ok (Some bars)
    /\ MarketData.read_all_depth_data Examples.resample_state = Ok (Some pairs)
    /\ MarketData.subseq bars pairs.
Proof.
  apply (interval_rows_are_rows_of_the_full_read 10000 Examples.resample_state).
  reflexivity.
Defined.

(** X6.  The end of the stream is permanent when the spot side is ordered
    by timestamp: once [read_next] has returned [(None, None)], it returns
    [(None, None)] again and no pair is ever produced. *)
Theorem read_next_end_is_permanent :
  forall P P' : MarketData.Provider,
    StronglySorted MarketData.ts_le (MarketData.spot_stream P) ->
    MarketData.read_next P = Some (None, P') ->
    MarketData.all_pairs P' = Some []
    /\ exists P'', MarketData.read_next P' = Some (None, P'').
Proof.
  intros P P' Hs H.
  apply read_next_loop_end in H. destruct H as [(Hd & _ & He & _) Hcase].
  assert (Hnil : MarketData.all_pairs P' = Some []).
  { rewrite all_pairs_merge. f_equal. unfold MarketData.merge_of.
    destruct Hcase as [Hv | (pre & t & Hpre & Ht)].
    - rewrite Hv. reflexivity.
    - destruct (MarketData.spot_stream P') as [| y rest] eqn:Ey; [reflexivity |].
      cbn [MarketData.merge].
      rewrite Hpre in Hs. apply StronglySorted_app_r in Hs.
      apply StronglySorted_inv in Hs. destruct Hs as [_ Hall].
      rewrite Forall_forall in Hall. specialize (Hall y (or_introl eq_refl)).
      unfold MarketData.ts_le in Hall.
      assert (Hg : Qgtb (MarketData.timestamp y) (inject_Z (MarketData.end_ts P'))
                   = true).
      { apply Qgtb_true. rewrite He. lra. }
      rewrite Hg. reflexivity. }
  split; [exact Hnil | exact (all_pairs_nil_read_next _ Hnil)].
Qed.

Lemma read_next_end_is_permanent_witness :
  MarketData.all_pairs Examples.late_provider_after = Some []
  /\ exists P'', MarketData.read_next Examples.late_provider_after = Some (None, P'').
Proof.
  apply (read_next_end_is_permanent Examples.late_provider Examples.late_provider_after).
  - vm_compute. repeat constructor; unfold MarketData.ts_le; simpl; discriminate.
  - vm_compute. reflexivity.
Defined.

(** ** The interval reader without an interval *)

Section IntervalZero.

Import MarketData.

Lemma subseq_sorted {A} (R : A -> A -> Prop) (l1 l2 : list A) :
  subseq l1 l2 -> StronglySorted R l2 -> StronglySorted R l1.
Proof.
  induction 1 as [l | x l1 l2 Hs IH | x l1 l2 Hs IH]; intro H2.
  - constructor.
  - apply StronglySorted_inv in H2. destruct H2 as [H2 Hall].
    constructor; [exact (IH H2) |].
    rewrite Forall_forall in *. intros y Hy. apply Hall.
    clear -Hs Hy. induction Hs as [l | z l1 l2 Hs IH | z l1 l2 Hs IH].
    + destruct Hy.
    + destruct Hy as [Hy | Hy]; [left; exact Hy | right; exact (IH Hy)].
    + right. exact (IH Hy).
  - apply StronglySorted_inv in H2. exact (IH (proj1 H2)).
Qed.

(** With an interval that is not positive, resampling rows whose swap
    timestamps do not decrease keeps every row. *)
Lemma resample_all interval_ms :
  (interval_ms <= 0)%Z ->
  forall pairs last,
    StronglySorted ts_le (map fst pairs) ->
    match last with
    | Some l => forall pr, In pr pairs -> l <= row_timestamp pr
    | None => True
    end ->
    resample interval_ms last pairs = pairs.
Proof.
  intro Hi.
  assert (Hq : inject_Z interval_ms / 1000 <= 0).
  { assert (H0 : inject_Z interval_ms <= 0).
    { change 0 with (inject_Z 0). rewrite <- Zle_Qle. exact Hi. }
    unfold Qdiv. setoid_replace 0 with (0 * / 1000) by ring.
    apply Qmult_le_compat_r; [exact H0 | discriminate]. }
  induction pairs as [| pr pairs IH]; intros last Hs Hl; [reflexivity |].
  cbn [map] in Hs. apply StronglySorted_inv in Hs. destruct Hs as [Hs Hall].
  assert (Hnext : forall pr', In pr' pairs -> row_timestamp pr <= row_timestamp pr').
  { intros pr' Hin. rewrite Forall_forall in Hall.
    apply (Hall (fst pr')). apply in_map. exact Hin. }
  cbn [resample]. destruct last as [l |].
  - assert (Hg : Qgeb (row_timestamp pr) (l + inject_Z interval_ms / 1000) = true).
    { apply Qgeb_true. specialize (Hl pr (or_introl eq_refl)). lra. }
    rewrite Hg. f_equal. apply IH; assumption.
  - f_equal. apply IH; assumption.
Qed.

(** The swap stream of a provider after the reset of the reading position
    is what is left of the swap side's ticks. *)
Lemma reset_position_sorted P :
  StronglySorted ts_le (valid_ticks (data_type P) (swap P)) ->
  StronglySorted ts_le (swap_stream (reset_position P)).
Proof.
  intro Hs. unfold reset_position.
  set (P1 := _seek_to_start_time P).
  assert (H1 : StronglySorted ts_le (valid_ticks (data_type P1) (swap P1))).
  { subst P1. unfold _seek_to_start_time, valid_ticks in *. cbn.
    destruct (seek_reader_spec (start_ts P) (reader (swap P)))
      as (dropped & Hd & _).
    rewrite Hd, <- app_assoc, valid_of_app in Hs.
    exact (StronglySorted_app_r _ _ _ Hs). }
  destruct (_read_next_valid_swap P1) as [cs P2] eqn:Er.
  apply read_swap_spec in Er.
  destruct Er as ((Hdt & _) & _ & _ & Ho & _).
  unfold swap_stream. cbn [current_swap set_current_swap data_type swap].
  rewrite Hdt.
  destruct Ho as [(Hb & Hr & Ha) | (t & Hb & Hr)].
  - subst cs. rewrite Ha. constructor.
  - rewrite Hb in H1.
    destruct (Qgtb (timestamp t) (inject_Z (end_ts P1))); subst cs.
    + apply StronglySorted_inv in H1. exact (proj1 H1).
    + exact H1.
Qed.

End IntervalZero.

(** X27.  With an interval of zero (or less) and the swap side ordered by
    timestamp, [read_all_depth_by_interval] leaves no row out: it returns
    the rows of [read_all_depth_data]. *)
Theorem interval_zero_reads_every_row :
  forall (interval_ms : Z) (P : MarketData.Provider),
    MarketData.data_type P = MarketData.Depth ->
    (interval_ms <= 0)%Z ->
    StronglySorted MarketData.ts_le
      (MarketData.valid_ticks (MarketData.data_type P) (MarketData.swap P)) ->
    exists pairs,
      MarketData.read_all_depth_by_interval interval_ms P = Ok (Some pairs)
      /\ MarketData.read_all_depth_data P = Ok (Some pairs).
Proof.
  intros interval_ms P Hd Hi Hs.
  unfold MarketData.read_all_depth_by_interval, MarketData.read_all_depth_data.
  rewrite Hd. rewrite <- reset_position_pairs.
  set (P0 := MarketData.reset_for_read_all P).
  destruct (drain_by_interval_total interval_ms (MarketData.spot_fuel P0) P0)
    as (bars & Hb); [unfold MarketData.spot_fuel; lia |].
  pose proof (all_pairs_merge P0) as Hp.
  exists (MarketData.merge_of P0). rewrite Hb, Hp. split; [| reflexivity].
  rewrite (drain_by_interval_resample _ _ _ _ _ Hb Hp).
  assert (Hl : MarketData.last_timestamp P0 = None).
  { subst P0. unfold MarketData.reset_for_read_all.
    destruct (MarketData._read_next_valid_swap _). reflexivity. }
  rewrite Hl. do 2 f_equal.
  apply (resample_all interval_ms Hi); [| exact I].
  apply (subseq_sorted _ _ (MarketData.swap_stream P0)).
  - pose proof (merge_subseq_swaps (MarketData.end_ts P0) (MarketData.spot_stream P0)
                  (MarketData.current_swap P0)
                  (MarketData.valid_ticks (MarketData.data_type P0)
                     (MarketData.swap P0))) as H.
    unfold MarketData.stream_of in H. unfold MarketData.merge_of, MarketData.swap_stream.
    destruct (MarketData.current_swap P0); exact H.
  - pose proof (reset_position_sorted P Hs) as H.
    subst P0. unfold MarketData.reset_for_read_all, MarketData.reset_position in *.
    destruct (MarketData._read_next_valid_swap _) as [cs P2]. exact H.
Qed.

Lemma interval_zero_reads_every_row_witness :
  exists pairs,
    MarketData.read_all_depth_by_interval 0 Examples.resample_state = Ok (Some pairs)
    /\ MarketData.read_all_depth_data Examples.resample_state = Ok (Some pairs).
Proof.
  apply (interval_zero_reads_every_row 0 Examples.resample_state).
  - reflexivity.
  - lia.
  - vm_compute. repeat constructor; unfold MarketData.ts_le; simpl; discriminate.
Defined.

(** ** The funding index, backwards *)

Section FundingIndexBack.

Import FeeRate.

Lemma maximal_among_nil keep : maximal_among keep [] NoneNone.
Proof. intros ts rate []. Qed.

Lemma maximal_among_step (keep : Z -> Prop) seen acc ts rate :
  maximal_among keep seen acc ->
  (keep ts
   /\ match acc with
      | NoneNone => True
      | Found ts0 _ => (ts0 < ts)%Z
      end
   -> maximal_among keep (seen ++ [(ts, rate)]) (Found ts rate))
  /\ (~ keep ts
      \/ match acc with
         | NoneNone => False
         | Found ts0 _ => (ts <= ts0)%Z
         end
      -> maximal_among keep (seen ++ [(ts, rate)]) acc).
Proof.
  intro Hm. split.
  - intros [Hk Hlt]. simpl. split; [apply in_or_app; right; left; reflexivity |].
    split; [exact Hk |].
    intros ts' rate' Hin Hk'. apply in_app_or in Hin.
    destruct Hin as [Hin | [Heq | []]].
    + destruct acc as [ts0 rate0 |]; simpl in Hm.
      * destruct Hm as (_ & _ & Hmax). specialize (Hmax _ _ Hin Hk'). lia.
      * exfalso. exact (Hm _ _ Hin Hk').
    + inversion Heq; subst. lia.
  - intros Hcase. destruct acc as [ts0 rate0 |]; simpl in *.
    + destruct Hm as (Hin0 & Hk0 & Hmax).
      split; [apply in_or_app; left; exact Hin0 |]. split; [exact Hk0 |].
      intros ts' rate' Hin Hk'. apply in_app_or in Hin.
      destruct Hin as [Hin | [Heq | []]]; [exact (Hmax _ _ Hin Hk') |].
      inversion Heq; subst. destruct Hcase as [Hn | Hle]; [contradiction | exact Hle].
    + intros ts' rate' Hin Hk'. apply in_app_or in Hin.
      destruct Hin as [Hin | [Heq | []]]; [exact (Hm _ _ Hin Hk') |].
      inversion Heq; subst. destruct Hcase as [Hn | []]. contradiction.
Qed.

Lemma scan_prev_maximal t : forall items seen acc,
  maximal_among (before t) seen acc ->
  maximal_among (before t) (seen ++ items) (scan_prev t items acc).
Proof.
  induction items as [| [ts rate] items IH]; intros seen acc Hm; simpl.
  - rewrite app_nil_r. exact Hm.
  - replace (seen ++ (ts, rate) :: items) with ((seen ++ [(ts, rate)]) ++ items)
      by (rewrite <- app_assoc; reflexivity).
    destruct (maximal_among_step (before t) seen acc ts rate Hm) as [Htake Hkeep].
    destruct (Qltb (inject_Z ts) t) eqn:Eg; simpl.
    + apply Qltb_true in Eg.
      destruct acc as [ts0 rate0 |].
      * destruct (ts >? ts0)%Z eqn:El; apply IH.
        -- apply Htake. split; [exact Eg | apply Z.gtb_lt in El; lia].
        -- apply Hkeep. right. rewrite Z.gtb_ltb in El. apply Z.ltb_ge in El. exact El.
      * apply IH, Htake. split; [exact Eg | exact I].
    + apply Qltb_false in Eg. apply IH, Hkeep. left. unfold before. lra.
Qed.

Lemma scan_max_maximal : forall items seen acc,
  maximal_among any seen acc ->
  maximal_among any (seen ++ items) (scan_max items acc).
Proof.
  induction items as [| [ts rate] items IH]; intros seen acc Hm; simpl.
  - rewrite app_nil_r. exact Hm.
  - replace (seen ++ (ts, rate) :: items) with ((seen ++ [(ts, rate)]) ++ items)
      by (rewrite <- app_assoc; reflexivity).
    destruct (maximal_among_step any seen acc ts rate Hm) as [Htake Hkeep].
    destruct acc as [ts0 rate0 |].
    + destruct (ts >? ts0)%Z eqn:El; apply IH.
      * apply Htake. split; [exact I | apply Z.gtb_lt in El; lia].
      * apply Hkeep. right. rewrite Z.gtb_ltb in El. apply Z.ltb_ge in El. exact El.
    + apply IH, Htake. split; exact I.
Qed.

Lemma to_seconds_le t : to_seconds t <= t.
Proof.
  unfold to_seconds. destruct (Qgtb t 1000000000000) eqn:E; [| lra].
  apply Qgtb_true in E.
  pose proof (Qfloor_le (t / 1000)) as Hf.
  assert (t / 1000 <= t); [| lra].
  unfold Qdiv. assert (H : / 1000 == 1 # 1000) by reflexivity. rewrite H.
  lra.
Qed.

(** A previous event found in the query's own date is strictly before
    the query. *)
Lemma get_prev_own_date prov t ts0 rate0 :
  In (ts0, rate0) (daily prov (date_of (to_seconds t))) ->
  inject_Z ts0 < to_seconds t ->
  exists ts rate,
    get_prev_funding_rate prov t = Found ts rate
    /\ inject_Z ts < to_seconds t.
Proof.
  intros Hin Hlt. unfold get_prev_funding_rate, get_daily_funding_rates.
  pose proof (scan_prev_maximal (to_seconds t)
                (daily prov (date_of (to_seconds t))) [] NoneNone
                (maximal_among_nil _)) as Hown.
  simpl app in Hown.
  destruct (scan_prev _ _ NoneNone) as [ts rate |].
  - exists ts, rate. split; [reflexivity |]. exact (proj1 (proj2 Hown)).
  - exfalso. exact (Hown _ _ Hin Hlt).
Qed.

End FundingIndexBack.

(** X7.  [get_prev_funding_rate] returns the event of the query's own
    date with the greatest timestamp strictly before the query; when that
    date has none, the event with the greatest timestamp of the date
    before, whatever the query; and [(None, None)] when that date holds no
    event either. *)
Theorem get_prev_funding_rate_one_day_back :
  forall (prov : FeeRate.FeeRateProvider) (timestamp : Q),
    let t := FeeRate.to_seconds timestamp in
    let d := FeeRate.date_of t in
    let own := FeeRate.daily prov d in
    let preceding := FeeRate.daily prov (d - 1)%Z in
    match FeeRate.get_prev_funding_rate prov timestamp with
    | FeeRate.Found ts rate =>
        (In (ts, rate) own /\ inject_Z ts < t
         /\ forall ts' rate', In (ts', rate') own -> inject_Z ts' < t ->
                              (ts' <= ts)%Z)
        \/ ((forall ts' rate', In (ts', rate') own -> ~ inject_Z ts' < t)
            /\ In (ts, rate) preceding
            /\ forall ts' rate', In (ts', rate') preceding -> (ts' <= ts)%Z)
    | FeeRate.NoneNone =>
        (forall ts' rate', In (ts', rate') own -> ~ inject_Z ts' < t)
        /\ preceding = []
    end.
Proof.
  intros prov timestamp t d own preceding.
  unfold FeeRate.get_prev_funding_rate, FeeRate.get_daily_funding_rates.
  fold t. fold d. fold own. fold preceding.
  pose proof (scan_prev_maximal t own [] FeeRate.NoneNone
                (maximal_among_nil _)) as Hown.
  pose proof (scan_max_maximal preceding [] FeeRate.NoneNone
                (maximal_among_nil _)) as Hpre.
  simpl app in Hown, Hpre.
  destruct (FeeRate.scan_prev t own FeeRate.NoneNone) as [ts rate |].
  - left. exact Hown.
  - destruct (FeeRate.scan_max preceding FeeRate.NoneNone) as [ts rate |].
    + right. destruct Hpre as (Hin & _ & Hmax).
      split; [exact Hown |]. split; [exact Hin |].
      intros ts' rate' Hin'. exact (Hmax _ _ Hin' I).
    + split; [exact Hown |].
      destruct preceding as [| [ts rate] l]; [reflexivity |].
      exfalso. apply (Hpre ts rate); [left; reflexivity | exact I].
Qed.

(** X8.  Funding never accrues at a bar whose own date holds an event
    strictly before it: the previous event is then that earlier one, not
    the bar's instant, and [process_funding_fees] leaves the ledger as it
    is, even when an event with the bar's own timestamp is cached and a
    position is open. *)
Theorem no_funding_after_an_earlier_event_of_the_date :
  forall (s : Strategy.TradingStratsFirst) (timestamp : Q) (ts0 : Z) (rate0 : Q),
    In (ts0, rate0)
       (FeeRate.daily (Strategy.fee_provider s)
          (FeeRate.date_of (FeeRate.to_seconds timestamp))) ->
    inject_Z ts0 < FeeRate.to_seconds timestamp ->
    Strategy.process_funding_fees s timestamp = s.
Proof.
  intros s t ts0 rate0 Hin Hlt. unfold Strategy.process_funding_fees.
  destruct (negb (Strategy.funding_fee_enabled s)
            || (Strategy.len (Strategy.positions s) =? 0)%Z); [reflexivity |].
  destruct (get_prev_own_date _ _ _ _ Hin Hlt) as (ts & rate & Hp & Hb).
  rewrite Hp.
  assert (Hne : Qeq_bool (inject_Z ts) t = false).
  { destruct (Qeq_bool (inject_Z ts) t) eqn:E; [| reflexivity].
    apply Qeq_bool_iff in E. pose proof (to_seconds_le t). lra. }
  rewrite Hne, andb_false_r. reflexivity.
Qed.

Lemma no_funding_after_an_earlier_event_of_the_date_witness :
  In (1736150400%Z, 0.0002)
     (FeeRate.daily (Strategy.fee_provider Examples.afternoon_ledger)
        (FeeRate.date_of (FeeRate.to_seconds 1736150400)))
  /\ Strategy.process_funding_fees Examples.afternoon_ledger 1736150400
     = Examples.afternoon_ledger.
Proof.
  split; [right; left; reflexivity |].
  apply (no_funding_after_an_earlier_event_of_the_date
           Examples.afternoon_ledger 1736150400 1736121600 0.0001).
  - left. reflexivity.
  - reflexivity.
Defined.

(** ** The funding cache *)

Section FundingCache.

Import FeeRate FeeCache.

Lemma dict_get_set k k' v d :
  dict_get k (dict_set k' v d) = if (k' =? k)%Z then Some v else dict_get k d.
Proof.
  induction d as [| [k0 v0] d IH]; simpl.
  - reflexivity.
  - destruct (k0 =? k')%Z eqn:E0; simpl.
    + apply Z.eqb_eq in E0. subst k0.
      destruct (k' =? k)%Z; reflexivity.
    + destruct (k0 =? k)%Z eqn:E1.
      * apply Z.eqb_eq in E1. subst k0.
        rewrite Z.eqb_sym in E0. rewrite E0. reflexivity.
      * exact IH.
Qed.

Lemma dict_get_collect k : forall items acc,
  dict_get k (fold_left (fun acc item => dict_set (Z.quot (fst item) 1000) (snd item) acc)
                items acc)
  = last_rate k items (dict_get k acc).
Proof.
  induction items as [| item items IH]; intro acc; simpl; [reflexivity |].
  rewrite IH, dict_get_set. reflexivity.
Qed.

(** Looking a key up after [update]: the other dict first. *)
Lemma dict_get_update_fold k : forall other d,
  dict_get k (dict_update d other)
  = fold_left (fun found kv => if (fst kv =? k)%Z then Some (snd kv) else found)
              other (dict_get k d).
Proof.
  unfold dict_update.
  induction other as [| [k0 v0] other IH]; intro d; simpl; [reflexivity |].
  rewrite IH, dict_get_set. reflexivity.
Qed.

Lemma dict_set_keys k v : forall d x,
  In x (map fst (dict_set k v d)) -> x = k \/ In x (map fst d).
Proof.
  induction d as [| [k0 v0] d IH]; intros x; simpl.
  - intros [H | []]; auto.
  - destruct (k0 =? k)%Z eqn:E; simpl.
    + apply Z.eqb_eq in E. subst. intros [H | H]; auto.
    + intros [H | H]; [auto |]. destruct (IH x H); auto.
Qed.

Lemma dict_set_distinct k v : forall d,
  keys_distinct d -> keys_distinct (dict_set k v d).
Proof.
  unfold keys_distinct.
  induction d as [| [k0 v0] d IH]; intro Hd; simpl.
  - constructor; [intros [] | constructor].
  - inversion Hd as [| x l Hnin Hnd]; subst.
    destruct (k0 =? k)%Z eqn:E; simpl.
    + apply Z.eqb_eq in E. subst. constructor; assumption.
    + constructor; [| exact (IH Hnd)].
      intro Hin. apply dict_set_keys in Hin. destruct Hin as [Hin | Hin].
      * subst. rewrite Z.eqb_refl in E. discriminate.
      * contradiction.
Qed.

Lemma collect_distinct items : keys_distinct (collect items).
Proof.
  unfold collect.
  assert (H : forall acc, keys_distinct acc ->
               keys_distinct
                 (fold_left (fun acc item => dict_set (Z.quot (fst item) 1000) (snd item) acc)
                    items acc)).
  { induction items as [| item items IH]; intros acc Ha; simpl; [exact Ha |].
    apply IH, dict_set_distinct, Ha. }
  apply H. constructor.
Qed.

Lemma fold_lookup_distinct k : forall other found,
  keys_distinct other ->
  fold_left (fun found kv => if (fst kv =? k)%Z then Some (snd kv) else found)
            other found
  = match dict_get k other with
    | Some v => Some v
    | None => found
    end.
Proof.
  unfold keys_distinct.
  induction other as [| [k0 v0] other IH]; intros found Hd; simpl; [reflexivity |].
  inversion Hd as [| x l Hnin Hnd]; subst.
  rewrite (IH _ Hnd). destruct (k0 =? k)%Z eqn:E; [| reflexivity].
  apply Z.eqb_eq in E. subst k0.
  assert (Hn : dict_get k other = None).
  { clear -Hnin. induction other as [| [k1 v1] other IH]; simpl; [reflexivity |].
    destruct (k1 =? k)%Z eqn:E1.
    - apply Z.eqb_eq in E1. subst. exfalso. apply Hnin. left. reflexivity.
    - apply IH. intro H. apply Hnin. right. exact H. }
  rewrite Hn. reflexivity.
Qed.

Lemma last_rate_app k : forall i1 i2 found,
  last_rate k (i1 ++ i2) found = last_rate k i2 (last_rate k i1 found).
Proof.
  induction i1 as [| item i1 IH]; intros i2 found; simpl; [reflexivity | apply IH].
Qed.

Lemma last_rate_default k : forall items found,
  last_rate k items found
  = match last_rate k items None with
    | Some v => Some v
    | None => found
    end.
Proof.
  induction items as [| item items IH]; intro found; simpl; [reflexivity |].
  destruct (Z.quot (fst item) 1000 =? k)%Z; [| apply IH].
  rewrite (IH (Some (snd item))).
  destruct (last_rate k items None); reflexivity.
Qed.

Lemma dict_get_merged k i1 i2 :
  dict_get k (dict_update (collect i1) (collect i2))
  = last_rate k (i1 ++ i2) None.
Proof.
  rewrite dict_get_update_fold, (fold_lookup_distinct _ _ _ (collect_distinct i2)).
  unfold collect. rewrite !dict_get_collect. simpl.
  rewrite last_rate_app. symmetry. apply last_rate_default.
Qed.

End FundingCache.

(** X9.  A date is fetched once: when its cache file is missing or does
    not load and the write goes through, [get_daily_funding_rates] sends
    the two requests of the date (the day up to 23:59:59, then up to one
    second past the next midnight), stores the merged dict under the date
    and touches no other file; the next call returns the same dict from
    the file and sends nothing. *)
Theorem daily_rates_fetched_once :
  forall (api : FeeCache.Api) (w : FeeCache.World) (date : Z),
    FeeCache._load_from_cache w date = None ->
    FeeCache.write_ok w date = true ->
    let '(rates, w1) := FeeCache.get_daily_funding_rates api w date in
    FeeCache.files w1 date = FeeCache.Holds rates
    /\ (forall d, d <> date -> FeeCache.files w1 d = FeeCache.files w d)
    /\ FeeCache.requests w1
       = FeeCache.requests w
         ++ [((FeeCache.day_start date + 86399) * 1000, FeeCache.day_start date * 1000)%Z;
             ((FeeCache.day_start date + 86401) * 1000,
              (FeeCache.day_start date + 86399) * 1000)%Z]
    /\ FeeCache.get_daily_funding_rates api w1 date = (rates, w1).
Proof.
  intros api w date Hload Hw.
  unfold FeeCache.get_daily_funding_rates at 1. rewrite Hload.
  unfold FeeCache._fetch_funding_rates. cbv zeta. cbn [FeeCache.requests].
  unfold FeeCache._save_to_cache. cbn [FeeCache.write_ok FeeCache.files].
  rewrite Hw.
  split; [cbn; rewrite Z.eqb_refl; reflexivity |].
  split.
  - intros d Hd. cbn. apply Z.eqb_neq in Hd. rewrite Hd. reflexivity.
  - split.
    + cbn. rewrite <- app_assoc. simpl.
      replace (FeeCache.day_start date + 86400 + 1)%Z
        with (FeeCache.day_start date + 86401)%Z by lia.
      reflexivity.
    + unfold FeeCache.get_daily_funding_rates, FeeCache._load_from_cache.
      cbn. rewrite Z.eqb_refl. reflexivity.
Qed.

Lemma daily_rates_fetched_once_witness :
  let '(rates, w1) :=
    FeeCache.get_daily_funding_rates Examples.two_event_api Examples.cold_world 20094 in
  FeeCache.files w1 20094%Z = FeeCache.Holds rates
  /\ (forall d, d <> 20094%Z -> FeeCache.files w1 d = FeeCache.files Examples.cold_world d)
  /\ FeeCache.requests w1
     = FeeCache.requests Examples.cold_world
       ++ [((FeeCache.day_start 20094 + 86399) * 1000, FeeCache.day_start 20094 * 1000)%Z;
           ((FeeCache.day_start 20094 + 86401) * 1000,
            (FeeCache.day_start 20094 + 86399) * 1000)%Z]
  /\ FeeCache.get_daily_funding_rates Examples.two_event_api w1 20094 = (rates, w1).
Proof.
  apply (daily_rates_fetched_once Examples.two_event_api Examples.cold_world 20094).
  - reflexivity.
  - reflexivity.
Defined.

(** X10.  The dict a cache miss returns maps a timestamp in seconds to the
    rate of the last item bearing it over the two answers, the answer to
    the next-midnight request after the answer for the day; a timestamp no
    item bears is not a key. *)
Theorem fetched_rates_hold_the_last_item :
  forall (api : FeeCache.Api) (w : FeeCache.World) (date k : Z),
    FeeCache._load_from_cache w date = None ->
    FeeCache.dict_get k (fst (FeeCache.get_daily_funding_rates api w date))
    = FeeCache.last_rate k
        (api ((FeeCache.day_start date + 86399) * 1000)%Z
             (FeeCache.day_start date * 1000)%Z
         ++ api ((FeeCache.day_start date + 86401) * 1000)%Z
                ((FeeCache.day_start date + 86399) * 1000)%Z)
        None.
Proof.
  intros api w date k Hload.
  unfold FeeCache.get_daily_funding_rates. rewrite Hload.
  unfold FeeCache._fetch_funding_rates. cbv zeta. cbn [fst].
  replace (FeeCache.day_start date + 86400 + 1)%Z
    with (FeeCache.day_start date + 86401)%Z by lia.
  apply dict_get_merged.
Qed.

Lemma fetched_rates_hold_the_last_item_witness :
  FeeCache.dict_get 1736150400
    (fst (FeeCache.get_daily_funding_rates Examples.two_event_api
            Examples.cold_world 20094))
  = FeeCache.last_rate 1736150400
      (Examples.two_event_api ((FeeCache.day_start 20094 + 86399) * 1000)%Z
         (FeeCache.day_start 20094 * 1000)%Z
       ++ Examples.two_event_api ((FeeCache.day_start 20094 + 86401) * 1000)%Z
            ((FeeCache.day_start 20094 + 86399) * 1000)%Z)
      None.
Proof.
  apply (fetched_rates_hold_the_last_item Examples.two_event_api
           Examples.cold_world 20094 1736150400).
  reflexivity.
Defined.

(** ** The signals and the funding sign *)

(** X11.  An entry signal is -1, 0 or 1.  On a bar near a settlement whose
    next funding event has a rate, the signal follows the sign of the
    rate: a positive rate never gives a long signal, a rate that is zero
    or negative never gives a short signal. *)
Theorem entry_signal_follows_the_funding_sign :
  forall (sig : Signals.TradingSignalFirst) (data : list Bar) (bar : Bar) (v : Z),
    iloc_last data = Ok bar ->
    Signals.get_entry_signal sig data = Ok v ->
    (v = (-1)%Z \/ v = 0%Z \/ v = 1%Z)
    /\ (Signals._is_near_settlement (exchange_timestamp bar) = true ->
        forall ts rate,
          Signals._get_next_funding sig (exchange_timestamp bar) = FeeRate.Found ts rate ->
          (0 < rate -> v <> 1%Z) /\ (rate <= 0 -> v <> (-1)%Z)).
Proof.
  intros sig data bar v Hl. unfold Signals.get_entry_signal.
  rewrite Hl. cbn [bind]. cbv zeta.
  unfold FeeRate.tuple_truthy. rewrite andb_true_r.
  destruct (Signals._is_near_settlement (exchange_timestamp bar)) eqn:En.
  - destruct (Signals._get_next_funding sig (exchange_timestamp bar)) as [ts0 r0 |];
      cbn [FeeRate.tuple_rate Signals.gt_or_TypeError bind]; [| discriminate].
    destruct (Qgtb r0 0) eqn:Eg.
    + apply Qgtb_true in Eg.
      destruct (f64_gt _ _); intro H; inversion H; subst;
        (split; [auto |]); intros _ ts rate Hf; inversion Hf; subst;
        split; intros; try discriminate; lra.
    + apply Qgtb_false in Eg.
      destruct (f64_lt _ _); intro H; inversion H; subst;
        (split; [auto |]); intros _ ts rate Hf; inversion Hf; subst;
        split; intros; try discriminate; lra.
  - destruct (f64_gt _ _); [| destruct (f64_lt _ _)];
      intro H; inversion H; subst; (split; [auto | discriminate]).
Qed.

Lemma entry_signal_follows_the_funding_sign_witness :
  Signals._is_near_settlement (exchange_timestamp Examples.near_settlement_bar) = true
  /\ Signals._get_next_funding (Signals.init Examples.afternoon_provider)
       (exchange_timestamp Examples.near_settlement_bar)
     = FeeRate.Found 1736150400 0.0002
  /\ Signals.get_entry_signal (Signals.init Examples.afternoon_provider)
       [Examples.near_settlement_bar] = Ok (-1)%Z
  /\ ((-1)%Z = (-1)%Z \/ (-1)%Z = 0%Z \/ (-1)%Z = 1%Z)
  /\ (Signals._is_near_settlement (exchange_timestamp Examples.near_settlement_bar)
      = true ->
      forall ts rate,
        Signals._get_next_funding (Signals.init Examples.afternoon_provider)
          (exchange_timestamp Examples.near_settlement_bar) = FeeRate.Found ts rate ->
        (0 < rate -> (-1)%Z <> 1%Z) /\ (rate <= 0 -> (-1)%Z <> (-1)%Z)).
Proof.
  split; [vm_compute; reflexivity |].
  split; [vm_compute; reflexivity |].
  split; [vm_compute; reflexivity |].
  apply (entry_signal_follows_the_funding_sign
           (Signals.init Examples.afternoon_provider) [Examples.near_settlement_bar]
           Examples.near_settlement_bar (-1)%Z).
  - reflexivity.
  - vm_compute. reflexivity.
Defined.

(** X12.  With the thresholds of [__init__] the entry band and the exit
    band of a side do not meet: whenever the data gives an entry signal for
    a side, the exit signal for a position of that side on the same data
    is 0. *)
Theorem entry_and_exit_bands_are_disjoint :
  forall (prov : FeeRate.FeeRateProvider) (data : list Bar) (v : Z),
    Signals.get_entry_signal (Signals.init prov) data = Ok v ->
    v <> 0%Z ->
    Signals.get_exit_signal (Signals.init prov) data
      (if (v >? 0)%Z then long else short) = Ok 0%Z.
Proof.
  intros prov data v. unfold Signals.get_entry_signal, Signals.get_exit_signal.
  destruct (iloc_last data) as [bar |]; cbn [bind]; [| discriminate].
  cbv zeta.
  set (ratio := np_div (bar_swap_price bar) (bar_spot_price bar)).
  unfold FeeRate.tuple_truthy. rewrite andb_true_r.
  cbn [Signals.init Signals.short_in_threshold Signals.short_out_threshold
       Signals.long_in_threshold Signals.long_out_threshold
       Signals.short_in_threshold_near_positive_fee
       Signals.short_out_threshold_near_positive_fee
       Signals.long_in_threshold_near_negative_fee
       Signals.long_out_threshold_near_negative_fee].
  destruct (Signals._is_near_settlement (exchange_timestamp bar)).
  - destruct (Signals._get_next_funding _ (exchange_timestamp bar)) as [ts0 r0 |];
      cbn [FeeRate.tuple_rate Signals.gt_or_TypeError Signals.lt_or_TypeError bind];
      [| discriminate].
    destruct (Qgtb r0 0) eqn:Eg.
    + destruct (f64_gt ratio 1.000500) eqn:Er; intro H; inversion H; subst;
        [| congruence].
      intros _. cbn [Z.gtb Z.compare].
      cbn [bind Signals.gt_or_TypeError FeeRate.tuple_rate].
      rewrite (f64_gt_not_lt ratio 1.000500 0.999750 ltac:(lra) Er). reflexivity.
    + destruct (f64_lt ratio 0.999250) eqn:Er; intro H; inversion H; subst;
        [| congruence].
      intros _. cbn [Z.gtb Z.compare].
      cbn [bind Signals.lt_or_TypeError FeeRate.tuple_rate].
      destruct (Qltb r0 0).
      * rewrite (f64_lt_not_gt ratio 0.999250 1.000250 ltac:(lra) Er). reflexivity.
      * rewrite (f64_lt_not_gt ratio 0.999250 1.000001 ltac:(lra) Er). reflexivity.
  - cbn [bind].
    destruct (f64_gt ratio 1.000758) eqn:Es.
    + intro H; inversion H; subst. intros _. cbn [Z.gtb Z.compare].
      rewrite (f64_gt_not_lt ratio 1.000758 0.999999 ltac:(lra) Es). reflexivity.
    + destruct (f64_lt ratio 0.999000) eqn:El; intro H; inversion H; subst;
        [| congruence].
      intros _. cbn [Z.gtb Z.compare].
      rewrite (f64_lt_not_gt ratio 0.999000 1.000001 ltac:(lra) El). reflexivity.
Qed.

Lemma entry_and_exit_bands_are_disjoint_witness :
  Signals.get_exit_signal (Signals.init Examples.empty_provider)
    [Examples.first_bar] (if (-1 >? 0)%Z then long else short) = Ok 0%Z.
Proof.
  apply (entry_and_exit_bands_are_disjoint Examples.empty_provider
           [Examples.first_bar] (-1)%Z).
  - vm_compute. reflexivity.
  - discriminate.
Defined.

(** ** Invariants of the ledger *)

Section LedgerInvariants.

Import FeeRate Strategy Backtester.

Lemma settle_fields t r p :
  position_type (settle t r p) = position_type p
  /\ position_id (settle t r p) = position_id p
  /\ swap_price (settle t r p) = swap_price p
  /\ spot_price (settle t r p) = spot_price p
  /\ amount (settle t r p) = amount p
  /\ entry_time (settle t r p) = entry_time p.
Proof. unfold settle. destruct (Qltb (entry_time p) t); repeat split. Qed.

(** What a call of [process_funding_fees] changes: nothing, or the
    positions, the capital and the funding total. *)
Lemma process_funding_fees_cases s t :
  let s' := process_funding_fees s t in
  s' = s
  \/ (exists r,
        positions s' = map (settle t r) (positions s)
        /\ capital s' == capital s + funding_total t r (positions s)
        /\ total_funding_fee s' == total_funding_fee s + funding_total t r (positions s)
        /\ total_pnl s' = total_pnl s
        /\ total_fee s' = total_fee s
        /\ initial_capital s' = initial_capital s
        /\ max_positions s' = max_positions s
        /\ next_position_id s' = next_position_id s
        /\ current_position_type s' = current_position_type s
        /\ last_entry_time s' = last_entry_time s
        /\ next_funding_time s' = next_funding_time s
        /\ signal s' = signal s
        /\ closed_positions s' = closed_positions s
        /\ win_count s' = win_count s
        /\ trade_count s' = trade_count s).
Proof.
  unfold process_funding_fees.
  destruct (negb (funding_fee_enabled s) || (len (positions s) =? 0)%Z);
    [left; reflexivity |].
  destruct (get_prev_funding_rate (fee_provider s) t) as [ts r |]; [| left; reflexivity].
  destruct (truthy (Some ts) && Qeq_bool (inject_Z ts) t); [| left; reflexivity].
  pose proof (accrue_spec t r (positions s) (capital s) (total_funding_fee s)) as Ha.
  destruct (accrue _ _ _ _ _) as [[ps cap] total]. destruct Ha as (Hp & Hc & Ht).
  right. exists r. simpl. repeat split; assumption.
Qed.

Lemma refresh_next_funding_time_cases s t :
  refresh_next_funding_time s t = s
  \/ exists v, refresh_next_funding_time s t = set_next_funding_time v s.
Proof.
  unfold refresh_next_funding_time.
  destruct (match next_funding_time s with
            | Some nft => Qgeb t (inject_Z nft)
            | None => true
            end); [| left; reflexivity].
  destruct (tuple_truthy _ && truthy _); [right; eauto | left; reflexivity].
Qed.

(** The fields closing a position leaves alone. *)
Lemma close_position_frame s p sw sp :
  let s' := fst (close_position s p sw sp) in
  total_funding_fee s' = total_funding_fee s
  /\ next_position_id s' = next_position_id s
  /\ last_entry_time s' = last_entry_time s
  /\ next_funding_time s' = next_funding_time s
  /\ signal s' = signal s.
Proof.
  unfold close_position. cbv zeta.
  destruct (Qgtb (calculate_pnl p sw sp) 0); simpl; repeat split.
Qed.

Lemma close_step_cases s p sw sp :
  close_step s p sw sp = fst (close_position s p sw sp)
  \/ (positions (fst (close_position s p sw sp)) = []
      /\ close_step s p sw sp
         = set_current_position_type None (fst (close_position s p sw sp))).
Proof.
  unfold close_step.
  destruct (positions (fst (close_position s p sw sp))) as [| q l] eqn:E.
  - right. split; reflexivity.
  - left. reflexivity.
Qed.

(** The fields opening a position leaves alone, and the two it sets. *)
Lemma open_position_frame s pt t sw sp s' tr :
  open_position s pt t sw sp = Ok (s', tr) ->
  total_funding_fee s' = total_funding_fee s
  /\ next_position_id s' = (next_position_id s + 1)%Z
  /\ last_entry_time s' = t
  /\ next_funding_time s' = next_funding_time s
  /\ signal s' = signal s
  /\ closed_positions s' = closed_positions s.
Proof.
  unfold open_position.
  destruct (calculate_trade_amount s sw sp) as [a |]; cbn [bind]; [| discriminate].
  intro H. inversion H; subst. simpl. repeat split.
Qed.

Lemma remove_position_split p : forall l,
  remove_position p l = l
  \/ exists l1 q l2, l = l1 ++ q :: l2 /\ remove_position p l = l1 ++ l2.
Proof.
  induction l as [| q l IH]; [left; reflexivity |]. cbn [remove_position].
  destruct (position_id q =? position_id p)%Z.
  - right. exists [], q, l. split; reflexivity.
  - destruct IH as [IH | (l1 & q0 & l2 & Hl & Hr)].
    + left. rewrite IH. reflexivity.
    + right. exists (q :: l1), q0, l2. rewrite Hr, Hl. split; reflexivity.
Qed.

Lemma remove_position_In p l x : In x (remove_position p l) -> In x l.
Proof.
  destruct (remove_position_split p l) as [H | (l1 & q & l2 & Hl & Hr)].
  - rewrite H. auto.
  - rewrite Hr, Hl. rewrite !in_app_iff. simpl. tauto.
Qed.

Lemma remove_position_length p l :
  (length (remove_position p l) <= length l)%nat.
Proof.
  destruct (remove_position_split p l) as [H | (l1 & q & l2 & Hl & Hr)].
  - rewrite H. lia.
  - rewrite Hr, Hl. rewrite !length_app. simpl. lia.
Qed.

Lemma remove_position_NoDup p l :
  NoDup (map position_id l) -> NoDup (map position_id (remove_position p l)).
Proof.
  destruct (remove_position_split p l) as [H | (l1 & q & l2 & Hl & Hr)].
  - rewrite H. auto.
  - rewrite Hr, Hl. rewrite !map_app. simpl. apply NoDup_remove_1.
Qed.

(** The exit loop keeps what closing a position keeps. *)
Lemma exit_loop_invariant (I : TradingStratsFirst -> Prop) data sw sp :
  (forall s p, I s -> I (close_step s p sw sp)) ->
  forall snapshot s tr s' tr',
    I s -> exit_loop snapshot data sw sp s tr = Ok (s', tr') -> I s'.
Proof.
  intro Hclose.
  induction snapshot as [| p snapshot IH]; intros s tr s' tr' Hs.
  - simpl. intro H. inversion H; subst. exact Hs.
  - rewrite exit_loop_cons.
    destruct (Signals.get_exit_signal (signal s) data (position_type p))
      as [sg |]; cbn [bind]; [| discriminate].
    destruct (sg >? 0)%Z; apply IH; auto.
Qed.

(** What the entry part does when it opens a position. *)
Lemma entry_step_opened data t sw sp s trades s' trades' :
  entry_step data t sw sp s trades = Ok (s', trades') ->
  (s' = s /\ trades' = trades)
  \/ (exists v tr,
        Signals.get_entry_signal (signal s) data = Ok v
        /\ v <> 0%Z
        /\ (len (positions s) < max_positions s)%Z
        /\ (forall nft, next_funding_time s = Some nft -> nft <> 0%Z ->
                        t <= inject_Z nft - 800)
        /\ 3600 <= t - last_entry_time s
        /\ can_open_position s (if (v >? 0)%Z then long else short) = true
        /\ open_position s (if (v >? 0)%Z then long else short) t sw sp = Ok (s', tr)
        /\ trades' = trades ++ [tr]).
Proof.
  unfold entry_step.
  destruct (len (positions s) <? max_positions s)%Z eqn:El;
    [| intro H; inversion H; subst; left; auto].
  apply Z.ltb_lt in El.
  destruct (Signals.get_entry_signal (signal s) data) as [v |];
    cbn [bind]; [| discriminate].
  destruct (truthy (next_funding_time s)
            && match next_funding_time s with
               | Some nft => Qgtb t (inject_Z nft - 800)
               | None => false
               end) eqn:Eb.
  { destruct (Qltb (t - last_entry_time s) 3600); cbn;
      intro H; inversion H; subst; left; auto. }
  destruct (Qltb (t - last_entry_time s) 3600) eqn:Ei.
  { cbn. intro H; inversion H; subst; left; auto. }
  apply Qltb_false in Ei.
  destruct (negb (v =? 0)%Z) eqn:Ev; [| intro H; inversion H; subst; left; auto].
  apply negb_true_iff, Z.eqb_neq in Ev.
  destruct (can_open_position s (if (v >? 0)%Z then long else short)) eqn:Ec;
    [| intro H; inversion H; subst; left; auto].
  destruct (open_position s (if (v >? 0)%Z then long else short) t sw sp)
    as [[s3 tr3] |] eqn:Eo; cbn [bind]; [| discriminate].
  intro H. inversion H; subst. right. exists v, tr3.
  repeat split; auto.
  intros nft Hn Hz. rewrite Hn in Eb. cbn [truthy] in Eb.
  apply Z.eqb_neq in Hz. rewrite Hz in Eb. cbn in Eb.
  apply Qgtb_false in Eb. exact Eb.
Qed.

(** [process_data] keeps what its steps keep; the opening step may rely
    on the test of [can_open_position]. *)
Lemma process_data_invariant_guarded (I : TradingStratsFirst -> Prop) :
  (forall s t, I s -> I (process_funding_fees s t)) ->
  (forall s t, I s -> I (refresh_next_funding_time s t)) ->
  (forall s p sw sp, I s -> I (close_step s p sw sp)) ->
  (forall s pt t sw sp s' tr,
      I s -> can_open_position s pt = true ->
      open_position s pt t sw sp = Ok (s', tr) -> I s') ->
  forall s data s' trades,
    I s -> process_data s data = Ok (s', trades) -> I s'.
Proof.
  intros Hfund Hrefresh Hclose Hopen s data s' trades Hs Hp.
  apply process_data_steps in Hp.
  destruct Hp as [(_ & He & _) | (bar & s2 & closes & _ & Hex & Hen)];
    [subst; exact Hs |].
  assert (Hs2 : I s2).
  { eapply exit_loop_invariant; [| | exact Hex].
    - intros s0 p H0. apply Hclose, H0.
    - apply Hrefresh, Hfund, Hs. }
  apply entry_step_cases in Hen.
  destruct Hen as [(He & _) | (pt & tr & Hc & Ho & _)]; [subst; exact Hs2 |].
  exact (Hopen _ _ _ _ _ _ _ Hs2 Hc Ho).
Qed.

Lemma liquidate_invariant (I : TradingStratsFirst -> Prop) :
  (forall s p sw sp, I s -> I (fst (close_position s p sw sp))) ->
  forall snapshot t sw sp s tr,
    I s -> I (fst (liquidate snapshot t sw sp s tr)).
Proof.
  intro Hclose.
  induction snapshot as [| p snapshot IH]; intros t sw sp s tr Hs; [exact Hs |].
  change (liquidate (p :: snapshot) t sw sp s tr)
    with (liquidate snapshot t sw sp (fst (close_position s p sw sp))
            (tr ++ [(t, snd (close_position s p sw sp))])).
  apply IH, Hclose, Hs.
Qed.

(** A property of a fresh ledger that every step keeps holds in every
    state a ledger reaches. *)
Lemma reachable_invariant (I : TradingStratsFirst -> Prop) :
  (forall cap maxp fr ffe prov, I (Strategy.init cap maxp fr ffe prov)) ->
  (forall s t, I s -> I (process_funding_fees s t)) ->
  (forall s t, I s -> I (refresh_next_funding_time s t)) ->
  (forall s p sw sp, I s -> I (fst (close_position s p sw sp))) ->
  (forall s, I s -> positions s = [] -> I (set_current_position_type None s)) ->
  (forall s pt t sw sp s' tr,
      I s -> can_open_position s pt = true ->
      open_position s pt t sw sp = Ok (s', tr) -> I s') ->
  forall s, reachable s -> I s.
Proof.
  intros Hinit Hfund Hrefresh Hclose Hunlock Hopen s Hr.
  induction Hr as [cap maxp fr ffe prov | s data s' trades _ IH Hp
                   | s df tr s' tr' _ IH Hf].
  - apply Hinit.
  - revert IH Hp. apply process_data_invariant_guarded; auto.
    intros s0 p sw sp H0.
    destruct (close_step_cases s0 p sw sp) as [E | [En E]]; rewrite E; auto.
  - unfold force_close_all in Hf. destruct (positions s) as [| p ps].
    + inversion Hf; subst. exact IH.
    + destruct (iloc_last df) as [b |]; cbn [bind] in Hf; [| discriminate].
      pose proof (liquidate_invariant I Hclose (p :: ps) (exchange_timestamp b)
                    (bar_swap_price b) (bar_spot_price b) s tr IH) as Hk.
      destruct (liquidate _ _ _ _ s tr) as [s0 tr0]. simpl in Hk.
      inversion Hf; subst. exact Hk.
Qed.

Lemma within_limit_reachable s : reachable s -> within_limit s.
Proof.
  apply reachable_invariant; unfold within_limit, len.
  - intros. simpl. lia.
  - intros s0 t H. destruct (process_funding_fees_frame s0 t)
      as (_ & Hmp & _ & _ & _ & _ & Hlen). rewrite Hmp, Hlen. exact H.
  - intros s0 t H. destruct (refresh_next_funding_time_frame s0 t)
      as (_ & Hmp & _ & _ & _ & _ & Hp). rewrite Hmp, Hp. exact H.
  - intros s0 p sw sp H. destruct (close_position_spec s0 p sw sp)
      as (_ & _ & _ & _ & _ & Hpos & _ & _ & _ & Hmp & _).
    cbv zeta in *. rewrite Hpos, Hmp.
    pose proof (remove_position_length p (positions s0)). lia.
  - intros s0 H _. exact H.
  - intros s0 pt t sw sp s1 tr H Hc Ho. apply open_position_spec in Ho.
    destruct Ho as (a & _ & _ & Hpos & _ & _ & _ & _ & Hmp & _).
    rewrite Hpos, Hmp, length_app. simpl.
    unfold can_open_position, len in Hc.
    destruct (Z.of_nat (length (positions s0)) >=? max_positions s0)%Z eqn:E;
      [discriminate |].
    lia.
Qed.

Lemma one_direction_reachable s : reachable s -> one_direction s.
Proof.
  apply reachable_invariant; unfold one_direction.
  - intros cap maxp fr ffe prov p []. 
  - intros s0 t H p. destruct (process_funding_fees_cases s0 t) as [E | (r & Hp & R)].
    + rewrite E. apply H.
    + destruct R as (_ & _ & _ & _ & _ & _ & _ & Hl & _).
      rewrite Hp, Hl. intro Hin. apply in_map_iff in Hin.
      destruct Hin as (q & Hq & Hin). subst p.
      destruct (settle_fields t r q) as (Ht & _). rewrite Ht. apply H, Hin.
  - intros s0 t H p. destruct (refresh_next_funding_time_frame s0 t)
      as (_ & _ & _ & _ & _ & Hl & Hp). rewrite Hl, Hp. apply H.
  - intros s0 p sw sp H q. destruct (close_position_spec s0 p sw sp)
      as (_ & _ & _ & _ & _ & Hpos & _ & Hl & _).
    cbv zeta in *. rewrite Hpos, Hl. intro Hin. apply H.
    exact (remove_position_In _ _ _ Hin).
  - intros s0 _ He p. simpl. rewrite He. intros [].
  - intros s0 pt t sw sp s1 tr H Hc Ho p. apply open_position_spec in Ho.
    destruct Ho as (a & _ & _ & Hpos & _ & _ & _ & _ & _ & _ & _ & _ & Hl).
    rewrite Hpos, Hl. intro Hin. apply in_app_iff in Hin.
    destruct Hin as [Hin | [Hin | []]]; [| subst p; reflexivity].
    specialize (H p Hin). unfold can_open_position in Hc.
    destruct (len (positions s0) >=? max_positions s0)%Z; [discriminate |].
    rewrite H in Hc.
    destruct (position_type p), pt; simpl in Hc; try discriminate; reflexivity.
Qed.

Lemma ids_fresh_reachable s : reachable s -> ids_fresh s.
Proof.
  apply reachable_invariant; unfold ids_fresh.
  - intros. simpl. split; [constructor | intros p []].
  - intros s0 t [Hn Hb]. destruct (process_funding_fees_cases s0 t) as [E | (r & Hp & R)].
    + rewrite E. auto.
    + destruct R as (_ & _ & _ & _ & _ & _ & Hid & _).
      rewrite Hp, Hid. split.
      * rewrite map_map.
        erewrite map_ext; [exact Hn |].
        intro q. exact (proj1 (proj2 (settle_fields t r q))).
      * intros p Hin. apply in_map_iff in Hin.
        destruct Hin as (q & Hq & Hin). subst p.
        rewrite (proj1 (proj2 (settle_fields t r q))). apply Hb, Hin.
  - intros s0 t [Hn Hb].
    destruct (refresh_next_funding_time_cases s0 t) as [E | [v E]]; rewrite E; auto.
  - intros s0 p sw sp [Hn Hb]. destruct (close_position_spec s0 p sw sp)
      as (_ & _ & _ & _ & _ & Hpos & _).
    destruct (close_position_frame s0 p sw sp) as (_ & Hid & _).
    cbv zeta in *. rewrite Hpos, Hid. split.
    + apply remove_position_NoDup, Hn.
    + intros q Hin. apply Hb. exact (remove_position_In _ _ _ Hin).
  - intros s0 H _. exact H.
  - intros s0 pt t sw sp s1 tr [Hn Hb] _ Ho.
    destruct (open_position_frame _ _ _ _ _ _ _ Ho) as (_ & Hid & _).
    apply open_position_spec in Ho.
    destruct Ho as (a & _ & _ & Hpos & _).
    rewrite Hpos, Hid. split.
    + rewrite map_app. simpl.
      apply NoDup_app; [exact Hn | constructor; [intros [] | constructor] |].
      intros x Hx [Hy | []]. subst x.
      apply in_map_iff in Hx. destruct Hx as (q & Hq & Hin).
      specialize (Hb q Hin). lia.
    + intros q Hin. apply in_app_iff in Hin.
      destruct Hin as [Hin | [Hin | []]].
      * specialize (Hb q Hin). lia.
      * subst q. simpl. lia.
Qed.

Lemma books_balance_reachable s : reachable s -> books_balance s.
Proof.
  apply reachable_invariant; unfold books_balance.
  - intros. simpl. ring.
  - intros s0 t H. destruct (process_funding_fees_cases s0 t) as [E | (r & Hp & R)].
    + rewrite E. exact H.
    + destruct R as (Hc & Hf & Htp & Htf & Hic & _).
      rewrite Hc, Hf, Htp, Htf, Hic. lra.
  - intros s0 t H.
    destruct (refresh_next_funding_time_cases s0 t) as [E | [v E]]; rewrite E; auto.
  - intros s0 p sw sp H. destruct (close_position_spec s0 p sw sp)
      as (Hc & Htp & Htf & _ & _ & _ & _ & _ & Hic & _).
    destruct (close_position_frame s0 p sw sp) as (Hff & _).
    cbv zeta in *. rewrite Hc, Htp, Htf, Hic, Hff. lra.
  - intros s0 H _. exact H.
  - intros s0 pt t sw sp s1 tr H _ Ho.
    destruct (open_position_frame _ _ _ _ _ _ _ Ho) as (Hff & _).
    apply open_position_spec in Ho.
    destruct Ho as (a & _ & _ & _ & Hc & Htf & Htp & Hic & _).
    rewrite Hc, Htf, Htp, Hic, Hff. lra.
Qed.


(** *** Only the last row of the window is read *)

Lemma iloc_last_single b : iloc_last [b] = Ok b.
Proof. reflexivity. Qed.

Lemma iloc_last_nonempty data bar : iloc_last data = Ok bar -> data <> [].
Proof. intros H E. subst. discriminate. Qed.

Lemma exit_signal_last_row sig data bar pt :
  iloc_last data = Ok bar ->
  Signals.get_exit_signal sig data pt = Signals.get_exit_signal sig [bar] pt.
Proof.
  intro H. unfold Signals.get_exit_signal. rewrite H, iloc_last_single. reflexivity.
Qed.

Lemma entry_signal_last_row sig data bar :
  iloc_last data = Ok bar ->
  Signals.get_entry_signal sig data = Signals.get_entry_signal sig [bar].
Proof.
  intro H. unfold Signals.get_entry_signal. rewrite H, iloc_last_single. reflexivity.
Qed.

Lemma exit_loop_last_row data bar sw sp :
  iloc_last data = Ok bar ->
  forall snapshot s tr,
    exit_loop snapshot data sw sp s tr = exit_loop snapshot [bar] sw sp s tr.
Proof.
  intro H. induction snapshot as [| p snapshot IH]; intros s tr; [reflexivity |].
  rewrite !exit_loop_cons. rewrite (exit_signal_last_row _ _ _ _ H).
  destruct (Signals.get_exit_signal (signal s) [bar] (position_type p)) as [sg |];
    cbn [bind]; [| reflexivity].
  destruct (sg >? 0)%Z; apply IH.
Qed.

Lemma process_data_last_row s data bar :
  iloc_last data = Ok bar -> process_data s data = process_data s [bar].
Proof.
  intro H. unfold process_data.
  destruct data as [| b0 data0]; [discriminate |].
  rewrite H, iloc_last_single. cbn [bind].
  rewrite (exit_loop_last_row _ _ _ _ H).
  destruct (exit_loop _ [bar] _ _ _ []) as [[s2 closes] |]; cbn [bind];
    [| reflexivity].
  unfold entry_step. rewrite (entry_signal_last_row _ _ _ H). reflexivity.
Qed.

(** *** Exits are all or nothing *)

Lemma close_step_signal s p sw sp : signal (close_step s p sw sp) = signal s.
Proof.
  destruct (close_position_frame s p sw sp) as (_ & _ & _ & _ & Hs).
  destruct (close_step_cases s p sw sp) as [E | [_ E]]; rewrite E; exact Hs.
Qed.

(** When the exit signal of the side is not positive the loop changes
    nothing. *)
Lemma exit_loop_none data sw sp pt sg :
  (sg >? 0)%Z = false ->
  forall snapshot s tr,
    (forall p, In p snapshot -> position_type p = pt) ->
    Signals.get_exit_signal (signal s) data pt = Ok sg ->
    exit_loop snapshot data sw sp s tr = Ok (s, tr).
Proof.
  intro Hsg. induction snapshot as [| p snapshot IH]; intros s tr Hall Hg;
    [reflexivity |].
  rewrite exit_loop_cons, (Hall p (or_introl eq_refl)), Hg. cbn [bind].
  rewrite Hsg. apply IH; [| exact Hg].
  intros q Hq. apply Hall. right. exact Hq.
Qed.

(** When it is positive the loop closes every position, in order. *)
Lemma exit_loop_all data sw sp pt sg :
  (sg >? 0)%Z = true ->
  forall snapshot s tr s' tr',
    (forall p, In p snapshot -> position_type p = pt) ->
    Signals.get_exit_signal (signal s) data pt = Ok sg ->
    positions s = snapshot ->
    snapshot <> [] ->
    exit_loop snapshot data sw sp s tr = Ok (s', tr') ->
    positions s' = []
    /\ current_position_type s' = None
    /\ closed_positions s' = closed_positions s ++ snapshot
    /\ trade_count s' = (trade_count s + len snapshot)%Z
    /\ tr' = tr ++ map (fun p => (close, position_type p, amount p, sw, sp)) snapshot.
Proof.
  intro Hsg. induction snapshot as [| p snapshot IH];
    intros s tr s' tr' Hall Hg Hpos Hne; [congruence |].
  rewrite exit_loop_cons, (Hall p (or_introl eq_refl)), Hg. cbn [bind].
  rewrite Hsg.
  destruct (close_position_spec s p sw sp)
    as (_ & _ & _ & Htc & _ & Hp & Hcl & Hlock & _ & _ & _ & Htr).
  cbv zeta in *. rewrite Hpos in Hp. cbn [remove_position] in Hp.
  rewrite Z.eqb_refl in Hp.
  destruct snapshot as [| q snapshot].
  - cbn [exit_loop]. intro H. inversion H; subst s' tr'.
    assert (Hstep : close_step s p sw sp
                    = set_current_position_type None (fst (close_position s p sw sp))).
    { unfold close_step. rewrite Hp. reflexivity. }
    rewrite Hstep. unfold set_current_position_type.
    cbn [positions current_position_type closed_positions trade_count map].
    rewrite Hp, Hcl, Htc. unfold len. cbn [length].
    repeat split; reflexivity.
  - intro H.
    assert (Hstep : close_step s p sw sp = fst (close_position s p sw sp)).
    { unfold close_step. rewrite Hp. reflexivity. }
    apply IH in H.
    + destruct H as (H1 & H2 & H3 & H4 & H5).
      rewrite Hstep in H3, H4. rewrite Hcl in H3. rewrite Htc in H4.
      repeat split; auto.
      * rewrite H3, <- app_assoc. reflexivity.
      * rewrite H4. unfold len. cbn [length]. lia.
      * rewrite H5, Htr, <- app_assoc. reflexivity.
    + intros x Hx. apply Hall. right. exact Hx.
    + rewrite close_step_signal. exact Hg.
    + rewrite Hstep. exact Hp.
    + discriminate.
Qed.

Lemma exit_loop_all_or_none data sw sp s tr s' tr' :
  one_direction s ->
  exit_loop (positions s) data sw sp s tr = Ok (s', tr') ->
  (s' = s /\ tr' = tr)
  \/ (positions s <> []
      /\ positions s' = []
      /\ current_position_type s' = None
      /\ closed_positions s' = closed_positions s ++ positions s
      /\ trade_count s' = (trade_count s + len (positions s))%Z
      /\ tr' = tr ++ map (fun p => (close, position_type p, amount p, sw, sp))
                         (positions s)).
Proof.
  intros Hd He.
  destruct (positions s) as [| p ps] eqn:Ep.
  - inversion He; subst. left. auto.
  - assert (Hall : forall q, In q (p :: ps) -> position_type q = position_type p).
    { intros q Hq. rewrite <- Ep in Hq.
      pose proof (Hd q Hq) as H1.
      assert (Hp : In p (positions s)) by (rewrite Ep; left; reflexivity).
      pose proof (Hd p Hp) as H2. congruence. }
    destruct (Signals.get_exit_signal (signal s) data (position_type p))
      as [sg |] eqn:Eg.
    + destruct (sg >? 0)%Z eqn:Esg.
      * right. split; [discriminate |].
        exact (exit_loop_all data sw sp _ sg Esg (p :: ps) s tr s' tr'
                 Hall Eg Ep ltac:(discriminate) He).
      * rewrite (exit_loop_none data sw sp _ sg Esg (p :: ps) s tr Hall Eg) in He.
        inversion He; subst. left. auto.
    + rewrite exit_loop_cons, Eg in He. discriminate.
Qed.


(** *** Where the prices stand when a signal fires *)

Lemma ratio_above sw sp c :
  0 < sp -> 1 <= c -> c < sw / sp -> sp < sw.
Proof.
  intros Hsp Hc Hr.
  assert (Hm : sw == sw / sp * sp) by (field; lra).
  set (r := sw / sp) in *. nra.
Qed.

Lemma ratio_below sw sp c :
  0 < sp -> c <= 1 -> sw / sp < c -> sw < sp.
Proof.
  intros Hsp Hc Hr.
  assert (Hm : sw == sw / sp * sp) by (field; lra).
  set (r := sw / sp) in *. nra.
Qed.

(** With the thresholds of [__init__] and a positive spot price, an exit
    signal for a long position fires only above parity, for a short one
    only below. *)
Lemma exit_signal_parity prov data bar pt sg :
  iloc_last data = Ok bar ->
  0 < bar_spot_price bar ->
  Signals.get_exit_signal (Signals.init prov) data pt = Ok sg ->
  (sg >? 0)%Z = true ->
  match pt with
  | long => bar_spot_price bar < bar_swap_price bar
  | short => bar_swap_price bar < bar_spot_price bar
  end.
Proof.
  intros Hl Hsp. unfold Signals.get_exit_signal. rewrite Hl. cbn [bind].
  cbv zeta. rewrite (np_div_finite _ (bar_spot_price bar) ltac:(lra)).
  cbn [f64_gt f64_lt].
  destruct pt.
  - match goal with
    | |- bind ?c _ = _ -> _ => destruct c as [adj |]; cbn [bind]; [| discriminate]
    end.
    destruct adj; cbn [Signals.init Signals.long_out_threshold
                       Signals.long_out_threshold_near_negative_fee].
    + destruct (Qgtb _ 1.000250) eqn:E; intro H; inversion H; subst; [| discriminate].
      intros _. apply Qgtb_true in E.
      apply (ratio_above _ _ 1.000250); [exact Hsp | lra | exact E].
    + destruct (Qgtb _ 1.000001) eqn:E; intro H; inversion H; subst; [| discriminate].
      intros _. apply Qgtb_true in E.
      apply (ratio_above _ _ 1.000001); [exact Hsp | lra | exact E].
  - match goal with
    | |- bind ?c _ = _ -> _ => destruct c as [adj |]; cbn [bind]; [| discriminate]
    end.
    destruct adj; cbn [Signals.init Signals.short_out_threshold
                       Signals.short_out_threshold_near_positive_fee].
    + destruct (Qltb _ 0.999750) eqn:E; intro H; inversion H; subst; [| discriminate].
      intros _. apply Qltb_true in E.
      apply (ratio_below _ _ 0.999750); [exact Hsp | lra | exact E].
    + destruct (Qltb _ 0.999999) eqn:E; intro H; inversion H; subst; [| discriminate].
      intros _. apply Qltb_true in E.
      apply (ratio_below _ _ 0.999999); [exact Hsp | lra | exact E].
Qed.

(** An entry signal for the long side fires only below parity, for the
    short side only above. *)
Lemma entry_signal_parity prov data bar v :
  iloc_last data = Ok bar ->
  0 < bar_spot_price bar ->
  Signals.get_entry_signal (Signals.init prov) data = Ok v ->
  v <> 0%Z ->
  if (v >? 0)%Z
  then bar_swap_price bar < bar_spot_price bar
  else bar_spot_price bar < bar_swap_price bar.
Proof.
  intros Hl Hsp. unfold Signals.get_entry_signal. rewrite Hl. cbn [bind].
  cbv zeta. rewrite (np_div_finite _ (bar_spot_price bar) ltac:(lra)).
  cbn [f64_gt f64_lt].
  cbn [Signals.init Signals.short_in_threshold Signals.long_in_threshold
       Signals.short_in_threshold_near_positive_fee
       Signals.long_in_threshold_near_negative_fee].
  destruct (Signals._is_near_settlement (exchange_timestamp bar) && _).
  - match goal with
    | |- bind ?c _ = _ -> _ => destruct c as [pos |]; cbn [bind]; [| discriminate]
    end.
    destruct pos.
    + destruct (Qgtb _ 1.000500) eqn:E; intro H; inversion H; subst; [| congruence].
      intros _. cbn. apply Qgtb_true in E.
      apply (ratio_above _ _ 1.000500); [exact Hsp | lra | exact E].
    + destruct (Qltb _ 0.999250) eqn:E; intro H; inversion H; subst; [| congruence].
      intros _. cbn. apply Qltb_true in E.
      apply (ratio_below _ _ 0.999250); [exact Hsp | lra | exact E].
  - destruct (Qgtb _ 1.000758) eqn:E.
    + intro H; inversion H; subst. intros _. cbn. apply Qgtb_true in E.
      apply (ratio_above _ _ 1.000758); [exact Hsp | lra | exact E].
    + destruct (Qltb _ 0.999000) eqn:E'; intro H; inversion H; subst; [| congruence].
      intros _. cbn. apply Qltb_true in E'.
      apply (ratio_below _ _ 0.999000); [exact Hsp | lra | exact E'].
Qed.

Lemma calculate_pnl_negative p sw sp :
  off_parity p ->
  match position_type p with
  | long => sp < sw
  | short => sw < sp
  end ->
  calculate_pnl p sw sp < 0.
Proof.
  unfold off_parity, calculate_pnl. intros [Ha Hp] Hn.
  destruct (position_type p); nra.
Qed.

Lemma close_step_spec s p sw sp :
  let s' := close_step s p sw sp in
  total_pnl s' = total_pnl s + calculate_pnl p sw sp
  /\ trade_count s' = (trade_count s + 1)%Z
  /\ win_count s' = (if Qgtb (calculate_pnl p sw sp) 0
                     then win_count s + 1 else win_count s)%Z
  /\ positions s' = remove_position p (positions s)
  /\ signal s' = signal s
  /\ initial_capital s' = initial_capital s
  /\ max_positions s' = max_positions s
  /\ last_entry_time s' = last_entry_time s
  /\ next_position_id s' = next_position_id s
  /\ next_funding_time s' = next_funding_time s.
Proof.
  destruct (close_position_spec s p sw sp)
    as (_ & Htp & _ & Htc & Hwc & Hpos & _ & _ & Hic & Hmp & _).
  destruct (close_position_frame s p sw sp) as (_ & Hid & Hle & Hnf & Hsg).
  cbv zeta in *.
  destruct (close_step_cases s p sw sp) as [E | [_ E]]; rewrite E;
    unfold set_current_position_type;
    cbn [total_pnl trade_count win_count positions signal initial_capital
         max_positions last_entry_time next_position_id next_funding_time];
    repeat split; assumption.
Qed.

(** The part of the state the funding step and the refresh of the next
    settlement time leave alone. *)
Lemma before_exits_frame s t :
  let s1 := refresh_next_funding_time (process_funding_fees s t) t in
  signal s1 = signal s
  /\ win_count s1 = win_count s
  /\ trade_count s1 = trade_count s
  /\ total_pnl s1 = total_pnl s
  /\ initial_capital s1 = initial_capital s
  /\ max_positions s1 = max_positions s
  /\ last_entry_time s1 = last_entry_time s
  /\ next_position_id s1 = next_position_id s
  /\ closed_positions s1 = closed_positions s
  /\ current_position_type s1 = current_position_type s
  /\ (positions s1 = positions s
      \/ exists r, positions s1 = map (settle t r) (positions s)).
Proof.
  cbv zeta.
  assert (H1 : let s0 := process_funding_fees s t in
               signal s0 = signal s /\ win_count s0 = win_count s
               /\ trade_count s0 = trade_count s /\ total_pnl s0 = total_pnl s
               /\ initial_capital s0 = initial_capital s
               /\ max_positions s0 = max_positions s
               /\ last_entry_time s0 = last_entry_time s
               /\ next_position_id s0 = next_position_id s
               /\ closed_positions s0 = closed_positions s
               /\ current_position_type s0 = current_position_type s
               /\ (positions s0 = positions s
                   \/ exists r, positions s0 = map (settle t r) (positions s))).
  { cbv zeta. destruct (process_funding_fees_cases s t) as [E | (r & Hp & R)].
    - rewrite E. repeat split; auto.
    - destruct R as (_ & _ & Htp & _ & Hic & Hmp & Hid & Hl & Hle & _ & Hsg
                     & Hcl & Hwc & Htc).
      repeat split; auto. right. exists r. exact Hp. }
  cbv zeta in H1.
  destruct (refresh_next_funding_time_cases (process_funding_fees s t) t)
    as [E | [v E]]; rewrite E; [exact H1 |].
  unfold set_next_funding_time.
  cbn [signal win_count trade_count total_pnl initial_capital max_positions
       last_entry_time next_position_id closed_positions current_position_type
       positions].
  exact H1.
Qed.

Lemma settle_off_parity t r p : off_parity p -> off_parity (settle t r p).
Proof.
  unfold off_parity.
  destruct (settle_fields t r p) as (Ht & _ & Hsw & Hsp & Ha & _).
  rewrite Ht, Hsw, Hsp, Ha. auto.
Qed.

(** With the thresholds of [__init__] and a positive spot price, every
    position the exit loop closes is closed at a loss. *)
Lemma exit_loop_never_wins prov data bar :
  iloc_last data = Ok bar ->
  0 < bar_spot_price bar ->
  forall snapshot s tr s' tr',
    signal s = Signals.init prov ->
    Forall off_parity snapshot ->
    exit_loop snapshot data (bar_swap_price bar) (bar_spot_price bar) s tr
    = Ok (s', tr') ->
    signal s' = signal s
    /\ win_count s' = win_count s
    /\ total_pnl s' <= total_pnl s
    /\ ((trade_count s < trade_count s')%Z -> total_pnl s' < total_pnl s)
    /\ (trade_count s <= trade_count s')%Z
    /\ (forall q, In q (positions s') -> In q (positions s))
    /\ initial_capital s' = initial_capital s.
Proof.
  intros Hl Hsp.
  induction snapshot as [| p snapshot IH]; intros s tr s' tr' Hsig Hall.
  - cbn [exit_loop]. intro H. inversion H; subst.
    repeat split; auto; try lra; lia.
  - rewrite exit_loop_cons.
    destruct (Signals.get_exit_signal (signal s) data (position_type p))
      as [sg |] eqn:Eg; cbn [bind]; [| discriminate].
    inversion Hall as [| x l Hp Hrest]; subst.
    destruct (sg >? 0)%Z eqn:Esg; [| apply IH; assumption].
    intro H.
    destruct (close_step_spec s p (bar_swap_price bar) (bar_spot_price bar))
      as (Htp & Htc & Hwc & Hpos & Hsg & Hic & _).
    cbv zeta in *.
    rewrite Hsig in Eg.
    pose proof (exit_signal_parity _ _ _ _ _ Hl Hsp Eg Esg) as Hpar.
    pose proof (calculate_pnl_negative p _ _ Hp Hpar) as Hneg.
    assert (Hnw : Qgtb (calculate_pnl p (bar_swap_price bar) (bar_spot_price bar)) 0
                  = false) by (apply Qgtb_false; lra).
    rewrite Hnw in Hwc.
    apply IH in H; [| congruence | exact Hrest].
    destruct H as (H1 & H2 & H3 & H4 & H5 & H6 & H7).
    rewrite Hsg in H1. rewrite Hwc in H2. rewrite Htp in H3, H4.
    rewrite Htc in H4, H5. rewrite Hpos in H6. rewrite Hic in H7.
    repeat split; auto; try lra; try lia.
    intros q Hq. exact (remove_position_In _ _ _ (H6 q Hq)).
Qed.

(** With distinct ids, removing a position removes that very entry. *)
Lemma remove_position_exact p l2 : forall l1,
  NoDup (map position_id (l1 ++ p :: l2)) ->
  remove_position p (l1 ++ p :: l2) = l1 ++ l2.
Proof.
  induction l1 as [| q l1 IH]; intro Hn; cbn [app remove_position].
  - rewrite Z.eqb_refl. reflexivity.
  - cbn [app map] in Hn. inversion Hn as [| x l Hnin Hnd]; subst.
    destruct (position_id q =? position_id p)%Z eqn:E.
    + exfalso. apply Z.eqb_eq in E. apply Hnin. rewrite E.
      rewrite map_app. apply in_or_app. right. left. reflexivity.
    + rewrite (IH Hnd). reflexivity.
Qed.

End LedgerInvariants.

(** X13.  [process_data] reads nothing but the last row of the frame it is
    given: on any frame it does what it does on the frame of that row
    alone, state, trades and exceptions alike. *)
Theorem process_data_reads_the_last_row_only :
  forall (s : Strategy.TradingStratsFirst) (data : list Bar) (bar : Bar),
    iloc_last data = Ok bar ->
    Strategy.process_data s data = Strategy.process_data s [bar].
Proof. intros s data bar H. exact (process_data_last_row s data bar H). Qed.

Lemma process_data_reads_the_last_row_only_witness :
  Strategy.process_data Examples.ledger0 Examples.day1
  = Strategy.process_data Examples.ledger0 [Examples.first_bar].
Proof.
  apply (process_data_reads_the_last_row_only Examples.ledger0 Examples.day1
           Examples.first_bar).
  reflexivity.
Defined.

(** X14.  A ledger never holds more open positions than [max_positions]
    (none at all when the limit is zero or negative), in any state reached
    from a fresh ledger by [process_data] and end-of-day liquidations. *)
Theorem open_positions_within_limit :
  forall s : Strategy.TradingStratsFirst,
    Backtester.reachable s ->
    (Strategy.len (Strategy.positions s) <= Z.max 0 (Strategy.max_positions s))%Z.
Proof. intros s Hr. exact (within_limit_reachable s Hr). Qed.

Lemma open_positions_within_limit_witness :
  (Strategy.len (Strategy.positions Examples.ledger1)
   <= Z.max 0 (Strategy.max_positions Examples.ledger1))%Z.
Proof.
  apply (open_positions_within_limit Examples.ledger1).
  apply (Backtester.reach_process_data Examples.ledger0 [Examples.first_bar]
           Examples.ledger1
           [(Strategy.open, short,
             10000 / inject_Z 2 / Strategy.py_max 30100 30000, 30100, 30000)]).
  - apply Backtester.reach_init.
  - vm_compute. reflexivity.
Defined.

(** X15.  Long and short positions are never open together: in every
    reachable state all open positions are on one side, the side of the
    direction lock. *)
Theorem positions_are_on_one_side :
  forall s : Strategy.TradingStratsFirst,
    Backtester.reachable s ->
    forall p q,
      In p (Strategy.positions s) -> In q (Strategy.positions s) ->
      Strategy.position_type p = Strategy.position_type q
      /\ Strategy.current_position_type s = Some (Strategy.position_type p).
Proof.
  intros s Hr p q Hp Hq.
  pose proof (one_direction_reachable s Hr) as Hd.
  pose proof (Hd p Hp) as H1. pose proof (Hd q Hq) as H2.
  split; [congruence | exact H1].
Qed.

Lemma positions_are_on_one_side_witness :
  Strategy.position_type
    (Strategy.mkPosition short 1736130000 30100 30000
       (10000 / inject_Z 2 / Strategy.py_max 30100 30000) 1 [])
  = Strategy.position_type
      (Strategy.mkPosition short 1736130000 30100 30000
         (10000 / inject_Z 2 / Strategy.py_max 30100 30000) 1 [])
  /\ Strategy.current_position_type Examples.ledger1
     = Some (Strategy.position_type
               (Strategy.mkPosition short 1736130000 30100 30000
                  (10000 / inject_Z 2 / Strategy.py_max 30100 30000) 1 [])).
Proof.
  apply (positions_are_on_one_side Examples.ledger1).
  - apply (Backtester.reach_process_data Examples.ledger0 [Examples.first_bar]
             Examples.ledger1
             [(Strategy.open, short,
               10000 / inject_Z 2 / Strategy.py_max 30100 30000, 30100, 30000)]).
    + apply Backtester.reach_init.
    + vm_compute. reflexivity.
  - left. vm_compute. reflexivity.
  - left. vm_compute. reflexivity.
Defined.

(** X16.  The books balance: in every reachable state the capital differs
    from the initial capital by the realized PnL minus the fees plus the
    funding payments, and by nothing else. *)
Theorem capital_is_pnl_minus_fees_plus_funding :
  forall s : Strategy.TradingStratsFirst,
    Backtester.reachable s ->
    Strategy.capital s - Strategy.initial_capital s
    == Strategy.total_pnl s - Strategy.total_fee s + Strategy.total_funding_fee s.
Proof. intros s Hr. exact (books_balance_reachable s Hr). Qed.

Lemma capital_is_pnl_minus_fees_plus_funding_witness :
  Strategy.capital Examples.ledger1 - Strategy.initial_capital Examples.ledger1
  == Strategy.total_pnl Examples.ledger1 - Strategy.total_fee Examples.ledger1
     + Strategy.total_funding_fee Examples.ledger1.
Proof.
  apply (capital_is_pnl_minus_fees_plus_funding Examples.ledger1).
  apply (Backtester.reach_process_data Examples.ledger0 [Examples.first_bar]
           Examples.ledger1
           [(Strategy.open, short,
             10000 / inject_Z 2 / Strategy.py_max 30100 30000, 30100, 30000)]).
  - apply Backtester.reach_init.
  - vm_compute. reflexivity.
Defined.

(** X17.  [process_data] opens at most one position per call, after the
    closes of the call, and only when the bar is at least 3600 s after
    the last entry and, if a non-zero next settlement time is known, not
    later than 800 s before it; the entry sets [last_entry_time] to the
    bar's timestamp and uses up one position id.  Without an entry both
    are unchanged. *)
Theorem entries_are_an_hour_apart_and_clear_of_settlements :
  forall (s : Strategy.TradingStratsFirst) (data : list Bar) (bar : Bar)
         (s' : Strategy.TradingStratsFirst) (trades : list Strategy.Trade),
    iloc_last data = Ok bar ->
    Strategy.process_data s data = Ok (s', trades) ->
    exists closes,
      Forall (fun t => Strategy.action_of t = Strategy.close) closes
      /\ ((trades = closes
           /\ Strategy.last_entry_time s' = Strategy.last_entry_time s
           /\ Strategy.next_position_id s' = Strategy.next_position_id s)
          \/ (exists tr,
                trades = closes ++ [tr]
                /\ Strategy.action_of tr = Strategy.open
                /\ 3600 <= exchange_timestamp bar - Strategy.last_entry_time s
                /\ Strategy.last_entry_time s' = exchange_timestamp bar
                /\ Strategy.next_position_id s'
                   = (Strategy.next_position_id s + 1)%Z
                /\ (forall nft,
                      Strategy.next_funding_time s' = Some nft -> nft <> 0%Z ->
                      exchange_timestamp bar <= inject_Z nft - 800))).
Proof.
  intros s data bar s' trades Hl Hp.
  apply process_data_steps in Hp.
  destruct Hp as [(Hd & _) | (bar' & s2 & closes & Hl' & Hex & Hen)];
    [subst; discriminate |].
  rewrite Hl in Hl'. inversion Hl'; subst bar'. clear Hl'.
  destruct (before_exits_frame s (exchange_timestamp bar))
    as (_ & _ & _ & _ & _ & _ & Hle & Hid & _).
  cbv zeta in Hle, Hid.
  set (s1 := Strategy.refresh_next_funding_time
               (Strategy.process_funding_fees s (exchange_timestamp bar))
               (exchange_timestamp bar)) in *.
  assert (H2 : Strategy.last_entry_time s2 = Strategy.last_entry_time s1
               /\ Strategy.next_position_id s2 = Strategy.next_position_id s1).
  { revert Hex.
    apply (exit_loop_invariant
             (fun x => Strategy.last_entry_time x = Strategy.last_entry_time s1
                       /\ Strategy.next_position_id x = Strategy.next_position_id s1));
      [| split; reflexivity].
    intros s0 p [Ha Hb].
    destruct (close_step_spec s0 p (bar_swap_price bar) (bar_spot_price bar))
      as (_ & _ & _ & _ & _ & _ & _ & Hle0 & Hid0 & _).
    cbv zeta in *. split; congruence. }
  destruct H2 as [Hle2 Hid2].
  pose proof (exit_loop_trades _ _ _ _ _ _ _ _ Hex) as (cl & Hcl & Hall).
  simpl in Hcl. subst closes. exists cl. split; [exact Hall |].
  apply entry_step_opened in Hen.
  destruct Hen as [[He Ht] | (v & tr & _ & _ & _ & Hnft & Hint & _ & Ho & Ht)].
  - subst s' trades. left. repeat split; congruence.
  - right. exists tr. split; [exact Ht |].
    destruct (open_position_frame _ _ _ _ _ _ _ Ho) as (_ & Hid' & Hle' & Hnf' & _).
    apply open_position_spec in Ho. destruct Ho as (a & _ & Htr & _).
    split; [subst tr; reflexivity |].
    split; [rewrite <- Hle, <- Hle2; exact Hint |].
    split; [exact Hle' |].
    split; [rewrite Hid', Hid2, Hid; reflexivity |].
    intros nft Hn. rewrite Hnf' in Hn. exact (Hnft nft Hn).
Qed.

Lemma entries_are_an_hour_apart_and_clear_of_settlements_witness :
  exists closes,
    Forall (fun t => Strategy.action_of t = Strategy.close) closes
    /\ (([(Strategy.open, short,
           10000 / inject_Z 2 / Strategy.py_max 30100 30000, 30100, 30000)]
         = closes
         /\ Strategy.last_entry_time Examples.ledger1
            = Strategy.last_entry_time Examples.ledger0
         /\ Strategy.next_position_id Examples.ledger1
            = Strategy.next_position_id Examples.ledger0)
        \/ (exists tr,
              [(Strategy.open, short,
                10000 / inject_Z 2 / Strategy.py_max 30100 30000, 30100, 30000)]
              = closes ++ [tr]
              /\ Strategy.action_of tr = Strategy.open
              /\ 3600 <= exchange_timestamp Examples.first_bar
                         - Strategy.last_entry_time Examples.ledger0
              /\ Strategy.last_entry_time Examples.ledger1
                 = exchange_timestamp Examples.first_bar
              /\ Strategy.next_position_id Examples.ledger1
                 = (Strategy.next_position_id Examples.ledger0 + 1)%Z
              /\ (forall nft,
                    Strategy.next_funding_time Examples.ledger1 = Some nft ->
                    nft <> 0%Z ->
                    exchange_timestamp Examples.first_bar <= inject_Z nft - 800))).
Proof.
  apply (entries_are_an_hour_apart_and_clear_of_settlements Examples.ledger0
           [Examples.first_bar] Examples.first_bar Examples.ledger1).
  - reflexivity.
  - vm_compute. reflexivity.
Defined.

(** X18.  With the thresholds of [__init__], a positive initial capital
    and a positive spot price, no position is closed by an exit signal at
    a profit: [process_data] leaves [win_count] as it is and [total_pnl]
    no higher, lower whenever it closes a position.  This holds as long
    as every open position has a positive size and was entered off parity
    on its side (long with the swap price below the spot price, short
    above), which is again the case afterwards: [process_data] opens no
    other positions. *)
Theorem signal_exits_never_win :
  forall (s : Strategy.TradingStratsFirst) (data : list Bar) (bar : Bar)
         (s' : Strategy.TradingStratsFirst) (trades : list Strategy.Trade),
    Signals.default_thresholds (Strategy.signal s) ->
    0 < Strategy.initial_capital s ->
    Forall Strategy.off_parity (Strategy.positions s) ->
    iloc_last data = Ok bar ->
    0 < bar_spot_price bar ->
    Strategy.process_data s data = Ok (s', trades) ->
    Strategy.win_count s' = Strategy.win_count s
    /\ Strategy.total_pnl s' <= Strategy.total_pnl s
    /\ ((Strategy.trade_count s < Strategy.trade_count s')%Z ->
        Strategy.total_pnl s' < Strategy.total_pnl s)
    /\ Forall Strategy.off_parity (Strategy.positions s')
    /\ Signals.default_thresholds (Strategy.signal s')
    /\ Strategy.initial_capital s' = Strategy.initial_capital s.
Proof.
  intros s data bar s' trades Hdef Hic Hoff Hl Hsp Hp.
  apply process_data_steps in Hp.
  destruct Hp as [(Hd & _) | (bar' & s2 & closes & Hl' & Hex & Hen)];
    [subst; discriminate |].
  rewrite Hl in Hl'. inversion Hl'; subst bar'. clear Hl'.
  destruct (before_exits_frame s (exchange_timestamp bar))
    as (Hsg1 & Hwc1 & Htc1 & Htp1 & Hic1 & _ & _ & _ & _ & _ & Hpos1).
  cbv zeta in Hsg1, Hwc1, Htc1, Htp1, Hic1, Hpos1.
  set (s1 := Strategy.refresh_next_funding_time
               (Strategy.process_funding_fees s (exchange_timestamp bar))
               (exchange_timestamp bar)) in *.
  assert (Hoff1 : Forall Strategy.off_parity (Strategy.positions s1)).
  { destruct Hpos1 as [E | [r E]]; rewrite E; [exact Hoff |].
    rewrite Forall_forall in *. intros x Hx. apply in_map_iff in Hx.
    destruct Hx as (q & Hq & Hin). subst x. apply settle_off_parity, Hoff, Hin. }
  unfold Signals.default_thresholds in Hdef.
  assert (Hsig1 : Strategy.signal s1
                  = Signals.init (Signals.fee_provider (Strategy.signal s)))
    by congruence.
  destruct (exit_loop_never_wins _ _ _ Hl Hsp _ _ _ _ _ Hsig1 Hoff1 Hex)
    as (Hsg2 & Hwc2 & Htp2 & Hlt2 & Htc2 & Hsub2 & Hic2).
  assert (Hoff2 : Forall Strategy.off_parity (Strategy.positions s2)).
  { rewrite Forall_forall in *. intros x Hx. apply Hoff1, Hsub2, Hx. }
  assert (Hdef2 : Signals.default_thresholds (Strategy.signal s2)).
  { unfold Signals.default_thresholds. rewrite Hsg2, Hsg1. exact Hdef. }
  apply entry_step_opened in Hen.
  destruct Hen as [[He Ht] | (v & tr & Hv & Hnz & Hlim & _ & _ & _ & Ho & Ht)].
  - subst s' trades.
    rewrite Hwc2, Hwc1, Hic2, Hic1. rewrite <- Htp1, <- Htc1.
    repeat split; auto.
  - destruct (open_position_frame _ _ _ _ _ _ _ Ho) as (_ & _ & _ & _ & Hsg3 & _).
    apply open_position_spec in Ho.
    destruct Ho as (a & Ha & _ & Hpos3 & _ & _ & Htp3 & Hic3 & _ & _ & Htc3 & Hwc3 & _).
    rewrite Hwc3, Hwc2, Hwc1, Htp3, Htc3, Hic3, Hic2, Hic1.
    rewrite <- Htp1, <- Htc1.
    repeat split; auto.
    + rewrite Hpos3. apply Forall_app. split; [exact Hoff2 |].
      constructor; [| constructor].
      rewrite Hsg2, Hsig1 in Hv.
      pose proof (entry_signal_parity _ _ _ _ Hl Hsp Hv Hnz) as Hpar.
      assert (Hmp : 0 < inject_Z (Strategy.max_positions s2)).
      { change 0 with (inject_Z 0). rewrite <- Zlt_Qlt.
        unfold Strategy.len in Hlim. lia. }
      assert (Hic0 : 0 < Strategy.initial_capital s2) by (rewrite Hic2, Hic1; exact Hic).
      assert (Hsize : 0 < Strategy.initial_capital s2
                          / inject_Z (Strategy.max_positions s2)).
      { apply Qlt_shift_div_l; [exact Hmp | lra]. }
      unfold Strategy.off_parity.
      cbn [Strategy.amount Strategy.position_type Strategy.swap_price
           Strategy.spot_price].
      subst a. unfold Strategy.py_max.
      destruct (v >? 0)%Z.
      * assert (Hg : Qgtb (bar_spot_price bar) (bar_swap_price bar) = true)
          by (apply Qgtb_true; exact Hpar).
        rewrite Hg. split; [| exact Hpar].
        apply Qlt_shift_div_l; [exact Hsp | lra].
      * assert (Hg : Qgtb (bar_spot_price bar) (bar_swap_price bar) = false)
          by (apply Qgtb_false; lra).
        rewrite Hg. split; [| exact Hpar].
        apply Qlt_shift_div_l; [lra | lra].
    + unfold Signals.default_thresholds. rewrite Hsg3. exact Hdef2.
Qed.

Lemma signal_exits_never_win_witness :
  Strategy.win_count
    (Examples.state_of (Strategy.process_data Examples.ledger1 [Examples.reversal_bar]))
  = Strategy.win_count Examples.ledger1
  /\ Strategy.total_pnl
       (Examples.state_of (Strategy.process_data Examples.ledger1 [Examples.reversal_bar]))
     <= Strategy.total_pnl Examples.ledger1
  /\ ((Strategy.trade_count Examples.ledger1
       < Strategy.trade_count
           (Examples.state_of
              (Strategy.process_data Examples.ledger1 [Examples.reversal_bar])))%Z ->
      Strategy.total_pnl
        (Examples.state_of (Strategy.process_data Examples.ledger1 [Examples.reversal_bar]))
      < Strategy.total_pnl Examples.ledger1)
  /\ Forall Strategy.off_parity
       (Strategy.positions
          (Examples.state_of
             (Strategy.process_data Examples.ledger1 [Examples.reversal_bar])))
  /\ Signals.default_thresholds
       (Strategy.signal
          (Examples.state_of
             (Strategy.process_data Examples.ledger1 [Examples.reversal_bar])))
  /\ Strategy.initial_capital
       (Examples.state_of (Strategy.process_data Examples.ledger1 [Examples.reversal_bar]))
     = Strategy.initial_capital Examples.ledger1.
Proof.
  apply (signal_exits_never_win Examples.ledger1 [Examples.reversal_bar]
           Examples.reversal_bar
           (Examples.state_of
              (Strategy.process_data Examples.ledger1 [Examples.reversal_bar]))
           [(Strategy.close, short,
             10000 / inject_Z 2 / Strategy.py_max 30100 30000, 29990, 30000)]).
  - vm_compute. reflexivity.
  - vm_compute. reflexivity.
  - vm_compute. repeat constructor.
  - reflexivity.
  - vm_compute. reflexivity.
  - vm_compute. reflexivity.
Defined.

(** X19.  Position ids are not reused: in every reachable state the open
    positions have pairwise distinct ids, all of them handed out before.
    So removing an open position from the list removes that very entry
    and nothing else. *)
Theorem open_positions_have_distinct_ids :
  forall s : Strategy.TradingStratsFirst,
    Backtester.reachable s ->
    NoDup (map Strategy.position_id (Strategy.positions s))
    /\ (forall p, In p (Strategy.positions s) ->
                  (Strategy.position_id p < Strategy.next_position_id s)%Z)
    /\ (forall l1 p l2,
          Strategy.positions s = l1 ++ p :: l2 ->
          Strategy.remove_position p (Strategy.positions s) = l1 ++ l2).
Proof.
  intros s Hr. destruct (ids_fresh_reachable s Hr) as [Hn Hb].
  split; [exact Hn |]. split; [exact Hb |].
  intros l1 p l2 He. rewrite He in *. apply remove_position_exact, Hn.
Qed.

Lemma open_positions_have_distinct_ids_witness :
  NoDup (map Strategy.position_id (Strategy.positions Examples.ledger1))
  /\ (forall p, In p (Strategy.positions Examples.ledger1) ->
                (Strategy.position_id p
                 < Strategy.next_position_id Examples.ledger1)%Z)
  /\ (forall l1 p l2,
        Strategy.positions Examples.ledger1 = l1 ++ p :: l2 ->
        Strategy.remove_position p (Strategy.positions Examples.ledger1)
        = l1 ++ l2).
Proof.
  apply (open_positions_have_distinct_ids Examples.ledger1).
  apply (Backtester.reach_process_data Examples.ledger0 [Examples.first_bar]
           Examples.ledger1
           [(Strategy.open, short,
             10000 / inject_Z 2 / Strategy.py_max 30100 30000, 30100, 30000)]).
  - apply Backtester.reach_init.
  - vm_compute. reflexivity.
Defined.

(** X20.  Exits are all or nothing: a call of [process_data] on a ledger
    whose open positions are all on the side of the lock closes either
    none of them or every one of them, in the order they were opened; in
    the second case the lock is released before the entry part runs, so
    at most the position opened by this call is open afterwards. *)
Theorem exits_close_every_position_or_none :
  forall (s : Strategy.TradingStratsFirst) (data : list Bar)
         (s' : Strategy.TradingStratsFirst) (trades : list Strategy.Trade),
    Strategy.one_direction s ->
    Strategy.process_data s data = Ok (s', trades) ->
    (Strategy.trade_count s' = Strategy.trade_count s
     /\ Strategy.closed_positions s' = Strategy.closed_positions s
     /\ (length (Strategy.positions s) <= length (Strategy.positions s'))%nat)
    \/ (Strategy.positions s <> []
        /\ Strategy.trade_count s'
           = (Strategy.trade_count s + Strategy.len (Strategy.positions s))%Z
        /\ length (Strategy.closed_positions s')
           = (length (Strategy.closed_positions s)
              + length (Strategy.positions s))%nat
        /\ (length (Strategy.positions s') <= 1)%nat
        /\ (Strategy.positions s' = [] ->
            Strategy.current_position_type s' = None)).
Proof.
  intros s data s' trades Hd Hp.
  apply process_data_steps in Hp.
  destruct Hp as [(_ & He & _) | (bar & s2 & closes & _ & Hex & Hen)].
  { subst s'. left. repeat split; lia. }
  destruct (before_exits_frame s (exchange_timestamp bar))
    as (_ & _ & Htc1 & _ & _ & _ & _ & _ & Hcl1 & Hlock1 & Hpos1).
  cbv zeta in Htc1, Hcl1, Hlock1, Hpos1.
  set (s1 := Strategy.refresh_next_funding_time
               (Strategy.process_funding_fees s (exchange_timestamp bar))
               (exchange_timestamp bar)) in *.
  assert (Hlen1 : length (Strategy.positions s1) = length (Strategy.positions s)).
  { destruct Hpos1 as [E | [r E]]; rewrite E; [reflexivity | apply length_map]. }
  assert (Hd1 : Strategy.one_direction s1).
  { unfold Strategy.one_direction in *. intros p Hin. rewrite Hlock1.
    destruct Hpos1 as [E | [r E]]; rewrite E in Hin; [exact (Hd p Hin) |].
    apply in_map_iff in Hin. destruct Hin as (q & Hq & Hin). subst p.
    rewrite (proj1 (settle_fields _ r q)). exact (Hd q Hin). }
  apply (exit_loop_all_or_none _ _ _ _ _ _ _ Hd1) in Hex.
  destruct Hex as [[E2 _] | (Hne & Hp2 & Hl2 & Hcl2 & Htc2 & _)].
  - subst s2. apply entry_step_cases in Hen.
    destruct Hen as [[He _] | (pt & tr & _ & Ho & _)].
    + subst s'. left. rewrite Htc1, Hcl1, Hlen1. repeat split; lia.
    + destruct (open_position_frame _ _ _ _ _ _ _ Ho) as (_ & _ & _ & _ & _ & Hcl3).
      apply open_position_spec in Ho.
      destruct Ho as (a & _ & _ & Hpos3 & _ & _ & _ & _ & _ & _ & Htc3 & _).
      left. rewrite Htc3, Htc1, Hcl3, Hcl1, Hpos3, length_app, Hlen1.
      repeat split; simpl; lia.
  - right.
    assert (Hne0 : Strategy.positions s <> []).
    { intro E. apply Hne. destruct (Strategy.positions s1); [reflexivity |].
      rewrite E in Hlen1. discriminate. }
    split; [exact Hne0 |].
    assert (Hlen : Strategy.len (Strategy.positions s1)
                   = Strategy.len (Strategy.positions s))
      by (unfold Strategy.len; rewrite Hlen1; reflexivity).
    apply entry_step_cases in Hen.
    destruct Hen as [[He _] | (pt & tr & _ & Ho & _)].
    + subst s'. rewrite Htc2, Htc1, Hlen, Hcl2, Hcl1, length_app, Hlen1, Hp2.
      repeat split; simpl; auto; lia.
    + destruct (open_position_frame _ _ _ _ _ _ _ Ho) as (_ & _ & _ & _ & _ & Hcl3).
      apply open_position_spec in Ho.
      destruct Ho as (a & _ & _ & Hpos3 & _ & _ & _ & _ & _ & _ & Htc3 & _).
      rewrite Htc3, Htc2, Htc1, Hlen, Hcl3, Hcl2, Hcl1, length_app, Hlen1, Hpos3, Hp2.
      repeat split; simpl; auto; try lia. discriminate.
Qed.

Lemma exits_close_every_position_or_none_witness :
  (Strategy.trade_count
     (Examples.state_of (Strategy.process_data Examples.ledger1 [Examples.reversal_bar]))
   = Strategy.trade_count Examples.ledger1
   /\ Strategy.closed_positions
        (Examples.state_of
           (Strategy.process_data Examples.ledger1 [Examples.reversal_bar]))
      = Strategy.closed_positions Examples.ledger1
   /\ (length (Strategy.positions Examples.ledger1)
       <= length (Strategy.positions
                    (Examples.state_of
                       (Strategy.process_data Examples.ledger1
                          [Examples.reversal_bar]))))%nat)
  \/ (Strategy.positions Examples.ledger1 <> []
      /\ Strategy.trade_count
           (Examples.state_of
              (Strategy.process_data Examples.ledger1 [Examples.reversal_bar]))
         = (Strategy.trade_count Examples.ledger1
            + Strategy.len (Strategy.positions Examples.ledger1))%Z
      /\ length (Strategy.closed_positions
                   (Examples.state_of
                      (Strategy.process_data Examples.ledger1
                         [Examples.reversal_bar])))
         = (length (Strategy.closed_positions Examples.ledger1)
            + length (Strategy.positions Examples.ledger1))%nat
      /\ (length (Strategy.positions
                    (Examples.state_of
                       (Strategy.process_data Examples.ledger1
                          [Examples.reversal_bar]))) <= 1)%nat
      /\ (Strategy.positions
            (Examples.state_of
               (Strategy.process_data Examples.ledger1 [Examples.reversal_bar]))
          = [] ->
          Strategy.current_position_type
            (Examples.state_of
               (Strategy.process_data Examples.ledger1 [Examples.reversal_bar]))
          = None)).
Proof.
  apply (exits_close_every_position_or_none Examples.ledger1 [Examples.reversal_bar]
           (Examples.state_of
              (Strategy.process_data Examples.ledger1 [Examples.reversal_bar]))
           [(Strategy.close, short,
             10000 / inject_Z 2 / Strategy.py_max 30100 30000, 29990, 30000)]).
  - intros p Hin. vm_compute in Hin. destruct Hin as [Hin | []]. subst p.
    vm_compute. reflexivity.
  - vm_compute. reflexivity.
Defined.

(** ** The day and the run *)

Section DayAndRun.

Import Strategy Backtester.

(** The liquidation loop over the open positions closes them one after
    the other, head first. *)
Lemma liquidate_all : forall snapshot t sw sp s tr,
  positions s = snapshot ->
  let r := liquidate snapshot t sw sp s tr in
  positions (fst r) = []
  /\ closed_positions (fst r) = closed_positions s ++ snapshot
  /\ trade_count (fst r) = (trade_count s + len snapshot)%Z
  /\ snd r = tr ++ map (fun p => (t, (close, position_type p, amount p, sw, sp)))
                       snapshot.
Proof.
  induction snapshot as [| p snapshot IH]; intros t sw sp s tr Hpos; cbv zeta.
  - cbn [liquidate fst snd map]. unfold len. cbn [length].
    rewrite !app_nil_r. repeat split; [exact Hpos | lia].
  - change (liquidate (p :: snapshot) t sw sp s tr)
      with (liquidate snapshot t sw sp (fst (close_position s p sw sp))
              (tr ++ [(t, snd (close_position s p sw sp))])).
    destruct (close_position_spec s p sw sp)
      as (_ & _ & _ & Htc & _ & Hp & Hcl & _ & _ & _ & _ & Htr).
    cbv zeta in *. rewrite Hpos in Hp. cbn [remove_position] in Hp.
    rewrite Z.eqb_refl in Hp.
    destruct (IH t sw sp (fst (close_position s p sw sp))
                (tr ++ [(t, snd (close_position s p sw sp))]) Hp)
      as (H1 & H2 & H3 & H4).
    rewrite H1, H2, H3, H4, Hcl, Htc, Htr.
    repeat split.
    + rewrite <- app_assoc. reflexivity.
    + unfold len. cbn [length]. lia.
    + rewrite <- app_assoc. reflexivity.
Qed.

Lemma force_close_all_spec df s tr s' tr' :
  force_close_all df s tr = Ok (s', tr') ->
  positions s' = []
  /\ closed_positions s' = closed_positions s ++ positions s
  /\ trade_count s' = (trade_count s + len (positions s))%Z
  /\ ((positions s = [] /\ s' = s /\ tr' = tr)
      \/ (exists last_data,
            iloc_last df = Ok last_data
            /\ tr' = tr ++ map (forced_trade last_data) (positions s))).
Proof.
  unfold force_close_all. destruct (positions s) as [| p ps] eqn:Ep.
  - intro H. inversion H; subst. rewrite Ep, app_nil_r. unfold len. cbn.
    repeat split; auto; lia.
  - destruct (iloc_last df) as [b |]; cbn [bind]; [| discriminate].
    intro H.
    pose proof (liquidate_all (p :: ps) (exchange_timestamp b) (bar_swap_price b)
                  (bar_spot_price b) s tr Ep) as Hl.
    cbv zeta in Hl.
    destruct (liquidate _ _ _ _ s tr) as [s0 tr0]. cbn [fst snd] in Hl.
    inversion H; subst s0 tr0. clear H.
    destruct Hl as (H1 & H2 & H3 & H4).
    repeat split; auto. right. exists b. split; [reflexivity | exact H4].
Qed.

Lemma win_rate_of_total s : exists q, win_rate_of s = Ok q.
Proof.
  unfold win_rate_of. rewrite checked_div_ok; [eauto |].
  unfold Qeq. simpl. lia.
Qed.

(** What a day leaves behind. *)
Lemma run_single_day_spec bt date df bt' pnl :
  run_single_day bt date df = Ok (bt', pnl) ->
  window_size bt' = window_size bt
  /\ ((df = [] /\ bt' = bt /\ pnl = 0)
      \/ (df <> []
          /\ positions (strategy bt') = []
          /\ pnl = capital (strategy bt') - capital (strategy bt)
          /\ exists r,
               results bt' = results bt ++ [r]
               /\ res_date r = date
               /\ res_pnl r = pnl
               /\ res_capital r = capital (strategy bt')
               /\ res_cumulative_pnl r = total_pnl (strategy bt'))).
Proof.
  unfold run_single_day. destruct df as [| b0 df0].
  - intro H. inversion H; subst. split; [reflexivity |]. left. auto.
  - set (df := b0 :: df0).
    destruct (bar_loop _ _ df (strategy bt) []) as [[s1 tr1] |] eqn:Eb;
      cbn [bind]; [| discriminate].
    destruct (force_close_all df s1 tr1) as [[s2 tr2] |] eqn:Ef;
      cbn [bind]; [| discriminate].
    destruct (win_rate_of s2) as [q |] eqn:Ew; cbn [bind]; [| discriminate].
    intro H. inversion H; subst. cbn [window_size strategy results].
    split; [reflexivity |]. right.
    apply force_close_all_spec in Ef. destruct Ef as (Hp & _).
    split; [discriminate |]. split; [exact Hp |]. split; [reflexivity |].
    eexists. split; [reflexivity |]. cbn. repeat split.
Qed.

Lemma sum_pnl_app rs1 rs2 : sum_pnl (rs1 ++ rs2) == sum_pnl rs1 + sum_pnl rs2.
Proof.
  induction rs1 as [| r rs1 IH]; cbn [app sum_pnl]; [ring | rewrite IH; ring].
Qed.

(** The records of a run of days: one per day whose frame is not empty,
    and their day PnLs add up to the change of the capital. *)
Lemma run_days_spec : forall days bt bt',
  run_days bt days = Ok bt' ->
  exists rs,
    results bt' = results bt ++ rs
    /\ sum_pnl rs == capital (strategy bt') - capital (strategy bt)
    /\ length rs
       = length (filter (fun d => match snd d with [] => false | _ => true end) days)
    /\ map res_date rs
       = map fst (filter (fun d => match snd d with [] => false | _ => true end) days).
Proof.
  induction days as [| [date df] days IH]; intros bt bt'; cbn [run_days].
  - intro H. inversion H; subst. exists []. rewrite app_nil_r. cbn.
    repeat split; ring.
  - destruct (run_single_day bt date df) as [[bt1 pnl] |] eqn:Ed;
      cbn [bind]; [| discriminate].
    intro H. apply IH in H. destruct H as (rs & Hres & Hsum & Hlen & Hdates).
    apply run_single_day_spec in Ed. destruct Ed as [_ Ed].
    destruct Ed as [(He & Hbt & _) | (Hne & Hp1 & Hpnl & r & Hr & Hrd & Hrp & _)].
    + subst df bt1. exists rs. cbn [filter snd]. auto.
    + exists (r :: rs). rewrite Hres, Hr, <- app_assoc.
      split; [reflexivity |]. cbn [sum_pnl filter snd].
      destruct df as [| b df0]; [congruence |]. cbn [length map fst].
      split; [rewrite Hsum, Hrp, Hpnl; ring |].
      split; [rewrite Hlen; reflexivity |].
      rewrite Hdates, Hrd. reflexivity.
Qed.

(** *** The window only skips the first bars *)

Lemma iloc_last_app l b : iloc_last (l ++ [b]) = Ok b.
Proof. unfold iloc_last. rewrite rev_unit. reflexivity. Qed.

Lemma firstn_S_nth_error {A} : forall n (l : list A) x,
  nth_error l n = Some x -> firstn (S n) l = firstn n l ++ [x].
Proof.
  induction n as [| n IH]; intros [| y l] x H; try discriminate.
  - inversion H; subst. reflexivity.
  - cbn [nth_error] in H. cbn [firstn app]. f_equal.
    exact (IH l x H).
Qed.

Lemma iloc_last_skipn w : forall df,
  (w < length df)%nat -> iloc_last (skipn w df) = iloc_last df.
Proof.
  intros df Hw.
  assert (Hs : skipn w df <> []).
  { intro E. apply skipn_all_iff in E. lia. }
  rewrite <- (firstn_skipn w df) at 2.
  unfold iloc_last. rewrite rev_app_distr.
  destruct (rev (skipn w df)) as [| b l] eqn:E; [| reflexivity].
  exfalso. apply Hs.
  rewrite <- (rev_involutive (skipn w df)), E. reflexivity.
Qed.

Lemma bar_loop_shift w df : forall k j s acc,
  (w + j + k <= length df)%nat ->
  bar_loop (seq (w + j) k) w df s acc
  = bar_loop (seq j k) 0 (skipn w df) s acc.
Proof.
  induction k as [| k IH]; intros j s acc Hk; [reflexivity |].
  cbn [seq bar_loop].
  replace (w + j - w)%nat with j by lia.
  replace (j - 0)%nat with j by lia.
  destruct (nth_error df (w + j)) as [b |] eqn:En.
  2:{ apply nth_error_None in En. lia. }
  assert (Hw : nth_error (skipn j df) w = Some b).
  { rewrite nth_error_skipn. replace (j + w)%nat with (w + j)%nat by lia. exact En. }
  assert (H0 : nth_error (skipn j (skipn w df)) 0 = Some b).
  { rewrite !nth_error_skipn. replace (w + (j + 0))%nat with (w + j)%nat by lia.
    exact En. }
  assert (Hj : nth_error (skipn w df) j = Some b).
  { rewrite nth_error_skipn. exact En. }
  rewrite (firstn_S_nth_error w _ _ Hw), (firstn_S_nth_error 0 _ _ H0), Hj.
  cbn [firstn app].
  rewrite (process_data_last_row s _ b (iloc_last_app _ b)).
  destruct (process_data s [b]) as [[s1 tr1] |]; cbn [bind]; [| reflexivity].
  replace (S (w + j)) with (w + S j)%nat by lia.
  apply IH. lia.
Qed.


Lemma force_close_all_skipn w df s tr :
  (w < length df)%nat ->
  force_close_all (skipn w df) s tr = force_close_all df s tr.
Proof.
  intro Hw. unfold force_close_all. rewrite (iloc_last_skipn w df Hw). reflexivity.
Qed.

(** *** What a day and a run keep *)

Lemma bar_loop_invariant (I : TradingStratsFirst -> Prop) :
  (forall s data s' tr, I s -> process_data s data = Ok (s', tr) -> I s') ->
  forall indices ws df s acc s' acc',
    I s -> bar_loop indices ws df s acc = Ok (s', acc') -> I s'.
Proof.
  intro Hstep.
  induction indices as [| i indices IH]; intros ws df s acc s' acc' Hs; cbn [bar_loop].
  - intro H. inversion H; subst. exact Hs.
  - destruct (process_data s _) as [[s1 tr1] |] eqn:Ep; cbn [bind]; [| discriminate].
    destruct (nth_error df i) as [row |]; cbn [bind]; [| discriminate].
    apply IH. exact (Hstep _ _ _ _ Hs Ep).
Qed.

Lemma run_days_invariant (I : TradingStratsFirst -> Prop) :
  (forall s data s' tr, I s -> process_data s data = Ok (s', tr) -> I s') ->
  (forall s p sw sp, I s -> I (fst (close_position s p sw sp))) ->
  forall days bt bt',
    I (strategy bt) -> run_days bt days = Ok bt' -> I (strategy bt').
Proof.
  intros Hstep Hclose.
  induction days as [| [date df] days IH]; intros bt bt' Hs; cbn [run_days].
  - intro H. inversion H; subst. exact Hs.
  - destruct (run_single_day bt date df) as [[bt1 pnl] |] eqn:Ed;
      cbn [bind]; [| discriminate].
    apply IH. revert Ed. unfold run_single_day.
    destruct df as [| b0 df0]; [intro H; inversion H; subst; exact Hs |].
    set (df := b0 :: df0).
    destruct (bar_loop _ _ df (strategy bt) []) as [[s1 tr1] |] eqn:Eb;
      cbn [bind]; [| discriminate].
    destruct (force_close_all df s1 tr1) as [[s2 tr2] |] eqn:Ef;
      cbn [bind]; [| discriminate].
    destruct (win_rate_of s2) as [q |]; cbn [bind]; [| discriminate].
    intro H. inversion H; subst. cbn [strategy].
    pose proof (bar_loop_invariant I Hstep _ _ _ _ _ _ _ Hs Eb) as H1.
    unfold force_close_all in Ef. destruct (positions s1) as [| p ps].
    + inversion Ef; subst. exact H1.
    + destruct (iloc_last df) as [b |]; cbn [bind] in Ef; [| discriminate].
      pose proof (liquidate_invariant I Hclose (p :: ps) (exchange_timestamp b)
                    (bar_swap_price b) (bar_spot_price b) s1 tr1 H1) as Hk.
      destruct (liquidate _ _ _ _ s1 tr1) as [s0 tr0]. simpl in Hk.
      inversion Ef; subst. exact Hk.
Qed.

Lemma run_days_initial_capital days bt bt' :
  run_days bt days = Ok bt' ->
  initial_capital (strategy bt') = initial_capital (strategy bt).
Proof.
  apply (run_days_invariant
           (fun x => initial_capital x = initial_capital (strategy bt)));
    [| | reflexivity].
  - intros s data s' tr Hs Hp.
    destruct (process_data_config _ _ _ _ Hp) as (Hic & _). congruence.
  - intros s p sw sp Hs.
    destruct (close_position_spec s p sw sp)
      as (_ & _ & _ & _ & _ & _ & _ & _ & Hic & _).
    cbv zeta in Hic. congruence.
Qed.

End DayAndRun.

(** X21.  The forced liquidation closes every open position, in the order
    they were opened, at the prices of the last row of the day's frame:
    afterwards no position is open, the closed list and [trade_count] have
    grown by the positions that were open, and one close trade stamped
    with the last row's timestamp is recorded for each.  With no position
    open nothing happens and the frame is not read. *)
Theorem forced_liquidation_closes_every_position :
  forall (df : list Bar) (s : Strategy.TradingStratsFirst)
         (tr : list (Q * Strategy.Trade))
         (s' : Strategy.TradingStratsFirst) (tr' : list (Q * Strategy.Trade)),
    Backtester.force_close_all df s tr = Ok (s', tr') ->
    Strategy.positions s' = []
    /\ Strategy.closed_positions s'
       = Strategy.closed_positions s ++ Strategy.positions s
    /\ Strategy.trade_count s'
       = (Strategy.trade_count s + Strategy.len (Strategy.positions s))%Z
    /\ ((Strategy.positions s = [] /\ s' = s /\ tr' = tr)
        \/ (exists last_data,
              iloc_last df = Ok last_data
              /\ tr' = tr ++ map (Backtester.forced_trade last_data)
                                 (Strategy.positions s))).
Proof. intros df s tr s' tr' H. exact (force_close_all_spec df s tr s' tr' H). Qed.

Lemma forced_liquidation_closes_every_position_witness :
  Strategy.positions (Backtester.strategy Examples.backtester_after_day1) = []
  /\ Strategy.closed_positions (Backtester.strategy Examples.backtester_after_day1)
     = Strategy.closed_positions Examples.ledger_before_close
       ++ Strategy.positions Examples.ledger_before_close
  /\ Strategy.trade_count (Backtester.strategy Examples.backtester_after_day1)
     = (Strategy.trade_count Examples.ledger_before_close
        + Strategy.len (Strategy.positions Examples.ledger_before_close))%Z
  /\ ((Strategy.positions Examples.ledger_before_close = []
       /\ Backtester.strategy Examples.backtester_after_day1
          = Examples.ledger_before_close
       /\ [(1736130000,
            (Strategy.close, short,
             10000 / inject_Z 2 / Strategy.py_max 30100 30000, 30100, 30000))]
          = [])
      \/ (exists last_data,
            iloc_last Examples.day1 = Ok last_data
            /\ [(1736130000,
                 (Strategy.close, short,
                  10000 / inject_Z 2 / Strategy.py_max 30100 30000, 30100, 30000))]
               = [] ++ map (Backtester.forced_trade last_data)
                           (Strategy.positions Examples.ledger_before_close))).
Proof.
  apply (forced_liquidation_closes_every_position Examples.day1
           Examples.ledger_before_close []
           (Backtester.strategy Examples.backtester_after_day1)
           [(1736130000,
             (Strategy.close, short,
              10000 / inject_Z 2 / Strategy.py_max 30100 30000, 30100, 30000))]).
  vm_compute. reflexivity.
Defined.

(** X22.  A day with an empty frame changes nothing, records nothing and
    returns 0.  Any other day ends with no position open and appends one
    record to the results: the date, the day PnL (the change of the
    capital over the day, which is also the value returned), the capital
    and the cumulative realized PnL at the end of the day. *)
Theorem a_day_ends_flat_and_is_recorded :
  forall (bt : Backtester.Backtester) (date : Z) (df : list Bar)
         (bt' : Backtester.Backtester) (pnl : Q),
    Backtester.run_single_day bt date df = Ok (bt', pnl) ->
    Backtester.window_size bt' = Backtester.window_size bt
    /\ ((df = [] /\ bt' = bt /\ pnl = 0)
        \/ (df <> []
            /\ Strategy.positions (Backtester.strategy bt') = []
            /\ pnl = Strategy.capital (Backtester.strategy bt')
                     - Strategy.capital (Backtester.strategy bt)
            /\ exists r,
                 Backtester.results bt' = Backtester.results bt ++ [r]
                 /\ Backtester.res_date r = date
                 /\ Backtester.res_pnl r = pnl
                 /\ Backtester.res_capital r
                    = Strategy.capital (Backtester.strategy bt')
                 /\ Backtester.res_cumulative_pnl r
                    = Strategy.total_pnl (Backtester.strategy bt'))).
Proof. intros bt date df bt' pnl H. exact (run_single_day_spec bt date df bt' pnl H). Qed.

Lemma a_day_ends_flat_and_is_recorded_witness :
  Backtester.window_size Examples.backtester_after_day1
  = Backtester.window_size Examples.backtester0
  /\ ((Examples.day1 = [] /\ Examples.backtester_after_day1 = Examples.backtester0
       /\ Examples.day1_pnl = 0)
      \/ (Examples.day1 <> []
          /\ Strategy.positions (Backtester.strategy Examples.backtester_after_day1)
             = []
          /\ Examples.day1_pnl
             = Strategy.capital (Backtester.strategy Examples.backtester_after_day1)
               - Strategy.capital (Backtester.strategy Examples.backtester0)
          /\ exists r,
               Backtester.results Examples.backtester_after_day1
               = Backtester.results Examples.backtester0 ++ [r]
               /\ Backtester.res_date r = 20094%Z
               /\ Backtester.res_pnl r = Examples.day1_pnl
               /\ Backtester.res_capital r
                  = Strategy.capital
                      (Backtester.strategy Examples.backtester_after_day1)
               /\ Backtester.res_cumulative_pnl r
                  = Strategy.total_pnl
                      (Backtester.strategy Examples.backtester_after_day1))).
Proof.
  apply (a_day_ends_flat_and_is_recorded Examples.backtester0 20094 Examples.day1
           Examples.backtester_after_day1 Examples.day1_pnl).
  vm_compute. reflexivity.
Defined.

(** X23.  A day whose frame has no more rows than the window is never
    shown to the strategy: started with no position open, it returns day
    PnL 0, leaves the ledger as it was and appends a record without
    trades. *)
Theorem day_no_longer_than_the_window_trades_nothing :
  forall (bt : Backtester.Backtester) (date : Z) (df : list Bar),
    df <> [] ->
    (length df <= Backtester.window_size bt)%nat ->
    Strategy.positions (Backtester.strategy bt) = [] ->
    exists r,
      Backtester.run_single_day bt date df
      = Ok (Backtester.mkBacktester (Backtester.strategy bt)
              (Backtester.window_size bt) (Backtester.results bt ++ [r]),
            Backtester.res_pnl r)
      /\ Backtester.res_pnl r == 0
      /\ Backtester.res_trades r = []
      /\ Backtester.res_date r = date
      /\ Backtester.res_capital r = Strategy.capital (Backtester.strategy bt).
Proof.
  intros bt date df Hne Hlen Hpos.
  unfold Backtester.run_single_day.
  destruct df as [| b0 df0]; [congruence |].
  replace (length (b0 :: df0) - Backtester.window_size bt)%nat with 0%nat by lia.
  cbn [seq Backtester.bar_loop bind].
  unfold Backtester.force_close_all. rewrite Hpos. cbn [bind].
  destruct (win_rate_of_total (Backtester.strategy bt)) as [q Hq].
  rewrite Hq. cbn [bind].
  exists (Backtester.mkDayResult date
            (Strategy.capital (Backtester.strategy bt)
             - Strategy.capital (Backtester.strategy bt))
            (Strategy.total_pnl (Backtester.strategy bt))
            (Strategy.capital (Backtester.strategy bt)) [] q).
  split; [reflexivity |]. cbn. repeat split. ring.
Qed.

Lemma day_no_longer_than_the_window_trades_nothing_witness :
  exists r,
    Backtester.run_single_day Examples.backtester0 20094 [Examples.warmup_bar]
    = Ok (Backtester.mkBacktester (Backtester.strategy Examples.backtester0)
            (Backtester.window_size Examples.backtester0)
            (Backtester.results Examples.backtester0 ++ [r]),
          Backtester.res_pnl r)
    /\ Backtester.res_pnl r == 0
    /\ Backtester.res_trades r = []
    /\ Backtester.res_date r = 20094%Z
    /\ Backtester.res_capital r
       = Strategy.capital (Backtester.strategy Examples.backtester0).
Proof.
  apply (day_no_longer_than_the_window_trades_nothing Examples.backtester0 20094
           [Examples.warmup_bar]).
  - discriminate.
  - cbn. lia.
  - reflexivity.
Defined.

(** X24.  [run] starts from empty results.  When the days run one after
    the other (not parallel, or debug mode, or a single date) it records
    one entry per date whose frame is not empty, in the order of the
    dates.  When they run in worker processes (parallel, not debug mode,
    more than one date) the parent records nothing and its ledger is as
    it was.  Either way the day PnLs of the records add up to the final
    capital minus the capital the run started with. *)
Theorem day_pnls_add_up_to_the_capital_change :
  forall (bt : Backtester.Backtester) (days : list (Z * list Bar))
         (debug_mode parallel : bool) (completion : list (Z * list Bar))
         (bt' : Backtester.Backtester) (rr : Backtester.RunResult),
    Backtester.run bt days debug_mode parallel completion = Ok (bt', rr) ->
    Backtester.sum_pnl (Backtester.run_daily_results rr)
    == Backtester.run_final_capital rr - Backtester.run_initial_capital rr
    /\ Backtester.results bt' = Backtester.run_daily_results rr
    /\ (parallel && negb debug_mode && (1 <? length days)%nat = false ->
        map Backtester.res_date (Backtester.run_daily_results rr)
        = map fst (filter (fun d => match snd d with [] => false | _ => true end)
                     days))
    /\ (parallel && negb debug_mode && (1 <? length days)%nat = true ->
        Backtester.run_daily_results rr = []
        /\ Backtester.strategy bt' = Backtester.strategy bt).
Proof.
  intros bt days debug_mode parallel completion bt' rr H.
  apply run_cases in H.
  destruct H as (Hb & _ & _ & Hic & Hfc & _ & _ & _ & _ & Hres).
  rewrite Hres, Hic, Hfc.
  destruct Hb as [(Hp & He & _) | (Hp & Hd)].
  - subst bt'. cbn [Backtester.results Backtester.strategy Backtester.sum_pnl].
    split; [ring |]. split; [reflexivity |].
    split; [intro Hf; congruence | auto].
  - apply run_days_spec in Hd. destruct Hd as (rs & Hrs & Hsum & _ & Hdates).
    cbn [Backtester.results Backtester.strategy app] in *.
    rewrite Hrs. split; [exact Hsum |]. split; [reflexivity |].
    split; [intros _; exact Hdates | intro Ht; congruence].
Qed.

Lemma day_pnls_add_up_to_the_capital_change_witness :
  (Backtester.sum_pnl
     (Backtester.run_daily_results (Examples.record_of Examples.sequential_run))
   == Backtester.run_final_capital (Examples.record_of Examples.sequential_run)
      - Backtester.run_initial_capital (Examples.record_of Examples.sequential_run)
   /\ Backtester.results (Examples.backtester_of Examples.sequential_run)
      = Backtester.run_daily_results (Examples.record_of Examples.sequential_run)
   /\ (false && negb false && (1 <? length Examples.two_days)%nat = false ->
       map Backtester.res_date
         (Backtester.run_daily_results (Examples.record_of Examples.sequential_run))
       = map fst (filter (fun d => match snd d with [] => false | _ => true end)
                    Examples.two_days))
   /\ (false && negb false && (1 <? length Examples.two_days)%nat = true ->
       Backtester.run_daily_results (Examples.record_of Examples.sequential_run)
       = []
       /\ Backtester.strategy (Examples.backtester_of Examples.sequential_run)
          = Backtester.strategy Examples.backtester0))
  /\ (Backtester.sum_pnl
        (Backtester.run_daily_results (Examples.record_of Examples.parallel_run))
      == Backtester.run_final_capital (Examples.record_of Examples.parallel_run)
         - Backtester.run_initial_capital (Examples.record_of Examples.parallel_run)
      /\ Backtester.results (Examples.backtester_of Examples.parallel_run)
         = Backtester.run_daily_results (Examples.record_of Examples.parallel_run)
      /\ (true && negb false && (1 <? length Examples.two_days)%nat = false ->
          map Backtester.res_date
            (Backtester.run_daily_results (Examples.record_of Examples.parallel_run))
          = map fst (filter (fun d => match snd d with [] => false | _ => true end)
                       Examples.two_days))
      /\ (true && negb false && (1 <? length Examples.two_days)%nat = true ->
          Backtester.run_daily_results (Examples.record_of Examples.parallel_run)
          = []
          /\ Backtester.strategy (Examples.backtester_of Examples.parallel_run)
             = Backtester.strategy Examples.backtester0)).
Proof.
  split.
  - apply (day_pnls_add_up_to_the_capital_change Examples.backtester0
             Examples.two_days false false []
             (Examples.backtester_of Examples.sequential_run)
             (Examples.record_of Examples.sequential_run)).
    vm_compute. reflexivity.
  - apply (day_pnls_add_up_to_the_capital_change Examples.backtester0
             Examples.two_days false true (rev Examples.two_days)
             (Examples.backtester_of Examples.parallel_run)
             (Examples.record_of Examples.parallel_run)).
    vm_compute. reflexivity.
Defined.

(** X25.  What [run] reports as [net_pnl] is not the capital gained: the
    final capital exceeds the initial capital of the ledger by
    total_pnl - total_fee + total_funding_fee, while [net_pnl] is
    total_pnl - total_fee - total_funding_fee; the two differ by twice
    the funding total. *)
Theorem net_pnl_counts_funding_against_the_capital :
  forall (bt : Backtester.Backtester) (days : list (Z * list Bar))
         (debug_mode parallel : bool) (completion : list (Z * list Bar))
         (bt' : Backtester.Backtester) (rr : Backtester.RunResult),
    Backtester.reachable (Backtester.strategy bt) ->
    Backtester.run bt days debug_mode parallel completion = Ok (bt', rr) ->
    Backtester.run_final_capital rr
    - Strategy.initial_capital (Backtester.strategy bt)
    == Backtester.run_total_pnl rr - Backtester.run_total_fee rr
       + Backtester.run_total_funding_fee rr
    /\ Backtester.run_net_pnl rr
       == Backtester.run_final_capital rr
          - Strategy.initial_capital (Backtester.strategy bt)
          - 2 * Backtester.run_total_funding_fee rr.
Proof.
  intros bt days debug_mode parallel completion bt' rr Hr H.
  pose proof (run_reports _ _ _ _ _ _ _ Hr H) as (Hr' & _).
  apply books_balance_reachable in Hr'. unfold Strategy.books_balance in Hr'.
  apply run_cases in H.
  destruct H as (Hb & _ & _ & _ & Hfc & Htp & Htf & Hff & Hnet & _).
  assert (Hic : Strategy.initial_capital (Backtester.strategy bt')
                = Strategy.initial_capital (Backtester.strategy bt)).
  { destruct Hb as [(_ & He & _) | (_ & Hd)].
    - subst bt'. reflexivity.
    - apply run_days_initial_capital in Hd. exact Hd. }
  rewrite Hfc, Htp, Htf, Hff, Hnet, <- Hic. split; lra.
Qed.

Lemma net_pnl_counts_funding_against_the_capital_witness :
  Backtester.run_final_capital Examples.run1_record
  - Strategy.initial_capital (Backtester.strategy Examples.backtester0)
  == Backtester.run_total_pnl Examples.run1_record
     - Backtester.run_total_fee Examples.run1_record
     + Backtester.run_total_funding_fee Examples.run1_record
  /\ Backtester.run_net_pnl Examples.run1_record
     == Backtester.run_final_capital Examples.run1_record
        - Strategy.initial_capital (Backtester.strategy Examples.backtester0)
        - 2 * Backtester.run_total_funding_fee Examples.run1_record.
Proof.
  apply (net_pnl_counts_funding_against_the_capital Examples.backtester0
           [(20094%Z, Examples.day1)] false true [] Examples.run1_backtester
           Examples.run1_record).
  - apply Backtester.reach_init.
  - vm_compute. reflexivity.
Defined.

(** X26.  The window size only decides how many leading rows of a day are
    skipped: since the strategy reads the last row of each window alone, a
    day run with a window of [w] rows on a frame longer than [w] gives the
    ledger, the record, the day PnL and the exceptions of the same day run
    with window 0 on the frame without its first [w] rows. *)
Theorem window_size_only_skips_the_first_rows :
  forall (s : Strategy.TradingStratsFirst) (res : list Backtester.DayResult)
         (w : nat) (date : Z) (df : list Bar),
    (w < length df)%nat ->
    Backtester.run_single_day (Backtester.mkBacktester s w res) date df
    = ('(bt', pnl) <- Backtester.run_single_day
                        (Backtester.mkBacktester s 0 res) date (skipn w df) ;;
       Ok (Backtester.mkBacktester (Backtester.strategy bt') w
             (Backtester.results bt'), pnl)).
Proof.
  intros s res w date df Hw.
  unfold Backtester.run_single_day.
  destruct df as [| b0 df0]; [simpl in Hw; lia |].
  remember (b0 :: df0) as df eqn:Hdf.
  destruct (skipn w df) as [| c0 sk0] eqn:Es.
  { apply skipn_all_iff in Es. lia. }
  rewrite <- Es.
  cbn [Backtester.strategy Backtester.window_size Backtester.results].
  rewrite length_skipn, Nat.sub_0_r.
  replace (seq w (length df - w)) with (seq (w + 0) (length df - w))
    by (rewrite Nat.add_0_r; reflexivity).
  rewrite bar_loop_shift by lia.
  destruct (Backtester.bar_loop _ 0 (skipn w df) s []) as [[s1 tr1] |];
    cbn [bind]; [| reflexivity].
  rewrite (force_close_all_skipn w df s1 tr1 Hw).
  destruct (Backtester.force_close_all df s1 tr1) as [[s2 tr2] |];
    cbn [bind]; [| reflexivity].
  destruct (Backtester.win_rate_of s2) as [q |]; cbn [bind]; reflexivity.
Qed.

Lemma window_size_only_skips_the_first_rows_witness :
  Backtester.run_single_day (Backtester.mkBacktester Examples.ledger0 1 [])
    20094 Examples.day1
  = ('(bt', pnl) <- Backtester.run_single_day
                      (Backtester.mkBacktester Examples.ledger0 0 []) 20094
                      (skipn 1 Examples.day1) ;;
     Ok (Backtester.mkBacktester (Backtester.strategy bt') 1
           (Backtester.results bt'), pnl)).
Proof.
  apply (window_size_only_skips_the_first_rows Examples.ledger0 [] 1 20094
           Examples.day1).
  cbn. lia.
Defined.

(** ** The settlement window *)

Section SettlementWindow.

Lemma Qfloor_unique (x : Q) (k : Z) :
  inject_Z k <= x -> x < inject_Z (k + 1) -> Qfloor x = k.
Proof.
  intros H1 H2.
  pose proof (Qfloor_le x) as F1. pose proof (Qlt_floor x) as F2.
  assert (A : (k < Qfloor x + 1)%Z).
  { rewrite Zlt_Qlt. eapply Qle_lt_trans; [exact H1 | exact F2]. }
  assert (B : (Qfloor x < k + 1)%Z).
  { rewrite Zlt_Qlt. eapply Qle_lt_trans; [exact F1 | exact H2]. }
  lia.
Qed.

Lemma Qmod_offset (k : Z) (d : Q) :
  0 <= d -> d < 28800 ->
  Qmod (28800 * inject_Z k + d) 28800 == d.
Proof.
  intros H0 H1. unfold Qmod.
  assert (Hx : (28800 * inject_Z k + d) / 28800 == inject_Z k + d / 28800)
    by (field).
  assert (Hd0 : 0 <= d / 28800).
  { apply Qle_shift_div_l; [reflexivity | lra]. }
  assert (Hd1 : d / 28800 < 1).
  { apply Qlt_shift_div_r; [reflexivity | lra]. }
  assert (Hf : Qfloor ((28800 * inject_Z k + d) / 28800) = k).
  { apply Qfloor_unique.
    - rewrite Hx. lra.
    - rewrite Hx, inject_Z_plus. change (inject_Z 1) with 1. lra. }
  rewrite Hf. ring.
Qed.

End SettlementWindow.

(** X28.  [_is_near_settlement] is true exactly in the last 800 seconds
    before a multiple of 28800 seconds, both ends excluded: for a timestamp
    [28800 * k + d] with [0 <= d < 28800] it is [d > 28000].  At a
    settlement instant itself it is false. *)
Theorem near_settlement_is_the_last_800_seconds :
  forall (k : Z) (d : Q),
    0 <= d -> d < 28800 ->
    Signals._is_near_settlement (28800 * inject_Z k + d) = Qgtb d 28000
    /\ Signals._is_near_settlement (28800 * inject_Z k) = false.
Proof.
  intros k d H0 H1.
  assert (Hgen : forall e, 0 <= e -> e < 28800 ->
                   Signals._is_near_settlement (28800 * inject_Z k + e)
                   = Qgtb e 28000).
  { intros e He0 He1. unfold Signals._is_near_settlement.
    pose proof (Qmod_offset k e He0 He1) as Hm.
    destruct (Qgtb e 28000) eqn:E.
    - apply Qgtb_true. apply Qgtb_true in E. rewrite Hm. exact E.
    - apply Qgtb_false. apply Qgtb_false in E. rewrite Hm. exact E. }
  split; [exact (Hgen d H0 H1) |].
  unfold Signals._is_near_settlement.
  apply Qgtb_false.
  assert (Hm : Qmod (28800 * inject_Z k) 28800 == 0).
  { pose proof (Qmod_offset k 0 ltac:(lra) ltac:(lra)) as Hm.
    unfold Qmod in *.
    assert (Hx : (28800 * inject_Z k + 0) / 28800 == 28800 * inject_Z k / 28800)
      by (field).
    rewrite (Qfloor_comp _ _ Hx) in Hm. lra. }
  rewrite Hm. lra.
Qed.

Lemma near_settlement_is_the_last_800_seconds_witness :
  Signals._is_near_settlement (28800 * inject_Z 60282 + 28400) = Qgtb 28400 28000
  /\ Signals._is_near_settlement (28800 * inject_Z 60282) = false.
Proof.
  apply (near_settlement_is_the_last_800_seconds 60282 28400).
  - vm_compute. discriminate.
  - vm_compute. reflexivity.
Defined.

(** X29.  The near-settlement entry thresholds never open a position:
    when the bar is near a settlement and the next settlement time the
    ledger knows after the call is not zero and not beyond the end of the
    bar's eight-hour period, [process_data] records closes only and
    leaves [last_entry_time] as it is. *)
Theorem no_entry_near_a_settlement :
  forall (s : Strategy.TradingStratsFirst) (data : list Bar) (bar : Bar)
         (s' : Strategy.TradingStratsFirst) (trades : list Strategy.Trade)
         (nft : Z),
    iloc_last data = Ok bar ->
    Strategy.process_data s data = Ok (s', trades) ->
    Signals._is_near_settlement (exchange_timestamp bar) = true ->
    Strategy.next_funding_time s' = Some nft ->
    nft <> 0%Z ->
    inject_Z nft
    <= 28800 * (inject_Z (Qfloor (exchange_timestamp bar / 28800)) + 1) ->
    Forall (fun t => Strategy.action_of t = Strategy.close) trades
    /\ Strategy.last_entry_time s' = Strategy.last_entry_time s
    /\ Strategy.next_position_id s' = Strategy.next_position_id s.
Proof.
  intros s data bar s' trades nft Hl Hp Hnear Hn Hz Hle.
  unfold Signals._is_near_settlement in Hnear. apply Qgtb_true in Hnear.
  unfold Qmod in Hnear.
  apply process_data_steps in Hp.
  destruct Hp as [(Hd & _) | (bar' & s2 & closes & Hl' & Hex & Hen)];
    [subst; discriminate |].
  rewrite Hl in Hl'. inversion Hl'; subst bar'. clear Hl'.
  destruct (before_exits_frame s (exchange_timestamp bar))
    as (_ & _ & _ & _ & _ & _ & Hle1 & Hid1 & _).
  cbv zeta in Hle1, Hid1.
  set (s1 := Strategy.refresh_next_funding_time
               (Strategy.process_funding_fees s (exchange_timestamp bar))
               (exchange_timestamp bar)) in *.
  assert (H2 : Strategy.last_entry_time s2 = Strategy.last_entry_time s1
               /\ Strategy.next_position_id s2 = Strategy.next_position_id s1).
  { revert Hex.
    apply (exit_loop_invariant
             (fun x => Strategy.last_entry_time x = Strategy.last_entry_time s1
                       /\ Strategy.next_position_id x = Strategy.next_position_id s1));
      [| split; reflexivity].
    intros s0 p [Ha Hb].
    destruct (close_step_spec s0 p (bar_swap_price bar) (bar_spot_price bar))
      as (_ & _ & _ & _ & _ & _ & _ & Hle0 & Hid0 & _).
    cbv zeta in *. split; congruence. }
  destruct H2 as [Hle2 Hid2].
  pose proof (exit_loop_trades _ _ _ _ _ _ _ _ Hex) as (cl & Hcl & Hall).
  simpl in Hcl. subst closes.
  apply entry_step_opened in Hen.
  destruct Hen as [[He Ht] | (v & tr & _ & _ & _ & Hnft & _ & _ & Ho & _)].
  - subst s' trades. repeat split; [exact Hall | congruence | congruence].
  - exfalso.
    destruct (open_position_frame _ _ _ _ _ _ _ Ho) as (_ & _ & _ & Hnf' & _).
    rewrite Hnf' in Hn. specialize (Hnft nft Hn Hz). lra.
Qed.

Lemma no_entry_near_a_settlement_witness :
  Forall (fun t => Strategy.action_of t = Strategy.close) []
  /\ Strategy.last_entry_time
       (Examples.state_of
          (Strategy.process_data Examples.settlement_ledger
             [Examples.near_settlement_bar]))
     = Strategy.last_entry_time Examples.settlement_ledger
  /\ Strategy.next_position_id
       (Examples.state_of
          (Strategy.process_data Examples.settlement_ledger
             [Examples.near_settlement_bar]))
     = Strategy.next_position_id Examples.settlement_ledger.
Proof.
  apply (no_entry_near_a_settlement Examples.settlement_ledger
           [Examples.near_settlement_bar] Examples.near_settlement_bar
           (Examples.state_of
              (Strategy.process_data Examples.settlement_ledger
                 [Examples.near_settlement_bar]))
           [] 1736150400).
  - reflexivity.
  - vm_compute. reflexivity.
  - vm_compute. reflexivity.
  - vm_compute. reflexivity.
  - discriminate.
  - vm_compute. discriminate.
Defined.

(** ** The frame of a day *)

Section DayFrame.

Import MarketData.

Lemma subseq_map {A B} (f : A -> B) (l1 l2 : list A) :
  subseq l1 l2 -> subseq (map f l1) (map f l2).
Proof.
  induction 1; cbn [map]; [apply subseq_nil | apply subseq_take | apply subseq_skip];
    assumption.
Qed.

Lemma sorted_timestamps (l : list Tick) :
  StronglySorted ts_le l -> StronglySorted Qle (map timestamp l).
Proof.
  induction 1 as [| t l Hs IH Hall]; cbn [map]; constructor; [exact IH |].
  rewrite Forall_forall in *. intros x Hx. apply in_map_iff in Hx.
  destruct Hx as (y & Hy & Hin). subst x. exact (Hall y Hin).
Qed.

Lemma preprocess_timestamps rows :
  map exchange_timestamp (Backtester._preprocess_data rows)
  = map timestamp (map fst rows).
Proof.
  unfold Backtester._preprocess_data. rewrite !map_map. reflexivity.
Qed.

(** The aligned pairs after the reset of the reading position have their
    swap ticks in time order when the swap side is. *)
Lemma reset_pairs_sorted P :
  StronglySorted ts_le (valid_ticks (data_type P) (swap P)) ->
  StronglySorted ts_le (map fst (merge_of (reset_position P))).
Proof.
  intro Hs. apply (subseq_sorted _ _ (swap_stream (reset_position P))).
  - pose proof (merge_subseq_swaps (end_ts (reset_position P))
                  (spot_stream (reset_position P))
                  (current_swap (reset_position P))
                  (valid_ticks (data_type (reset_position P))
                     (swap (reset_position P)))) as H.
    unfold stream_of in H. unfold merge_of, swap_stream.
    destruct (current_swap (reset_position P)); exact H.
  - exact (reset_position_sorted P Hs).
Qed.

End DayFrame.

(** X30.  The frame a day is run on is in time order whenever the swap
    file is: with the swap ticks of the provider ordered by timestamp,
    [read_all_fast_data] (on a Fast provider) and
    [read_all_depth_by_interval] (on a Depth provider, for any interval)
    return, and [_preprocess_data] turns their rows into as many bars
    whose timestamps do not decrease. *)
Theorem the_frame_of_a_day_is_in_time_order :
  forall P : MarketData.Provider,
    StronglySorted MarketData.ts_le
      (MarketData.valid_ticks (MarketData.data_type P) (MarketData.swap P)) ->
    (MarketData.data_type P = MarketData.Fast ->
     exists rows,
       MarketData.read_all_fast_data P = Ok (Some rows)
       /\ length (Backtester._preprocess_data rows) = length rows
       /\ StronglySorted Qle
            (map exchange_timestamp (Backtester._preprocess_data rows)))
    /\ (MarketData.data_type P = MarketData.Depth ->
        forall interval_ms,
        exists rows,
          MarketData.read_all_depth_by_interval interval_ms P = Ok (Some rows)
          /\ length (Backtester._preprocess_data rows) = length rows
          /\ StronglySorted Qle
               (map exchange_timestamp (Backtester._preprocess_data rows))).
Proof.
  intros P Hs. pose proof (reset_pairs_sorted P Hs) as Hm. split.
  - intro Hd. unfold MarketData.read_all_fast_data. rewrite Hd.
    exists (MarketData.merge_of (MarketData.reset_position P)).
    rewrite all_pairs_merge. split; [reflexivity |].
    split; [unfold Backtester._preprocess_data; apply length_map |].
    rewrite preprocess_timestamps. apply sorted_timestamps, Hm.
  - intros Hd interval_ms. unfold MarketData.read_all_depth_by_interval. rewrite Hd.
    set (P0 := MarketData.reset_for_read_all P).
    destruct (drain_by_interval_total interval_ms (MarketData.spot_fuel P0) P0)
      as (bars & Hb); [unfold MarketData.spot_fuel; lia |].
    exists bars. rewrite Hb. split; [reflexivity |].
    split; [unfold Backtester._preprocess_data; apply length_map |].
    rewrite preprocess_timestamps. apply sorted_timestamps.
    pose proof (all_pairs_merge P0) as Hp.
    rewrite (drain_by_interval_resample _ _ _ _ _ Hb Hp).
    apply (subseq_sorted _ _ (map fst (MarketData.merge_of P0))).
    + apply subseq_map, resample_subseq.
    + assert (He : MarketData.merge_of P0
                   = MarketData.merge_of (MarketData.reset_position P)).
      { pose proof (reset_position_pairs P) as Hr. fold P0 in Hr.
        rewrite Hp, all_pairs_merge in Hr. inversion Hr. reflexivity. }
      rewrite He. exact Hm.
Qed.

Lemma the_frame_of_a_day_is_in_time_order_witness :
  (MarketData.data_type Examples.fast_provider = MarketData.Fast ->
   exists rows,
     MarketData.read_all_fast_data Examples.fast_provider = Ok (Some rows)
     /\ length (Backtester._preprocess_data rows) = length rows
     /\ StronglySorted Qle
          (map exchange_timestamp (Backtester._preprocess_data rows)))
  /\ (MarketData.data_type Examples.fast_provider = MarketData.Depth ->
      forall interval_ms,
      exists rows,
        MarketData.read_all_depth_by_interval interval_ms Examples.fast_provider
        = Ok (Some rows)
        /\ length (Backtester._preprocess_data rows) = length rows
        /\ StronglySorted Qle
             (map exchange_timestamp (Backtester._preprocess_data rows))).
Proof.
  apply (the_frame_of_a_day_is_in_time_order Examples.fast_provider).
  vm_compute. repeat constructor; unfold MarketData.ts_le; simpl; discriminate.
Defined.
